(** * CI-Standards: the change-scoped static analysis scripts

    A shallow embedding of the Node.js scripts of the repository
    (check-code-standards.js, generate-pr-comments.js, post-pr-review.js and
    the older variants of the PR comment generator) together with the
    properties their specification states about them.

    Conventions of the embedding.
    - A JavaScript string is the list of its UTF-16 code units ([jsstring]).
    - A JavaScript number that holds a line number or an index is a [Z];
      the model is exact below 2^53.
    - A regular expression literal of the source is a term of [Re.re], run by
      a backtracking matcher that returns every way to match in the priority
      order of the ECMAScript semantics (greedy quantifiers, leftmost
      alternative first).
    - [undefined] is [None]; a thrown exception is [Throw]. *)

From Stdlib Require Import String Ascii NArith ZArith Bool Arith Lia List.
From Stdlib Require DecimalString.
Import ListNotations.

Set Implicit Arguments.

(* ================================================================== *)
(** ** JavaScript strings *)
(* ================================================================== *)

(** A code unit. *)
Abbreviation char := N (only parsing).
Definition jsstring := list char.

Local Open Scope N_scope.

(** An ASCII literal of the source as a [jsstring]. *)
Definition js (s : string) : jsstring :=
  map N_of_ascii (list_ascii_of_string s).

Definition char_eqb (a b : char) : bool := N.eqb a b.

Fixpoint jsstring_eqb (a b : jsstring) : bool :=
  match a, b with
  | [], [] => true
  | x :: a', y :: b' => char_eqb x y && jsstring_eqb a' b'
  | _, _ => false
  end.

Definition in_range (lo hi c : char) : bool := (N.leb lo c && N.leb c hi)%bool.

(** WhiteSpace and LineTerminator of ECMAScript: what [\s] matches and what
    [String.prototype.trim] strips. *)
Definition is_space (c : char) : bool :=
  in_range 9 13 c || char_eqb c 32 || char_eqb c 160 || char_eqb c 5760
  || in_range 8192 8202 c || char_eqb c 8232 || char_eqb c 8233
  || char_eqb c 8239 || char_eqb c 8287 || char_eqb c 12288
  || char_eqb c 65279.

(** LineTerminator: what [.] does not match and where a multiline [$] stops. *)
Definition is_line_terminator (c : char) : bool :=
  char_eqb c 10 || char_eqb c 13 || char_eqb c 8232 || char_eqb c 8233.

Definition is_digit (c : char) : bool := in_range 48 57 c.
Definition is_upper (c : char) : bool := in_range 65 90 c.
Definition is_lower (c : char) : bool := in_range 97 122 c.
Definition is_alnum_ (c : char) : bool :=
  is_lower c || is_upper c || is_digit c || char_eqb c 95.
(** [\w] *)
Definition is_word (c : char) : bool := is_alnum_ c.

(** Canonicalize of a case-insensitive, non-unicode pattern, on ASCII.  For a
    code unit of 128 and more the engine applies the simple upper-case mapping
    of Unicode (and never maps it into ASCII); the model leaves it as it is. *)
Definition canon (c : char) : char := if is_lower c then c - 32 else c.

Local Close Scope N_scope.

Fixpoint dropWhile (p : char -> bool) (s : jsstring) : jsstring :=
  match s with
  | [] => []
  | c :: t => if p c then dropWhile p t else s
  end.

Definition trimStart (s : jsstring) : jsstring := dropWhile is_space s.
Definition trimEnd (s : jsstring) : jsstring := rev (dropWhile is_space (rev s)).
(** [s.trim()] *)
Definition trim (s : jsstring) : jsstring := trimEnd (trimStart s).

Fixpoint startsWith (s p : jsstring) : bool :=
  match p, s with
  | [], _ => true
  | x :: p', y :: s' => char_eqb x y && startsWith s' p'
  | _ :: _, [] => false
  end.

(** [s.includes(p)] *)
Fixpoint includes (s p : jsstring) : bool :=
  startsWith s p ||
  match s with
  | [] => false
  | _ :: t => includes t p
  end.

Definition endsWith (s p : jsstring) : bool := startsWith (rev s) (rev p).

(** [s.split(sep)] for a separator of one code unit. *)
Fixpoint split_on (sep : char) (s : jsstring) : list jsstring :=
  match s with
  | [] => [[]]
  | c :: t =>
      if char_eqb c sep then [] :: split_on sep t
      else match split_on sep t with
           | [] => [[c]]
           | h :: r => (c :: h) :: r
           end
  end.

(** [parts.join(sep)] *)
Fixpoint join (sep : jsstring) (parts : list jsstring) : jsstring :=
  match parts with
  | [] => []
  | [p] => p
  | p :: r => p ++ sep ++ join sep r
  end.

(** [String(n)] for an integer. *)
Definition string_of_Z (n : Z) : jsstring :=
  js (DecimalString.NilZero.string_of_int (Z.to_int n)).

(* ================================================================== *)
(** ** Regular expressions *)
(* ================================================================== *)

Module Re.

Inductive re : Type :=
| Eps
| Chr (p : char -> bool)       (* one code unit satisfying [p] *)
| Seq (a b : re)
| Alt (a b : re)               (* [a|b], [a] tried first *)
| Star (a : re)                (* greedy [a*] *)
| Grp (n : nat) (a : re)       (* capture group number [n] *)
| Bol                          (* [^], no multiline flag *)
| Eol (multiline : bool)       (* [$] *)
| WordB.                       (* [\b] *)

(** The state of a match: the code units before the current position, last
    one first; those from it on; the captures set so far. *)
Record st : Type := mk_st {
  seen : jsstring;
  todo : jsstring;
  caps : list (nat * jsstring)
}.

Definition advance (c : char) (t : jsstring) (s : st) : st :=
  mk_st (c :: seen s) t (caps s).

(** What group [n] matched between state [s0] and state [s]. *)
Definition captured (s0 s : st) : jsstring :=
  rev (firstn (length (seen s) - length (seen s0)) (seen s)).

Definition set_cap (n : nat) (s0 s : st) : st :=
  mk_st (seen s) (todo s) ((n, captured s0 s) :: caps s).

Fixpoint cap_lookup (n : nat) (l : list (nat * jsstring)) : option jsstring :=
  match l with
  | [] => None
  | (k, v) :: r => if Nat.eqb k n then Some v else cap_lookup n r
  end.

Definition is_word_opt (c : option char) : bool :=
  match c with Some x => is_word x | None => false end.

Definition at_word_boundary (s : st) : bool :=
  xorb (is_word_opt (hd_error (seen s))) (is_word_opt (hd_error (todo s))).

Definition at_end (multiline : bool) (s : st) : bool :=
  match todo s with
  | [] => true
  | c :: _ => multiline && is_line_terminator c
  end.

(** One more round of a greedy star: the rounds that consume something come
    first, longest first, then the empty match.  A round that consumes nothing
    is rejected, as RepeatMatcher does.  [fuel] bounds the rounds by the code
    units left. *)
Fixpoint star_loop (step : st -> list st) (fuel : nat) (s : st) : list st :=
  match fuel with
  | O => [s]
  | S f =>
      flat_map
        (fun s' =>
           if Nat.ltb (length (todo s')) (length (todo s))
           then star_loop step f s' else [])
        (step s)
      ++ [s]
  end.

(** Every way for [r] to match from state [s], best first. *)
Fixpoint run (r : re) (s : st) : list st :=
  match r with
  | Eps => [s]
  | Chr p =>
      match todo s with
      | c :: t => if p c then [advance c t s] else []
      | [] => []
      end
  | Seq a b => flat_map (run b) (run a s)
  | Alt a b => run a s ++ run b s
  | Star a => star_loop (run a) (length (todo s)) s
  | Grp n a => map (set_cap n s) (run a s)
  | Bol => match seen s with [] => [s] | _ :: _ => [] end
  | Eol m => if at_end m s then [s] else []
  | WordB => if at_word_boundary s then [s] else []
  end.

(** A successful match: where it starts and the state it ends in. *)
Record mtch : Type := mk_mtch {
  m_start : st;
  m_end : st
}.

Definition m_index (m : mtch) : nat := length (seen (m_start m)).
Definition m_text (m : mtch) : jsstring := captured (m_start m) (m_end m).
(** [m[n]] of a match result; [None] is [undefined]. *)
Definition m_group (n : nat) (m : mtch) : option jsstring :=
  cap_lookup n (caps (m_end m)).

(** The first match at or after the position [(before, after)]. *)
Fixpoint exec_from (r : re) (before after : jsstring) : option mtch :=
  let s0 := mk_st before after [] in
  match run r s0 with
  | m :: _ => Some (mk_mtch s0 m)
  | [] =>
      match after with
      | [] => None
      | c :: t => exec_from r (c :: before) t
      end
  end.

(** [s.match(r)] and [r.exec(s)] without the global flag. *)
Definition exec (r : re) (s : jsstring) : option mtch := exec_from r [] s.

(** [r.test(s)] *)
Definition test (r : re) (s : jsstring) : bool :=
  match exec r s with Some _ => true | None => false end.

(** The successive matches of a global pattern: each search starts where the
    previous match ended, one code unit further after an empty match. *)
Fixpoint all_from (r : re) (fuel : nat) (before after : jsstring) : list mtch :=
  match fuel with
  | O => []
  | S f =>
      match exec_from r before after with
      | None => []
      | Some m =>
          let e := m_end m in
          m ::
          (if Nat.ltb (length (todo e)) (length (todo (m_start m)))
           then all_from r f (seen e) (todo e)
           else match todo e with
                | [] => []
                | c :: t => all_from r f (c :: seen e) t
                end)
      end
  end.

(** [[...s.matchAll(r)]] *)
Definition matchAll (r : re) (s : jsstring) : list mtch :=
  all_from r (S (length s)) [] s.

(** The text between the end of the previous match (at depth [k] of [before],
    counted from the current position) and the start of match [m]. *)
Definition gap (from_len : nat) (m : mtch) : jsstring :=
  rev (firstn (m_index m - from_len) (seen (m_start m))).

(** [s.replace(r, repl)] with the global flag. *)
Definition replaceAll (r : re) (repl s : jsstring) : jsstring :=
  let fix go (ms : list mtch) (from_len : nat) : jsstring :=
    match ms with
    | [] => skipn from_len s
    | m :: rest =>
        gap from_len m ++ repl ++ go rest (length (seen (m_end m)))
    end in
  go (matchAll r s) 0.

(** [s.replace(r, repl)] without the global flag. *)
Definition replaceFirst (r : re) (repl s : jsstring) : jsstring :=
  match exec r s with
  | None => s
  | Some m => gap 0 m ++ repl ++ todo (m_end m)
  end.

(** *** Building blocks, as the pattern syntax has them *)

Definition ch (c : string) : re :=
  match js c with
  | [x] => Chr (char_eqb x)
  | _ => Eps
  end.

Fixpoint lit_of (l : jsstring) : re :=
  match l with
  | [] => Eps
  | [c] => Chr (char_eqb c)
  | c :: t => Seq (Chr (char_eqb c)) (lit_of t)
  end.

(** A literal run of characters. *)
Definition lit (s : string) : re := lit_of (js s).

(** The same under the [i] flag. *)
Fixpoint lit_ci_of (l : jsstring) : re :=
  match l with
  | [] => Eps
  | [c] => Chr (fun x => char_eqb (canon x) (canon c))
  | c :: t => Seq (Chr (fun x => char_eqb (canon x) (canon c))) (lit_ci_of t)
  end.

Definition lit_ci (s : string) : re := lit_ci_of (js s).

Fixpoint seqs (l : list re) : re :=
  match l with
  | [] => Eps
  | [r] => r
  | r :: t => Seq r (seqs t)
  end.

Fixpoint alts (l : list re) : re :=
  match l with
  | [] => Eps
  | [r] => r
  | r :: t => Alt r (alts t)
  end.

Definition plus (r : re) : re := Seq r (Star r).
Definition opt (r : re) : re := Alt r Eps.

(** [[...]] and [[^...]] over a list of code units given as a string. *)
Definition one_of (s : string) : char -> bool :=
  fun c => existsb (char_eqb c) (js s).
Definition none_of (s : string) : char -> bool :=
  fun c => negb (existsb (char_eqb c) (js s)).

Definition space : re := Chr is_space.                                (* \s *)
Definition nonspace : re := Chr (fun c => negb (is_space c)).         (* \S *)
Definition digit : re := Chr is_digit.                                (* \d *)
Definition word : re := Chr is_word.                                  (* \w *)
Definition dot : re := Chr (fun c => negb (is_line_terminator c)).    (* . *)
Definition blank : re :=                                              (* [ \t] *)
  Chr (fun c => char_eqb c 32%N || char_eqb c 9%N).

End Re.

(* ================================================================== *)
(** ** Values, exceptions and effects *)
(* ================================================================== *)

Inductive exn : Type :=
| TypeError      (* a method called on [undefined] *)
| SyntaxError    (* [new RegExp] on an invalid pattern *)
| IOError.       (* [fs.readFileSync] or [execSync] failed *)

Inductive outcome (A : Type) : Type :=
| Ok (a : A)
| Throw (e : exn).

Arguments Ok {A} a.
Arguments Throw {A} e.

(** A computation that appends to a log of [L] and returns or throws.  What
    was logged before a throw stays logged: a [push] on an array declared
    outside a [try] survives the [catch]. *)
Definition Eff (L A : Type) : Type := (list L * outcome A)%type.

Definition ret {L A} (a : A) : Eff L A := ([], Ok a).
Definition throw {L A} (e : exn) : Eff L A := ([], Throw e).
Definition emit {L} (x : L) : Eff L unit := ([x], Ok tt).

Definition bind {L A B} (m : Eff L A) (f : A -> Eff L B) : Eff L B :=
  match m with
  | (l, Ok a) => let (l', r) := f a in (l ++ l', r)
  | (l, Throw e) => (l, Throw e)
  end.

Notation "x <- m ;; k" := (bind m (fun x => k))
  (at level 61, m at next level, right associativity).
Notation "m ;;; k" := (bind m (fun _ => k))
  (at level 61, right associativity).

Definition logged {L A} (m : Eff L A) : list L := fst m.
Definition result {L A} (m : Eff L A) : outcome A := snd m.

(** Run [m] for its result only, in a computation with another log. *)
Definition pure_of {L L' A} (m : Eff L A) : Eff L' A := ([], result m).

(** A call that returns or throws and logs nothing. *)
Definition call {L A} (o : outcome A) : Eff L A := ([], o).

(** [if (c) { m }] *)
Definition when {L} (c : bool) (m : Eff L unit) : Eff L unit :=
  if c then m else ret tt.

(** [xs.forEach(x => f x)] and [for (const x of xs) f x] *)
Fixpoint forEach {L A} (f : A -> Eff L unit) (xs : list A) : Eff L unit :=
  match xs with
  | [] => ret tt
  | x :: r => f x ;;; forEach f r
  end.

(** [xs.forEach((x, index) => f x index)], the first index being [i]. *)
Fixpoint forEachIdx {L A} (f : A -> Z -> Eff L unit) (xs : list A) (i : Z)
  : Eff L unit :=
  match xs with
  | [] => ret tt
  | x :: r => f x i ;;; forEachIdx f r (i + 1)
  end.

(** ToString of a value that is a string or [undefined]. *)
Definition ToString (v : option jsstring) : jsstring :=
  match v with
  | Some s => s
  | None => js "undefined"
  end.

(** A string is truthy when it is not empty; [undefined] and [null] are not. *)
Definition truthy (v : option jsstring) : bool :=
  match v with
  | Some (_ :: _) => true
  | _ => false
  end.

Definition isEmpty (s : jsstring) : bool :=
  match s with [] => true | _ :: _ => false end.

Definition nl : jsstring := [10%N].

(** [lines[j]] for an integer [j]. *)
Definition get (lines : list jsstring) (j : Z) : option jsstring :=
  if (j <? 0)%Z then None else nth_error lines (Z.to_nat j).

Definition len (lines : list jsstring) : Z := Z.of_nat (length lines).

(** [lines.slice(a, b)]: a negative bound counts from the end. *)
Definition slice_bound (n k : Z) : Z :=
  if (k <? 0)%Z then Z.max (n + k) 0 else Z.min k n.

Definition slice (lines : list jsstring) (a b : Z) : list jsstring :=
  let from := slice_bound (len lines) a in
  let to := slice_bound (len lines) b in
  firstn (Z.to_nat (to - from)) (skipn (Z.to_nat from) lines).

(** The indices a [slice] reads. *)
Definition slice_reads (lines : list jsstring) (a b : Z) : list Z :=
  let from := slice_bound (len lines) a in
  let to := slice_bound (len lines) b in
  map (fun k => (from + Z.of_nat k)%Z) (seq 0 (Z.to_nat (to - from))).

(* ================================================================== *)
(** ** scripts/check-code-standards.js *)
(* ================================================================== *)

Module Std.
Import Re.

Record JsDocInfo : Type := mkInfo {
  exists_ : bool;
  isSingleLine : bool;
  startIdx : Z;
  endIdx : Z;
  content : jsstring
}.

Definition notFound : JsDocInfo := mkInfo false false (-1) (-1) [].

(** The patterns of getJsDocInfo, in the order of the source:
    "^\s*@[A-Z]\w+\s*[\({]", "^\s*\/\*\*.*\*\/\s*$", "^\s*\*\/\s*$",
    "^\s*\*\s*", "^\s*\/\*\*", "^\s*\/\*" and "\*\/\s*$". *)
Definition decoratorRe : re :=
  seqs [Bol; Star space; ch "@"; Chr is_upper; plus word; Star space;
        Chr (one_of "({")].
Definition singleLineRe : re :=
  seqs [Bol; Star space; lit "/**"; Star dot; lit "*/"; Star space; Eol false].
Definition blockEndRe : re :=
  seqs [Bol; Star space; lit "*/"; Star space; Eol false].
Definition blockMiddleRe : re :=
  seqs [Bol; Star space; ch "*"; Star space].
Definition jsDocStartRe : re :=
  seqs [Bol; Star space; lit "/**"].
Definition commentStartRe : re :=
  seqs [Bol; Star space; lit "/*"].
Definition closesRe : re :=
  seqs [lit "*/"; Star space; Eol false].

(** [lines[j]], logged. *)
Definition read (lines : list jsstring) (j : Z) : Eff Z (option jsstring) :=
  ([j], Ok (get lines j)).

(** [v.trim()] *)
Definition trim_of (v : option jsstring) : Eff Z jsstring :=
  match v with
  | Some s => ret (trim s)
  | None => throw TypeError
  end.

(** [r.test(v)]: the argument is converted to a string. *)
Definition test_of (r : re) (v : option jsstring) : bool :=
  test r (ToString v).

(** The rounds a loop that counts [j] down to 0 can take. *)
Definition rounds_down (j : Z) : nat := Z.to_nat (j + 1).

(** [while (j >= 0 && lines[j].trim() === '') j--;] *)
Fixpoint skipBlank (fuel : nat) (lines : list jsstring) (j : Z) : Eff Z Z :=
  match fuel with
  | O => ret j
  | S f =>
      if (0 <=? j)%Z then
        v <- read lines j ;;
        t <- trim_of v ;;
        if isEmpty t then skipBlank f lines (j - 1) else ret j
      else ret j
  end.

(** [while (j >= 0 && decorator.test(lines[j])) j--;] *)
Fixpoint skipDecorators (fuel : nat) (lines : list jsstring) (j : Z) : Eff Z Z :=
  match fuel with
  | O => ret j
  | S f =>
      if (0 <=? j)%Z then
        v <- read lines j ;;
        if test_of decoratorRe v then skipDecorators f lines (j - 1) else ret j
      else ret j
  end.

(** [lines.slice(a, b).join('\n')] *)
Definition sliceJoin (lines : list jsstring) (a b : Z) : Eff Z jsstring :=
  (slice_reads lines a b, Ok (join nl (slice lines a b))).

(** The walk back from a line of the end or the middle of a block:
    [while (j >= 0) { ...; j--; } return notFound;] *)
Fixpoint walkBack (fuel : nat) (lines : list jsstring) (endIdx j : Z)
  : Eff Z JsDocInfo :=
  match fuel with
  | O => ret notFound
  | S f =>
      if (0 <=? j)%Z then
        v <- read lines j ;;
        if test_of jsDocStartRe v then
          c <- sliceJoin lines j (endIdx + 1) ;;
          ret (mkInfo true false j endIdx c)
        else
          v1 <- read lines j ;;
          if test_of commentStartRe v1 then
            v2 <- read lines j ;;
            if negb (test_of jsDocStartRe v2) then ret notFound
            else walkBack f lines endIdx (j - 1)
          else walkBack f lines endIdx (j - 1)
      else ret notFound
  end.

(** [while (endIdx < lines.length && !closes.test(lines[endIdx])) endIdx++;] *)
Fixpoint scanForward (fuel : nat) (lines : list jsstring) (e : Z) : Eff Z Z :=
  match fuel with
  | O => ret e
  | S f =>
      if (e <? len lines)%Z then
        v <- read lines e ;;
        if negb (test_of closesRe v) then scanForward f lines (e + 1)
        else ret e
      else ret e
  end.

Definition getJsDocInfo (lines : list jsstring) (index : Z) : Eff Z JsDocInfo :=
  let j := (index - 1)%Z in
  j <- skipBlank (rounds_down j) lines j ;;
  j <- skipDecorators (rounds_down j) lines j ;;
  j <- skipBlank (rounds_down j) lines j ;;
  if (j <? 0)%Z then ret notFound else
  line <- read lines j ;;
  if test_of singleLineRe line then
    ret (mkInfo true true j j (ToString line))
  else if test_of blockEndRe line || test_of blockMiddleRe line then
    walkBack (rounds_down j) lines j j
  else if test_of jsDocStartRe line then
    if test_of singleLineRe line then
      ret (mkInfo true true j j (ToString line))
    else
      e <- scanForward (Z.to_nat (len lines - j)) lines j ;;
      c <- sliceJoin lines j (e + 1) ;;
      ret (mkInfo true false j e c)
  else ret notFound.

(** *** extractParams *)

Record Param : Type := mkParam {
  name : jsstring;
  type_ : jsstring
}.

(** An opening parenthesis, group 1 of any characters but the closing one,
    a closing parenthesis. *)
Definition parensRe : re :=
  seqs [ch "("; Grp 1 (Star (Chr (none_of ")"))); ch ")"].
(** "\}\s*:\s*(\S+)" *)
Definition destructRe : re :=
  seqs [ch "}"; Star space; ch ":"; Star space; Grp 1 (plus nonspace)].

(** The state of the splitting loop: [depth], [current] and [params]. *)
Record SplitState : Type := mkSplit {
  depth : Z;
  current : jsstring;
  params : list jsstring
}.

Definition opens (c : char) : bool := one_of "<({" c.
Definition closes (c : char) : bool := one_of ">)}" c.
Definition comma : char := 44%N.

(** [if (current.trim()) params.push(current.trim());] *)
Definition pushCurrent (cur : jsstring) (ps : list jsstring) : list jsstring :=
  if isEmpty (trim cur) then ps else ps ++ [trim cur].

(** One round of [for (const char of paramsStr)].  The loop visits code
    points; the characters it tests are single code units and [current += char]
    appends the code units of the code point, so a round per code unit builds
    the same strings. *)
Definition splitStep (s : SplitState) (c : char) : SplitState :=
  if opens c then mkSplit (depth s + 1) (current s ++ [c]) (params s)
  else if closes c then mkSplit (depth s - 1) (current s ++ [c]) (params s)
  else if char_eqb c comma && (depth s =? 0)%Z then
    mkSplit (depth s) [] (pushCurrent (current s) (params s))
  else mkSplit (depth s) (current s ++ [c]) (params s).

Definition splitParams (paramsStr : jsstring) : list jsstring :=
  let s := fold_left splitStep paramsStr (mkSplit 0 [] []) in
  pushCurrent (current s) (params s).

Definition colon : char := 58%N.
Definition equals : char := 61%N.

(** The callback of [params.map]. *)
Definition toParam (p : jsstring) : Param :=
  if startsWith (trim p) (js "{") then
    match exec destructRe p with
    | Some m => mkParam (js "destructured") (ToString (m_group 1 m))
    | None => mkParam (js "destructured") (js "unknown")
    end
  else
    let parts := split_on colon p in
    let nm :=
      replaceFirst (seqs [ch "?"; Eol false]) []
        (replaceFirst (seqs [Bol; ch "?"]) [] (trim (hd [] parts))) in
    let ty :=
      if truthy (nth_error parts 1)
      then trim (hd [] (split_on equals (nth 1 parts [])))
      else js "unknown" in
    mkParam nm ty.

Definition extractParams (line : jsstring) : list Param :=
  match exec parensRe line with
  | None => []
  | Some m =>
      let paramsStr := trim (ToString (m_group 1 m)) in
      if isEmpty paramsStr then [] else
      filter (fun p => negb (isEmpty (name p)))
             (map toParam (splitParams paramsStr))
  end.

(** *** getAccessModifier and the tag checks *)

Definition visibilityRe : re :=
  alts [lit "public"; lit "private"; lit "protected"].

(** "^\s*(public|private|protected)\s" *)
Definition accessRe : re :=
  seqs [Bol; Star space; Grp 1 visibilityRe; space].

Definition getAccessModifier (line : jsstring) : option jsstring :=
  match exec accessRe line with
  | Some m => m_group 1 m
  | None => None
  end.

Record Check : Type := mkCheck {
  valid : bool;
  message : jsstring
}.

(** "@public\b", "@private\b" and "@protected\b" *)
Definition tagRe (tag : string) : re := seqs [ch "@"; lit tag; WordB].

Definition count_true (l : list bool) : nat := length (filter (fun b => b) l).

Definition checkAccessModifierTag (jsDocContent : jsstring)
  (actualModifier : option jsstring) : Check :=
  if negb (truthy actualModifier) then mkCheck true [] else
  let m := ToString actualModifier in
  let hasPublicTag := test (tagRe "public") jsDocContent in
  let hasPrivateTag := test (tagRe "private") jsDocContent in
  let hasProtectedTag := test (tagRe "protected") jsDocContent in
  let tagCount := count_true [hasPublicTag; hasPrivateTag; hasProtectedTag] in
  if Nat.eqb tagCount 0 then
    mkCheck false (js "Missing @" ++ m ++ js " tag in JSDoc")
  else if Nat.ltb 1 tagCount then
    mkCheck false (js "Multiple access modifier tags in JSDoc")
  else if jsstring_eqb m (js "public") && negb hasPublicTag then
    mkCheck false (js "JSDoc should have @public (method is public)")
  else if jsstring_eqb m (js "private") && negb hasPrivateTag then
    mkCheck false (js "JSDoc should have @private (method is private)")
  else if jsstring_eqb m (js "protected") && negb hasProtectedTag then
    mkCheck false (js "JSDoc should have @protected (method is protected)")
  else mkCheck true [].

(** "@returns?\s|\@returns?\s*$" with the flag m *)
Definition returnsRe : re :=
  Alt (seqs [lit "@return"; opt (ch "s"); space])
      (seqs [lit "@return"; opt (ch "s"); Star space; Eol true]).

Definition hasReturnsTag (jsDocContent : jsstring) : bool :=
  test returnsRe jsDocContent.

(** *** checkParamTags *)

Record ParamCheck : Type := mkParamCheck {
  pvalid : bool;
  errors : list jsstring
}.

(** "\{[^}]*\}" *)
Definition bracedRe : re :=
  seqs [ch "{"; Star (Chr (none_of "}")); ch "}"].

(** The pattern built for a parameter name made of word characters, where
    the interpolated text is a run of literal characters:
    "@param\s+(\{[^}]*\})?\s*\[?NAME\]?[\s\-]" with the flag i. *)
Definition paramNameRe (nm : jsstring) : re :=
  seqs [lit_ci "@param"; plus space; opt (Grp 1 bracedRe); Star space;
        opt (ch "["); lit_ci_of nm; opt (ch "]");
        Chr (fun c => is_space c || char_eqb c 45%N)].

(** "@param\s*(?:\{[^}]*\})?\s*\[?(\w+)\]?" with the flag g *)
Definition docParamRe : re :=
  seqs [lit "@param"; Star space; opt bracedRe; Star space; opt (ch "[");
        Grp 1 (plus word); opt (ch "]")].

Definition isDestructured (p : Param) : bool :=
  jsstring_eqb (name p) (js "destructured").

Definition quoted (s : jsstring) : jsstring := js "'" ++ s ++ js "'".

Section WithRegExp.

(** [compileName nm] is the pattern that [new RegExp] builds from the template
    of checkParamTags for the parameter name [nm], or [None] when the
    constructor throws.  The pattern grammar is not part of the embedding:
    the constructor is a parameter, and [reads_word_names] says what it does
    on the names whose text is literal in a pattern. *)
Variable compileName : jsstring -> option re.

(** The body of [for (const param of params)]. *)
Definition paramStep (jsDocContent : jsstring) (param : Param)
  : Eff jsstring unit :=
  if isDestructured param then ret tt else
  match compileName (name param) with
  | None => throw SyntaxError
  | Some paramNameRegex =>
      match exec paramNameRegex jsDocContent with
      | None => emit (js "Missing @param for " ++ quoted (name param))
      | Some paramMatch =>
          let hasTypeInBraces :=
            truthy (m_group 1 paramMatch)
            && Nat.ltb 2 (length (ToString (m_group 1 paramMatch))) in
          when (negb hasTypeInBraces)
            (emit (js "@param " ++ name param
                   ++ js " missing {Type} in curly braces"))
      end
  end.

Definition jsDocParamNames (jsDocContent : jsstring) : list jsstring :=
  map (fun m => ToString (m_group 1 m)) (matchAll docParamRe jsDocContent).

Definition actualParamNames (params : list Param) : list jsstring :=
  map name (filter (fun p => negb (isDestructured p)) params).

(** The body of [for (const docParam of jsDocParamNames)]. *)
Definition extraStep (actual : list jsstring) (docParam : jsstring)
  : Eff jsstring unit :=
  when (negb (existsb (jsstring_eqb docParam) actual))
    (emit (js "Extra @param " ++ quoted docParam
           ++ js " in JSDoc doesn't match any function parameter")).

Definition checkParamTags (jsDocContent : jsstring) (params : list Param)
  : outcome ParamCheck :=
  if Nat.eqb (length params) 0 then Ok (mkParamCheck true []) else
  let run :=
    forEach (paramStep jsDocContent) params ;;;
    forEach (extraStep (actualParamNames params))
            (jsDocParamNames jsDocContent) in
  match result run with
  | Ok _ => Ok (mkParamCheck (Nat.eqb (length (logged run)) 0) (logged run))
  | Throw e => Throw e
  end.

(** *** checkSingleLineJsDoc *)

(** "\/\*\*|\*\/" with the flag g *)
Definition delimiterRe : re := Alt (lit "/**") (lit "*/").

Definition notSingleLineMsg (propertyType : jsstring) : jsstring :=
  propertyType ++ js " should have single-line JSDoc (/** ... */), not multi-line".
Definition emptyDocMsg (propertyType : jsstring) : jsstring :=
  propertyType ++ js " JSDoc is empty - add a description".

Definition checkSingleLineJsDoc (jsDocInfo : JsDocInfo) (propertyType : jsstring)
  : list jsstring :=
  (if negb (isSingleLine jsDocInfo) then [notSingleLineMsg propertyType] else [])
  ++
  (if isSingleLine jsDocInfo then
     let c := trim (replaceAll delimiterRe [] (content jsDocInfo)) in
     if isEmpty c then [emptyDocMsg propertyType] else []
   else []).

(** *** checkFile *)

Record Violation : Type := mkViolation {
  v_file : jsstring;
  v_line : Z;
  v_message : jsstring
}.

Record FileResult : Type := mkFileResult {
  hasError : bool;
  violations : list Violation
}.

Definition alnum_ : re := Chr is_alnum_.                 (* [a-zA-Z0-9_] *)
Definition typeChar : re :=                              (* [A-Za-z0-9_[\]|<>] *)
  Chr (fun c => is_alnum_ c || one_of "[]|<>" c).
Definition identStart : re :=                            (* [a-zA-Z_$] *)
  Chr (fun c => is_lower c || is_upper c || one_of "_$" c).
Definition identChar : re :=                             (* [a-zA-Z0-9_$] *)
  Chr (fun c => is_alnum_ c || one_of "$" c).
Definition lessOrParen : re := Chr (one_of "<(").        (* [<(] *)

(** "^[ \t]*(public|private|protected)?[ \t]*[a-zA-Z0-9_]+\s*\([^)]*\)\s*:\s*[A-Za-z0-9_[\]|<>]+[ \t]*\{" *)
Definition methodRegex : re :=
  seqs [Bol; Star blank; opt (Grp 1 visibilityRe); Star blank; plus alnum_;
        Star space; ch "("; Star (Chr (none_of ")")); ch ")"; Star space;
        ch ":"; Star space; plus typeChar; Star blank; ch "{"].

(** "^[ \t]*(public|private|protected)[ \t]+(readonly[ \t]+)?[a-zA-Z_$][a-zA-Z0-9_$]*\s*=\s*"
    followed by the factory call. *)
Definition propertyHead (readonly : bool) : list re :=
  [Bol; Star blank; Grp 1 visibilityRe; plus blank]
  ++ (if readonly then [opt (Grp 2 (seqs [lit "readonly"; plus blank]))] else [])
  ++ [identStart; Star identChar; Star space; ch "="; Star space].

Definition computedRegex : re :=
  seqs (propertyHead true ++ [lit "computed"; Star space; lessOrParen]).
Definition signalRegex : re :=
  seqs (propertyHead true ++ [lit "signal"; Star space; lessOrParen]).
Definition inputRegex : re :=
  seqs (propertyHead false
        ++ [lit "input"; opt (Grp 2 (lit ".required")); Star space; lessOrParen]).
Definition outputRegex : re :=
  seqs (propertyHead false ++ [lit "output"; Star space; lessOrParen]).
Definition viewChildRegex : re :=
  seqs (propertyHead true
        ++ [lit "viewChild"; opt (Grp 3 (lit ".required")); Star space;
            lessOrParen]).

(** ":\s*[A-Za-z0-9_[\]|<>]+" *)
Definition returnTypeRe : re := seqs [ch ":"; Star space; plus typeChar].

(** [addViolation(message, line)], without the console output. *)
Definition addViolation (file : jsstring) (msg : jsstring) (line : Z)
  : Eff Violation unit :=
  emit (mkViolation file line msg).

(** The block [if (methodRegex.test(line)) { ... }] of the loop. *)
Definition checkMethod (file : jsstring) (lines : list jsstring)
  (line : jsstring) (i : Z) : Eff Violation unit :=
  when (test methodRegex line)
    (jsDocInfo <- pure_of (getJsDocInfo lines i) ;;
     let actualModifier := getAccessModifier line in
     let hasAccess := match actualModifier with Some _ => true | None => false end in
     let hasReturnType := test returnTypeRe line in
     (if negb (exists_ jsDocInfo) then
        addViolation file (js "Missing JSDoc above method") (i + 1)
      else
        when (negb (hasReturnsTag (content jsDocInfo)))
          (addViolation file (js "Missing @returns in JSDoc") (i + 1)) ;;;
        (let accessCheck :=
           checkAccessModifierTag (content jsDocInfo) actualModifier in
         when (negb (valid accessCheck))
           (addViolation file (message accessCheck) (i + 1))) ;;;
        (paramCheck <- call (checkParamTags (content jsDocInfo)
                                            (extractParams line)) ;;
         when (negb (pvalid paramCheck))
           (forEach (fun err => addViolation file err (i + 1))
                    (errors paramCheck)))) ;;;
     when (negb hasAccess)
       (addViolation file (js "Missing access modifier on method") (i + 1)) ;;;
     when (negb hasReturnType)
       (addViolation file (js "Missing return type") (i + 1))).

(** The five blocks for the reactive properties are copies of one another up
    to the pattern and the two names in the messages. *)
Definition checkProperty (pattern : re) (shown typeName : string)
  (file : jsstring) (lines : list jsstring) (line : jsstring) (i : Z)
  : Eff Violation unit :=
  when (test pattern line)
    (jsDocInfo <- pure_of (getJsDocInfo lines i) ;;
     let hasAccess := test visibilityRe line in
     (if negb (exists_ jsDocInfo) then
        addViolation file (js "Missing JSDoc above " ++ js shown) (i + 1)
      else
        forEach (fun err => addViolation file err (i + 1))
                (checkSingleLineJsDoc jsDocInfo (js typeName))) ;;;
     when (negb hasAccess)
       (addViolation file (js "Missing access modifier on " ++ js shown) (i + 1))).

(** The body of [for (let i = 0; i < lines.length; i++)]. *)
Definition checkLine (file : jsstring) (lines : list jsstring)
  (line : jsstring) (i : Z) : Eff Violation unit :=
  checkMethod file lines line i ;;;
  checkProperty computedRegex "computed property" "Computed property" file lines line i ;;;
  checkProperty signalRegex "signal" "Signal" file lines line i ;;;
  checkProperty inputRegex "input" "Input" file lines line i ;;;
  checkProperty outputRegex "output" "Output" file lines line i ;;;
  checkProperty viewChildRegex "viewChild" "ViewChild" file lines line i.

(** The file system: [fs.readFileSync(file)] returns the content of [file] or
    throws. *)
Definition FileSystem : Type := jsstring -> option jsstring.

Definition readFileSync (fs : FileSystem) (file : jsstring) : outcome jsstring :=
  match fs file with
  | Some c => Ok c
  | None => Throw IOError
  end.

Definition checkFile (fs : FileSystem) (file : jsstring) : outcome FileResult :=
  match readFileSync fs file with
  | Throw e => Throw e
  | Ok text =>
      let lines := split_on 10%N text in
      let run := forEachIdx (checkLine file lines) lines 0 in
      match result run with
      | Ok _ => Ok (mkFileResult (Nat.ltb 0 (length (logged run))) (logged run))
      | Throw e => Throw e
      end
  end.

(** The command line: [files.forEach(file => { const result = checkFile(file,
    true); if (result.hasError) hasError = true; })], then the exit code. *)
Fixpoint checkAll (fs : FileSystem) (files : list jsstring) (acc : bool)
  : outcome bool :=
  match files with
  | [] => Ok acc
  | file :: rest =>
      match checkFile fs file with
      | Throw e => Throw e
      | Ok r => checkAll fs rest (if hasError r then true else acc)
      end
  end.

(** The process ends with code 1 when a violation was found and with an
    uncaught exception when a call threw. *)
Definition cli (fs : FileSystem) (files : list jsstring) : outcome Z :=
  match checkAll fs files false with
  | Throw e => Throw e
  | Ok true => Ok 1%Z
  | Ok false => Ok 0%Z
  end.

End WithRegExp.

(** What the RegExp constructor is known to do. *)
Definition reads_word_names (compileName : jsstring -> option re) : Prop :=
  forall nm, forallb is_word nm = true -> compileName nm = Some (paramNameRe nm).

(** A constructor that accepts the names made of word characters only. *)
Definition wordNamesOnly (nm : jsstring) : option re :=
  if forallb is_word nm then Some (paramNameRe nm) else None.

End Std.

(* ================================================================== *)
(** ** scripts/generate-pr-comments.js: what the variants share *)
(* ================================================================== *)

Module Diff.
Import Re.

Record Range : Type := mkRange {
  start : Z;
  end_ : Z
}.

(** A number or [NaN]. *)
Definition number : Type := option Z.

Definition digit_value (c : char) : Z := Z.of_N (c - 48).

(** The number that the leading decimal digits of [l] spell; [NaN] when
    there is none. *)
Fixpoint leadingDigits (l : jsstring) (seen : bool) (acc : Z) : number :=
  match l with
  | c :: r =>
      if is_digit c then leadingDigits r true (10 * acc + digit_value c)%Z
      else if seen then Some acc else None
  | [] => if seen then Some acc else None
  end.

(** [parseInt(v)] on what the hunk pattern captures: [undefined] gives [NaN],
    a string gives the number its leading decimal digits spell, after
    white space and a sign (a hexadecimal prefix is not modelled: the pattern
    captures decimal digits only). *)
Definition parseInt (v : option jsstring) : number :=
  let s := trimStart (ToString v) in
  let '(neg, body) :=
    match s with
    | 45%N :: r => (true, r)
    | 43%N :: r => (false, r)
    | _ => (false, s)
    end in
  match leadingDigits body false 0%Z with
  | Some n => Some (if neg then (- n)%Z else n)
  | None => None
  end.

(** A number used as a line number; group 1 of the hunk pattern holds
    digits, so that [parseInt] of it is never [NaN]. *)
Definition valueOf (n : number) : Z :=
  match n with
  | Some v => v
  | None => 0%Z
  end.

(** [n || d]: zero and [NaN] are falsy. *)
Definition orElse (n : number) (d : Z) : Z :=
  match n with
  | Some 0%Z | None => d
  | Some v => v
  end.

(** "@@ -\d+(?:,\d+)? \+(\d+)(?:,(\d+))? @@" *)
Definition hunkRe : re :=
  seqs [lit "@@ -"; plus digit; opt (seqs [ch ","; plus digit]); lit " +";
        Grp 1 (plus digit); opt (seqs [ch ","; Grp 2 (plus digit)]); lit " @@"].

(** The state of the loop over the lines of the diff. *)
Record Scan : Type := mkScan {
  currentLine : Z;
  ranges : list Range
}.

Definition scanLine (s : Scan) (line : jsstring) : Scan :=
  match exec hunkRe line with
  | Some hunkMatch =>
      let cur := valueOf (parseInt (m_group 1 hunkMatch)) in
      let count := orElse (parseInt (m_group 2 hunkMatch)) 1 in
      mkScan cur (ranges s ++ [mkRange cur (cur + count - 1)])
  | None =>
      if negb (startsWith line (js "-")) && negb (startsWith line (js "\"))
         && negb (startsWith line (js "+++"))
      then mkScan (currentLine s + 1) (ranges s)
      else s
  end.

(** The ranges of a diff output. *)
Definition rangesOf (diffOutput : jsstring) : list Range :=
  ranges (fold_left scanLine (split_on 10%N diffOutput) (mkScan 0 [])).

(** [execSync('git diff -U0 base...HEAD -- file')]: the output or a throw. *)
Definition Git : Type := jsstring -> option jsstring.

Definition getChangedLineRanges (git : Git) (file : jsstring) : list Range :=
  match git file with
  | Some diffOutput => rangesOf diffOutput
  | None => []
  end.

Definition isLineChanged (lineNum : Z) (changedRanges : list Range) : bool :=
  existsb (fun r => (start r <=? lineNum)%Z && (lineNum <=? end_ r)%Z)
          changedRanges.

Definition isNearChangedLine (lineNum : Z) (changedRanges : list Range) : bool :=
  existsb (fun r => (start r <=? lineNum)%Z && (lineNum <=? end_ r + 5)%Z)
          changedRanges.

Record Comment : Type := mkComment {
  path : jsstring;
  line : Z;
  body : jsstring
}.

(** The emoji of the bodies, in UTF-16. *)
Definition warningSign : jsstring := [9888; 65039]%N.
Definition crossMark : jsstring := [10060]%N.
Definition memo : jsstring := [55357; 56541]%N.
Definition wrench : jsstring := [55357; 56615]%N.
Definition books : jsstring := [55357; 56538]%N.

Definition consoleLogBody : jsstring :=
  warningSign ++ js " **Code Standard Violation**: `console.log()` should not be in production code. Use a logging service instead.".
Definition debuggerBody : jsstring :=
  crossMark ++ js " **Critical**: `debugger` statement must be removed before merge.".
Definition todoBody : jsstring :=
  memo ++ js " **TODO**: Track in issue tracker or resolve before merge.".
Definition fixmeBody : jsstring :=
  wrench ++ js " **FIXME**: This issue needs to be resolved before merge.".
Definition jsDocStandard (msg : jsstring) : jsstring :=
  books ++ js " **JSDoc Standard**: " ++ msg.

(** The four substring detectors, the same in every variant. *)
Definition detectors (file : jsstring) (l : jsstring) (lineNum : Z)
  : Eff Comment unit :=
  when (includes l (js "console.log")) (emit (mkComment file lineNum consoleLogBody)) ;;;
  when (includes l (js "debugger")) (emit (mkComment file lineNum debuggerBody)) ;;;
  when (includes l (js "TODO")) (emit (mkComment file lineNum todoBody)) ;;;
  when (includes l (js "FIXME")) (emit (mkComment file lineNum fixmeBody)).

End Diff.

(* ================================================================== *)
(** ** scripts/generate-pr-comments.js *)
(* ================================================================== *)

Module Pr.
Import Re Diff.

Definition missingJsDocBody : jsstring :=
  books ++ js " **Missing JSDoc**: Public functions need documentation with description, parameters, and return type.".
Definition missingReturnsBody : jsstring :=
  jsDocStandard (js "Missing `@returns` tag in JSDoc.").
Definition missingReturnTypeBody : jsstring :=
  warningSign ++ js " **Code Standard**: Method missing return type annotation.".

(** "=\s*(computed|signal|input|output|viewChild)\s*[<(]" *)
Definition reactiveRe : re :=
  seqs [ch "="; Star space;
        Grp 1 (alts [lit "computed"; lit "signal"; lit "input"; lit "output";
                     lit "viewChild"]);
        Star space; Std.lessOrParen].

Section WithRegExp.
Variable compileName : jsstring -> option re.

(** The callback of [lines.forEach((line, index) => { ... })]. *)
Definition checkLine (file : jsstring) (changedRanges : list Range)
  (lines : list jsstring) (l : jsstring) (index : Z) : Eff Comment unit :=
  let lineNum := (index + 1)%Z in
  if negb (isLineChanged lineNum changedRanges) then ret tt else
  detectors file l lineNum ;;;
  let isAngularReactive := test reactiveRe l in
  when (test Std.methodRegex l && negb isAngularReactive
        && isNearChangedLine lineNum changedRanges)
    (jsDocInfo <- pure_of (Std.getJsDocInfo lines index) ;;
     (if negb (Std.exists_ jsDocInfo) then
        emit (mkComment file lineNum missingJsDocBody)
      else
        when (negb (Std.hasReturnsTag (Std.content jsDocInfo))
              && negb (includes l (js ": void")))
          (emit (mkComment file lineNum missingReturnsBody)) ;;;
        (let actualModifier := Std.getAccessModifier l in
         let accessCheck :=
           Std.checkAccessModifierTag (Std.content jsDocInfo) actualModifier in
         when (negb (Std.valid accessCheck))
           (emit (mkComment file lineNum (jsDocStandard (Std.message accessCheck))))) ;;;
        (paramCheck <- call (Std.checkParamTags compileName
                               (Std.content jsDocInfo) (Std.extractParams l)) ;;
         when (negb (Std.pvalid paramCheck))
           (forEach (fun err => emit (mkComment file lineNum (jsDocStandard err)))
                    (Std.errors paramCheck)))) ;;;
     let actualModifier := Std.getAccessModifier l in
     when (truthy actualModifier && negb (test Std.returnTypeRe l))
       (emit (mkComment file lineNum missingReturnTypeBody))).

(** [try { ... } catch (error) { console.error(...) } return comments;] *)
Definition checkTypeScriptFile (fs : Std.FileSystem) (file : jsstring)
  (changedRanges : list Range) : list Comment :=
  match Std.readFileSync fs file with
  | Throw _ => []
  | Ok text =>
      let lines := split_on 10%N text in
      logged (forEachIdx (checkLine file changedRanges lines) lines 0)
  end.

(** The loop of the main program over the changed TypeScript files. *)
Definition wanted (file : jsstring) : bool :=
  endsWith file (js ".ts") && negb (endsWith file (js ".spec.ts"))
  && negb (endsWith file (js ".stories.ts")).

Fixpoint scanAll (fs : Std.FileSystem) (git : Git) (files : list jsstring)
  (allComments : list Comment) : list Comment :=
  match files with
  | [] => allComments
  | file :: rest =>
      if negb (wanted file) then scanAll fs git rest allComments else
      let ranges := getChangedLineRanges git file in
      if Nat.eqb (length ranges) 0 then scanAll fs git rest allComments else
      scanAll fs git rest (allComments ++ checkTypeScriptFile fs file ranges)
  end.

End WithRegExp.
End Pr.

(* ================================================================== *)
(** ** The variant of generate-pr-comments.js with two passes
       (second file of src/unnamed/part_001) *)
(* ================================================================== *)

Module PrTwoPass.
Import Re Diff.

Definition missingJsDocBody : jsstring :=
  books ++ js " **Missing JSDoc**: Methods require proper JSDoc documentation with description, @param tags, and @returns.".
Definition missingReturnsBody : jsstring :=
  jsDocStandard (js "Missing `@returns` tag describing the return value.").
Definition codeStandard (msg : jsstring) : jsstring :=
  books ++ js " **Code Standard**: " ++ msg.
Definition missingModifierBody : jsstring :=
  codeStandard (js "Method missing access modifier (public/private/protected).").
Definition missingReturnTypeBody : jsstring :=
  codeStandard (js "Method missing explicit return type annotation.").

(** "^[ \t]*(public|private|protected)?[ \t]*(readonly)?[ \t]*[a-zA-Z0-9_]+\s*=\s*"
    followed by the factory call. *)
Definition propertyHead (readonly : bool) : list re :=
  [Bol; Star blank; opt (Grp 1 Std.visibilityRe); Star blank]
  ++ (if readonly then [opt (Grp 2 (lit "readonly")); Star blank] else [])
  ++ [plus Std.alnum_; Star space; ch "="; Star space].

Definition computedRegex : re :=
  seqs (propertyHead true ++ [lit "computed"; Star space; Std.lessOrParen]).
Definition signalRegex : re :=
  seqs (propertyHead true ++ [lit "signal"; Star space; Std.lessOrParen]).
Definition inputRegex : re :=
  seqs (propertyHead false
        ++ [lit "input"; opt (Grp 2 (lit ".required")); Star space;
            Std.lessOrParen]).
Definition outputRegex : re :=
  seqs (propertyHead false ++ [lit "output"; Star space; Std.lessOrParen]).
Definition viewChildRegex : re :=
  seqs (propertyHead true
        ++ [lit "viewChild"; opt (Grp 3 (lit ".required")); Star space;
            Std.lessOrParen]).

Section WithRegExp.
Variable compileName : jsstring -> option re.

(** The callback of the first [lines.forEach]. *)
Definition firstPass (file : jsstring) (changedRanges : list Range)
  (l : jsstring) (index : Z) : Eff Comment unit :=
  let lineNum := (index + 1)%Z in
  if negb (isLineChanged lineNum changedRanges) then ret tt else
  detectors file l lineNum.

(** The block for methods of the second [lines.forEach]. *)
Definition checkMethod (file : jsstring) (changedRanges : list Range)
  (lines : list jsstring) (l : jsstring) (index : Z) : Eff Comment unit :=
  let lineNum := (index + 1)%Z in
  when (test Std.methodRegex l && isNearChangedLine lineNum changedRanges)
    (jsDocInfo <- pure_of (Std.getJsDocInfo lines index) ;;
     let actualModifier := Std.getAccessModifier l in
     let hasReturnType := test Std.returnTypeRe l in
     (if negb (Std.exists_ jsDocInfo) then
        emit (mkComment file lineNum missingJsDocBody)
      else
        when (negb (Std.hasReturnsTag (Std.content jsDocInfo)))
          (emit (mkComment file lineNum missingReturnsBody)) ;;;
        (let accessCheck :=
           Std.checkAccessModifierTag (Std.content jsDocInfo) actualModifier in
         when (negb (Std.valid accessCheck))
           (emit (mkComment file lineNum (jsDocStandard (Std.message accessCheck))))) ;;;
        (paramCheck <- call (Std.checkParamTags compileName
                               (Std.content jsDocInfo) (Std.extractParams l)) ;;
         when (negb (Std.pvalid paramCheck))
           (forEach (fun err => emit (mkComment file lineNum (jsDocStandard err)))
                    (Std.errors paramCheck)))) ;;;
     when (negb (truthy actualModifier))
       (emit (mkComment file lineNum missingModifierBody)) ;;;
     when (negb hasReturnType)
       (emit (mkComment file lineNum missingReturnTypeBody))).

(** The blocks for the reactive properties: copies of one another up to the
    pattern, the names in the messages and, for the computed property, the
    test of an empty description. *)
Definition checkProperty (pattern : re) (requires should missing : string)
  (checksEmpty : bool) (file : jsstring) (changedRanges : list Range)
  (lines : list jsstring) (l : jsstring) (index : Z) : Eff Comment unit :=
  let lineNum := (index + 1)%Z in
  when (test pattern l && isNearChangedLine lineNum changedRanges)
    (jsDocInfo <- pure_of (Std.getJsDocInfo lines index) ;;
     let hasAccess := test Std.visibilityRe l in
     (if negb (Std.exists_ jsDocInfo) then
        emit (mkComment file lineNum
                (books ++ js " **Missing JSDoc**: " ++ js requires
                 ++ js " requires single-line JSDoc (/** description */)."))
      else if negb (Std.isSingleLine jsDocInfo) then
        emit (mkComment file lineNum
                (jsDocStandard (js should
                   ++ js " should have single-line JSDoc, not multi-line.")))
      else
        when checksEmpty
          (let c := trim (replaceAll Std.delimiterRe [] (Std.content jsDocInfo)) in
           when (isEmpty c)
             (emit (mkComment file lineNum
                      (jsDocStandard (js "JSDoc is empty - add a description.")))))) ;;;
     when (negb hasAccess)
       (emit (mkComment file lineNum
                (codeStandard (js missing
                   ++ js " missing access modifier (public/private/protected)."))))).

(** The callback of the second [lines.forEach]. *)
Definition secondPass (file : jsstring) (changedRanges : list Range)
  (lines : list jsstring) (l : jsstring) (index : Z) : Eff Comment unit :=
  checkMethod file changedRanges lines l index ;;;
  checkProperty computedRegex "Computed property" "Computed property"
    "Computed property" true file changedRanges lines l index ;;;
  checkProperty signalRegex "Signal" "Signal" "Signal" false
    file changedRanges lines l index ;;;
  checkProperty inputRegex "Input property" "Input" "Input property" false
    file changedRanges lines l index ;;;
  checkProperty outputRegex "Output property" "Output" "Output property" false
    file changedRanges lines l index ;;;
  checkProperty viewChildRegex "ViewChild property" "ViewChild"
    "ViewChild property" false file changedRanges lines l index.

Definition checkTypeScriptFile (fs : Std.FileSystem) (file : jsstring)
  (changedRanges : list Range) : list Comment :=
  match Std.readFileSync fs file with
  | Throw _ => []
  | Ok text =>
      let lines := split_on 10%N text in
      logged (forEachIdx (firstPass file changedRanges) lines 0 ;;;
              forEachIdx (secondPass file changedRanges lines) lines 0)
  end.

End WithRegExp.
End PrTwoPass.

(* ================================================================== *)
(** ** scripts/post-pr-review.js *)
(* ================================================================== *)

Module Post.
Import Diff.

(** An inline comment of a review: the violation and the side of the diff. *)
Record ReviewComment : Type := mkReviewComment {
  rc_path : jsstring;
  rc_line : Z;
  rc_side : jsstring;
  rc_body : jsstring
}.

Record Context : Type := mkContext {
  owner : jsstring;
  repo : jsstring;
  number : Z
}.

Record ReviewRequest : Type := mkReviewRequest {
  rr_owner : jsstring;
  rr_repo : jsstring;
  rr_pull_number : Z;
  rr_body : jsstring;
  rr_event : jsstring;
  rr_comments : list ReviewComment
}.

Record IssueComment : Type := mkIssueComment {
  ic_owner : jsstring;
  ic_repo : jsstring;
  ic_issue_number : Z;
  ic_body : jsstring
}.

(** The two calls of the REST client; each returns or throws. *)
Record GitHub : Type := mkGitHub {
  createReview : ReviewRequest -> outcome unit;
  createComment : IssueComment -> outcome unit
}.

(** A request sent to the service. *)
Inductive Call : Type :=
| CreateReview (r : ReviewRequest)
| CreateComment (c : IssueComment).

Definition magnifier : jsstring := [55357; 56589]%N.

Definition reviewBody (n : nat) : jsstring :=
  js "## " ++ magnifier ++ js " Code Standards Review" ++ nl ++ nl
  ++ js "Found " ++ string_of_Z (Z.of_nat n)
  ++ js " violation(s) that need to be resolved. See inline comments below.".

Definition summaryBody (n : nat) : jsstring :=
  js "## " ++ magnifier ++ js " Code Standards Violations" ++ nl ++ nl
  ++ js "Found " ++ string_of_Z (Z.of_nat n)
  ++ js " violations. Check logs for details.".

(** The callback of [comments.map]. *)
Definition toReviewComment (c : Comment) : ReviewComment :=
  mkReviewComment (path c) (line c) (js "RIGHT") (body c).

(** [reviewComments.slice(0, 30)] *)
Definition firstThirty (l : list ReviewComment) : list ReviewComment :=
  firstn 30 l.

(** [stored] is what reading violations.json and parsing the array in it
    gives: the parsed comments, or a throw, which leaves [comments] empty. *)
Definition postReview (github : GitHub) (context : Context)
  (stored : outcome (list Comment)) : Eff Call unit :=
  let comments := match stored with Ok cs => cs | Throw _ => [] end in
  if Nat.ltb 0 (length comments) then
    let reviewComments := map toReviewComment comments in
    let review :=
      mkReviewRequest (owner context) (repo context) (number context)
        (reviewBody (length comments)) (js "REQUEST_CHANGES")
        (firstThirty reviewComments) in
    match createReview github review with
    | Ok _ => emit (CreateReview review)
    | Throw _ =>
        let summary :=
          mkIssueComment (owner context) (repo context) (number context)
            (summaryBody (length comments)) in
        emit (CreateReview review) ;;;
        (([CreateComment summary], createComment github summary) : Eff Call unit)
    end
  else ret tt.

End Post.

(* ================================================================== *)
(** ** scripts/post-pr-review.js: reading violations.json *)
(* ================================================================== *)

Module PostRead.
Import Re Diff Post.

(** [[\s\S]]: any code unit. *)
Definition anyChar : re := Chr (fun c => is_space c || negb (is_space c)).

(** "\[[\s\S]*\]" *)
Definition arrayRe : re := seqs [ch "["; Star anyChar; ch "]"].

(** The [try] block at the head of postReview: the file is read and the
    text that the pattern finds in it is handed to [JSON.parse]; [parse]
    is what JSON.parse makes of a text, the list of the comments or a throw.
    When the pattern finds nothing, [comments] stays empty. *)
Definition readViolations (fs : Std.FileSystem)
  (parse : jsstring -> outcome (list Comment)) : outcome (list Comment) :=
  match Std.readFileSync fs (js "violations.json") with
  | Throw e => Throw e
  | Ok output =>
      match exec arrayRe output with
      | Some jsonMatch => parse (m_text jsonMatch)
      | None => Ok []
      end
  end.

(** postReview, from the file to the requests. *)
Definition postReviewFrom (github : GitHub) (context : Context)
  (fs : Std.FileSystem) (parse : jsstring -> outcome (list Comment))
  : Eff Call unit :=
  postReview github context (readViolations fs parse).

End PostRead.

(* ================================================================== *)
(** ** scripts/check-code-standards.js: the files to check *)
(* ================================================================== *)

Module Cli.
Import Re.

(** What [fs.readdirSync(dir, { withFileTypes: true })] shows of a
    directory: the names of its entries and what each one is.  A directory
    holds its own entries; an entry that is neither a file nor a directory (a
    link, a socket) is [Other]. *)
#[warnings="-register-all"]
Inductive Node : Type :=
| File
| Dir (entries : list (jsstring * Node))
| Other.

Definition SKIP_DIRS : list jsstring :=
  [js "node_modules"; js "dist"; js "coverage"; js "build"; js ".git";
   js ".angular"; js "out-tsc"; js ".cache"].

(** [SKIP_DIRS.has(name)] *)
Definition skipped (name : jsstring) : bool :=
  existsb (jsstring_eqb name) SKIP_DIRS.

Section WithPath.

(** [path.join(dir, name)] *)
Variable join : jsstring -> jsstring -> jsstring.

(** The loop of collectFiles over the entries of the directory [dir], whose
    node is [n]; the call for a directory among them runs the same loop on
    that directory. *)
Fixpoint collectIn (dir : jsstring) (n : Node) : list jsstring :=
  match n with
  | Dir entries =>
      flat_map
        (fun entry =>
           let full := join dir (fst entry) in
           match snd entry with
           | Dir _ =>
               if skipped (fst entry) then []
               else collectIn full (snd entry)
           | File => if endsWith (fst entry) (js ".ts") then [full] else []
           | Other => []
           end)
        entries
  | File | Other => []
  end.

(** [collectFiles(dir)]: [root] is what is at the path [dir], if anything.
    A path that does not exist gives no file; [readdirSync] throws on a path
    that is not a directory. *)
Definition collectFiles (root : option Node) (dir : jsstring)
  : outcome (list jsstring) :=
  match root with
  | None => Ok []
  | Some (Dir entries) => Ok (collectIn dir (Dir entries))
  | Some _ => Throw IOError
  end.

End WithPath.

(** [s.split(r)] for a pattern [r] without groups, as the split of a regular
    expression goes: [piece] is the text since the end of the previous
    separator (in reverse), the position is [(before, after)].  The pattern
    is tried at the position; a match that is empty and ends where the piece
    starts is passed over, any other match closes the piece and the search
    goes on where the match ends.  The text left at the end is the last
    piece. *)
Fixpoint split_from (r : re) (fuel : nat) (piece before after : jsstring)
  : list jsstring :=
  match fuel with
  | O => []
  | S f =>
      match after with
      | [] => [rev piece]
      | c :: t =>
          match run r (mk_st before after []) with
          | m :: _ =>
              if isEmpty piece && Nat.eqb (length (seen m)) (length before)
              then split_from r f (c :: piece) (c :: before) t
              else rev piece :: split_from r f [] (seen m) (todo m)
          | [] => split_from r f (c :: piece) (c :: before) t
          end
      end
  end.

Definition split_re (r : re) (s : jsstring) : list jsstring :=
  match s with
  | [] => match run r (mk_st [] [] []) with [] => [[]] | _ :: _ => [] end
  | _ :: _ => split_from r (2 * length s + 2) [] [] s
  end.

(** /\r?\n/ *)
Definition newlineRe : re := seqs [opt (Chr (char_eqb 13)); Chr (char_eqb 10)].
(** /->\s*(.+)$/ *)
Definition renameRe : re :=
  seqs [lit "->"; Star space; Grp 1 (plus dot); Eol false].
(** /\s+/ *)
Definition spacesRe : re := plus space.

(** The callback of [lines.map] in getChangedFiles: the path of a line of
    [git status --porcelain], [None] for [null] and [undefined]. *)
Definition statusPath (l : jsstring) : option jsstring :=
  let trimmed := trim l in
  if startsWith trimmed (js "R") then
    match exec renameRe trimmed with
    | Some m => m_group 1 m
    | None => None
    end
  else
    let parts := split_re spacesRe trimmed in
    let p := nth_error parts (length parts - 1) in
    if truthy p then p else None.

(** [.filter(Boolean)] on texts *)
Definition nonEmpty (l : list jsstring) : list jsstring :=
  filter (fun s => negb (isEmpty s)) l.

(** [.filter(Boolean)] on texts and [null] *)
Definition present (l : list (option jsstring)) : list jsstring :=
  flat_map (fun v => if truthy v then [ToString v] else []) l.

Definition onlyTs (l : list jsstring) : list jsstring :=
  filter (fun p => endsWith p (js ".ts")) l.

Section WithGit.

(** [cp.execSync(command, ...)]: the output of the command, or an exception. *)
Variable execSync : jsstring -> outcome jsstring.

Definition isGitRepo : bool :=
  match execSync (js "git rev-parse --is-inside-work-tree") with
  | Ok _ => true
  | Throw _ => false
  end.

(** [getChangedFiles({ staged, ref })] *)
Definition getChangedFiles (staged : bool) (ref : option jsstring)
  : list jsstring :=
  if negb isGitRepo then [] else
  let named (output : outcome jsstring) :=
    match output with
    | Throw _ => []
    | Ok output => onlyTs (nonEmpty (split_re newlineRe output))
    end in
  if staged then
    named (execSync
             (js "git diff --name-only --cached --diff-filter=ACMRTUXB"))
  else if truthy ref then
    named (execSync (js "git diff --name-only --diff-filter=ACMRTUXB "
                     ++ ToString ref ++ js "...HEAD"))
  else
    match execSync (js "git status --porcelain") with
    | Throw _ => []
    | Ok output =>
        let lines := nonEmpty (split_re newlineRe output) in
        let paths := present (map statusPath lines) in
        onlyTs paths
    end.

End WithGit.

End Cli.

(* ================================================================== *)
(** * The vocabulary of the statements *)
(* ================================================================== *)

(** ** The relation the matcher computes *)

Module ReSpec.
Import Re.

(** Rounds of a star: each consumes at least one code unit. *)
Inductive star (R : st -> st -> Prop) : st -> st -> Prop :=
| star_done s : star R s s
| star_more s m s' :
    R s m -> length (todo m) < length (todo s) -> star R m s' -> star R s s'.

(** [matches r s s']: the pattern [r] can take the match from [s] to [s']. *)
Fixpoint matches (r : re) (s s' : st) : Prop :=
  match r with
  | Eps => s' = s
  | Chr p => exists c t, todo s = c :: t /\ p c = true /\ s' = advance c t s
  | Seq a b => exists m, matches a s m /\ matches b m s'
  | Alt a b => matches a s s' \/ matches b s s'
  | Star a => star (matches a) s s'
  | Grp n a => exists m, matches a s m /\ s' = set_cap n s m
  | Bol => seen s = [] /\ s' = s
  | Eol m => at_end m s = true /\ s' = s
  | WordB => at_word_boundary s = true /\ s' = s
  end.

(** The state of a search at the position that splits the subject in [pre]
    and [post]. *)
Definition at_pos (pre post : jsstring) : st := mk_st (rev pre) post [].

(** [moved s w s']: from [s] to [s'] the match went over the text [w] and
    set no capture. *)
Definition moved (s : st) (w : jsstring) (s' : st) : Prop :=
  todo s = w ++ todo s' /\ seen s' = rev w ++ seen s /\ caps s' = caps s.

(** [leads r s s']: the first of the matches of [r] from [s] ends in [s']. *)
Definition leads (r : re) (s s' : st) : Prop := exists tl, run r s = s' :: tl.

(** A text does not go on with a code unit of the class [p]. *)
Definition stops (p : char -> bool) (t : jsstring) : Prop :=
  match t with
  | [] => True
  | c :: _ => p c = false
  end.

End ReSpec.

(** ** The standards of scripts/check-code-standards.js *)

Module StdSpec.
Import Re ReSpec Std.

(** No index of the log is negative. *)
Definition nonneg (l : list Z) : Prop := Forall (fun i => 0 <= i)%Z l.

(** The result of getJsDocInfo from where the three loops stop. *)
Definition classify (lines : list jsstring) (j : Z) : outcome JsDocInfo :=
  if (j <? 0)%Z then Ok notFound else
  let line := get lines j in
  if test_of singleLineRe line then Ok (mkInfo true true j j (ToString line))
  else if test_of blockEndRe line || test_of blockMiddleRe line then
    result (walkBack (rounds_down j) lines j j)
  else if test_of jsDocStartRe line then
    match result (scanForward (Z.to_nat (len lines - j)) lines j) with
    | Ok e => Ok (mkInfo true false j e (join nl (slice lines j (e + 1))))
    | Throw x => Throw x
    end
  else Ok notFound.

(** The three visibility keywords. *)
Definition visibilities : list jsstring :=
  [js "public"; js "private"; js "protected"].

(** The block carries the tag of the keyword [m]: "@m\b" matches in it. *)
Definition carries (content m : jsstring) : bool :=
  test (seqs [ch "@"; lit_of m; WordB]) content.

(** The number of the three visibility tags that the block carries. *)
Definition tagCount (content : jsstring) : nat :=
  count_true (map (carries content) visibilities).

(** The message of a tag that is not that of the keyword [m]. *)
Definition mismatchMsg (m : jsstring) : jsstring :=
  js "JSDoc should have @" ++ m ++ js " (method is " ++ m ++ js ")".

(** The text of a block without its delimiters. *)
Definition stripDelimiters (content : jsstring) : jsstring :=
  replaceAll delimiterRe [] content.

(** The parentheses of the parameter list. *)
Definition lparen : char := 40%N.
Definition rparen : char := 41%N.

(** The depth after the code unit [c]. *)
Definition depthAfter (d : Z) (c : char) : Z :=
  if opens c then (d + 1)%Z else if closes c then (d - 1)%Z else d.

(** The segments of a parameter list between the commas at depth zero, from
    left to right, the depth at the start being [d]. *)
Fixpoint segmentsFrom (d : Z) (s : jsstring) : list jsstring :=
  match s with
  | [] => [[]]
  | c :: t =>
      if char_eqb c comma && (d =? 0)%Z then [] :: segmentsFrom d t
      else match segmentsFrom (depthAfter d c) t with
           | h :: r => (c :: h) :: r
           | [] => [[c]]
           end
  end.

(** The segments of a parameter list. *)
Definition segments (s : jsstring) : list jsstring := segmentsFrom 0 s.

(** A segment with more than white space; a parameter with a name. *)
Definition nonBlank (s : jsstring) : bool := negb (isEmpty (trim s)).
Definition named (p : Param) : bool := negb (isEmpty (name p)).

(** The piece [cur] read so far goes before the first segment to come. *)
Definition attach (cur : jsstring) (segs : list jsstring) : list jsstring :=
  match segs with
  | h :: r => (cur ++ h) :: r
  | [] => [cur]
  end.

(** The patterns of the form "^\s*TEXT..." *)
Definition anchored (p : jsstring) (k : re) : re :=
  Seq Bol (Seq (Star space) (Seq (lit_of p) k)).

(** The line begins, after white space, with the text. *)
Definition beginsWith (text : string) (l : jsstring) : bool :=
  startsWith (trimStart l) (js text).

(** The lines that the first two loops of getJsDocInfo pass over. *)
Definition isBlank (l : jsstring) : bool := isEmpty (trim l).
Definition isDecorator (l : jsstring) : bool := test decoratorRe l.

(** A doc block that stands two lines above the declaration, the line in
    between a continuation that begins with a star. *)
Definition strayStarFile : list jsstring :=
  [js "/** Width of the box. */";
   js "const area = width";
   js "    * height;";
   js "function render(): void {"].

(** A plain comment above a decorated method. *)
Definition plainCommentTop : list jsstring :=
  [js "  /* a plain comment"; js "   * on two lines"].
Definition plainCommentBetween : list jsstring :=
  [js ""; js "  @HostListener('click')"; js ""].

(** [s] begins with [p], the case of the letters apart. *)
Definition startsWith_ci (s p : jsstring) : bool :=
  startsWith (map canon s) (map canon p).

(** The positions of [s], counted from [i], where [p] occurs. *)
Fixpoint positions_ci (p s : jsstring) (i : nat) : list nat :=
  (if startsWith_ci s p then [i] else [])
  ++ match s with
     | [] => []
     | _ :: t => positions_ci p t (S i)
     end.

(** A name made of word characters. *)
Definition identifier (s : jsstring) : Prop :=
  s <> [] /\ Forall (fun c => is_word c = true) s.

(** The text of a tag: "@param", white space, a type in braces, white space
    and the name. *)
Definition paramTag (ws1 ty ws2 m : jsstring) : jsstring :=
  js "@param" ++ ws1 ++ 123%N :: ty ++ 125%N :: ws2 ++ m.

(** What is left of the subject after "@param", white space, the type in
    braces if it is taken, and white space: the name [m] and what follows
    it, or the brace. *)
Definition afterType (m after t : jsstring) : Prop :=
  t = m ++ after \/ exists r, t = 123%N :: r.

(** The class that ends the pattern of a name: white space or a hyphen. *)
Definition separator (c : char) : bool := is_space c || char_eqb c 45%N.


(** [skipWhile p ls]: [ls] without its leading lines that satisfy [p]. *)
Fixpoint skipWhile (p : jsstring -> bool) (ls : list jsstring)
  : list jsstring :=
  match ls with
  | [] => []
  | l :: t => if p l then skipWhile p t else ls
  end.

(** The lines above the line [index], from the nearest one up. *)
Definition above (lines : list jsstring) (index : Z) : list jsstring :=
  rev (firstn (Z.to_nat index) lines).

(** What the three loops of getJsDocInfo leave of the lines above: they go
    over a run of blank lines, a run of decorators and a run of blank
    lines. *)
Definition afterLoops (ls : list jsstring) : list jsstring :=
  skipWhile isBlank (skipWhile isDecorator (skipWhile isBlank ls)).

(** What may follow "@return" in a tag: nothing, a white space character, or
    an s with nothing or a white space character after it. *)
Definition endsReturnTag (rest : jsstring) : bool :=
  match rest with
  | [] => true
  | c :: r =>
      is_space c
      || (char_eqb c 115%N
          && match r with
             | [] => true
             | d :: _ => is_space d
             end)
  end.




End StdSpec.

(** ** The headers of a diff *)

Module DiffSpec.
Import Re ReSpec Diff.








End DiffSpec.

(** ** The scenarios of the scan of a pull request *)

Module PrSpec.
Import Re Diff.

(** The scenario of the specification: twenty lines, three of them added
    from line 5 on, a debug statement on line 6 and a method with no
    documentation on line 10. *)
Definition scenarioLines : list jsstring :=
  [js "export class Cart {";
   js "  private items = [];";
   js "";
   js "  constructor() {}";
   js "";
   js "console.log(x)";
   js "";
   js "";
   js "";
   js "private computeTotal(amount: number): number {";
   js "    return amount;";
   js "  }";
   js "";
   js "  size() {";
   js "    return this.items.length;";
   js "  }";
   js "";
   js "  clear() {";
   js "  }";
   js "}"].

(** The file of the scenario, and a file system that holds it. *)
Definition scenarioFile : jsstring := js "src/cart.ts".

Definition scenarioFs : Std.FileSystem :=
  fun file => if jsstring_eqb file scenarioFile
              then Some (join nl scenarioLines) else None.

(** The diff of the scenario, as git prints it with no context. *)
Definition scenarioDiff : jsstring :=
  js "diff --git a/src/cart.ts b/src/cart.ts" ++ nl
  ++ js "--- a/src/cart.ts" ++ nl
  ++ js "+++ b/src/cart.ts" ++ nl
  ++ js "@@ -5,0 +5,3 @@" ++ nl
  ++ js "+" ++ nl
  ++ js "+console.log(x)" ++ nl
  ++ js "+".

(** What a file adds to the comments of the run. *)
Definition contribution (compileName : jsstring -> option re)
  (fs : Std.FileSystem) (git : Git) (file : jsstring) : list Comment :=
  if Pr.wanted file then
    Pr.checkTypeScriptFile compileName fs file (getChangedLineRanges git file)
  else [].

(** A method with no documentation. *)
Definition oneBadMethod : jsstring := js "total(): number {".

(** A file system that holds src/cart.ts and no other file. *)
Definition missingFirstFs : Std.FileSystem :=
  fun file => if jsstring_eqb file (js "src/cart.ts")
              then Some oneBadMethod else None.

End PrSpec.

(** ** The violations of a file *)

Module CheckSpec.
Import Re ReSpec Std StdSpec.

(** The lines that checkFile looks at: the declarations of a method or of a
    reactive property. *)
Definition isDeclaration (l : jsstring) : bool :=
  test methodRegex l || test computedRegex l || test signalRegex l
  || test inputRegex l || test outputRegex l || test viewChildRegex l.

(** The names of the reactive properties in the messages. *)
Definition reactiveNames : list jsstring :=
  [js "computed property"; js "signal"; js "input"; js "output";
   js "viewChild"].

(** A message that is neither that of a missing return type nor that of a
    missing access modifier on a reactive property. *)
Definition reachable (msg : jsstring) : Prop :=
  msg <> js "Missing return type" /\
  forall shown, In shown reactiveNames ->
                msg <> js "Missing access modifier on " ++ shown.

(** The file has a violation. *)
Definition failsCheck (compileName : jsstring -> option re) (fs : FileSystem)
  (file : jsstring) : bool :=
  match checkFile compileName fs file with
  | Ok r => hasError r
  | Throw _ => false
  end.

End CheckSpec.

(** ** The files of a run *)

Module CliSpec.
Import Re ReSpec Cli.

(** [walk n dirs d]: from the directory [n], the directories named [dirs],
    each an entry of the one before, lead to the node [d]. *)
Inductive walk : Node -> list jsstring -> Node -> Prop :=
| walk_here n : walk n [] n
| walk_down entries name sub dirs d :
    In (name, Dir sub) entries -> walk (Dir sub) dirs d ->
    walk (Dir entries) (name :: dirs) d.

(** The path of an entry: the names joined to the directory one by one. *)
Definition pathOf (join : jsstring -> jsstring -> jsstring) (dir : jsstring)
  (names : list jsstring) : jsstring :=
  fold_left join names dir.

(** Induction on a tree of directories. *)
Fixpoint Node_tree_ind (P : Node -> Prop) (HF : P File) (HO : P Other)
  (HD : forall entries, Forall (fun e => P (snd e)) entries -> P (Dir entries))
  (n : Node) : P n :=
  match n with
  | File => HF
  | Other => HO
  | Dir entries =>
      HD entries
        ((fix go (es : list (jsstring * Node)) : Forall (fun e => P (snd e)) es :=
            match es with
            | [] => Forall_nil _
            | e :: r => Forall_cons e (Node_tree_ind P HF HO HD (snd e)) (go r)
            end) entries)
  end.

(** The files found in a directory. *)
Definition found (join : jsstring -> jsstring -> jsstring) (dir : jsstring)
  (n : Node) (p : jsstring) : Prop :=
  exists dirs entries last,
    walk n dirs (Dir entries)
    /\ Forall (fun d => skipped d = false) dirs
    /\ In (last, File) entries
    /\ endsWith last (js ".ts") = true
    /\ p = pathOf join dir (dirs ++ [last]).

(** The output of a command: the lines, each closed by a line feed, with a
    carriage return before it where [snd] says so. *)
Definition printed (ls : list (jsstring * bool)) : jsstring :=
  concat (map (fun l : jsstring * bool =>
                 fst l ++ (if snd l then [13%N; 10%N] else [10%N])) ls).

(** A line without a line feed or a carriage return. *)
Definition oneLine (l : jsstring) : Prop := ~ In 10%N l /\ ~ In 13%N l.

(** [reports l p]: the line [l] of [git status --porcelain] names the path
    [p]: after a status code that does not begin with "R", or as the new
    path of a rename. *)
Inductive reports : jsstring -> jsstring -> Prop :=
| reports_status (lead cw ws path : jsstring) (c : char) :
    Forall (fun x => is_space x = true) lead ->
    Forall (fun x => is_space x = false) (c :: cw) ->
    c <> 82%N ->
    ws <> [] -> Forall (fun x => is_space x = true) ws ->
    path <> [] -> Forall (fun x => is_space x = false) path ->
    reports (lead ++ (c :: cw) ++ ws ++ path) path
| reports_rename (lead old ws new : jsstring) :
    Forall (fun x => is_space x = true) lead ->
    includes (js "R" ++ old) (js "->") = false ->
    Forall (fun x => is_space x = true) ws ->
    new <> [] ->
    Forall (fun x => is_line_terminator x = false) new ->
    stops is_space new -> stops is_space (rev new) ->
    reports (lead ++ js "R" ++ old ++ js "->" ++ ws ++ new) new.

(** A working tree with a deleted file, a renamed one and a new file that
    is no TypeScript. *)
Definition statusOfTree (command : jsstring) : outcome jsstring :=
  if jsstring_eqb command (js "git status --porcelain")
  then Ok (printed [(js " D src/old.service.ts", false);
                    (js "R  src/a.ts -> src/b.ts", false);
                    (js "?? README.md", false)])
  else Ok [].

(** The branch "main" with two files changed since. *)
Definition diffOfBranch (command : jsstring) : outcome jsstring :=
  if jsstring_eqb command
       (js "git diff --name-only --diff-filter=ACMRTUXB main...HEAD")
  then Ok (printed [(js "src/app.component.ts", true);
                    (js "package.json", true)])
  else Ok [].

End CliSpec.

(** ** The scenarios of the posting step *)

Module PostSpec.
Import Diff Post.

(** Forty violations and a service that refuses the review. *)
Definition refusing : GitHub :=
  mkGitHub (fun _ => Throw IOError) (fun _ => Ok tt).

(** The pull request of the run. *)
Definition here : Context := mkContext (js "acme") (js "shop") 7.

(** Forty violations, on the lines 1 to 40. *)
Definition forty : list Comment :=
  map (fun k => mkComment (js "src/cart.ts") (Z.of_nat k) consoleLogBody)
      (seq 1 40).

End PostSpec.

(* ================================================================== *)
(** * Properties *)
(* ================================================================== *)

Unset Implicit Arguments.

(** ** The matcher and the relation it computes *)

Module ReFacts.
Import Re ReSpec.

Lemma star_loop_sound (R : st -> st -> Prop) (step : st -> list st) :
  (forall x y, In y (step x) -> R x y) ->
  forall fuel s s', In s' (star_loop step fuel s) -> star R s s'.
Proof.
  intros Hstep. induction fuel as [| f IH]; intros s s' Hin; simpl in Hin.
  - destruct Hin as [<- | []]. constructor.
  - apply in_app_or in Hin. destruct Hin as [Hin | [<- | []]]; [| constructor].
    apply in_flat_map in Hin. destruct Hin as [m [Hm Hin]].
    destruct (Nat.ltb_spec (length (todo m)) (length (todo s))); [| destruct Hin].
    eapply star_more; eauto.
Qed.

Lemma star_loop_complete (R : st -> st -> Prop) (step : st -> list st) :
  (forall x y, R x y -> In y (step x)) ->
  forall s s', star R s s' ->
  forall fuel, length (todo s) <= fuel -> In s' (star_loop step fuel s).
Proof.
  intros Hstep s s' H. induction H as [s | s m s' HR Hlt Hst IH]; intros fuel Hf.
  - destruct fuel; simpl; [now left |]. apply in_or_app. right. now left.
  - destruct fuel as [| f]; [lia |]. simpl. apply in_or_app. left.
    apply in_flat_map. exists m. split; [auto |].
    destruct (Nat.ltb_spec (length (todo m)) (length (todo s))); [| lia].
    apply IH. lia.
Qed.

(** The matcher returns the matches of the relation, and all of them. *)
Theorem run_sound (r : re) : forall s s', In s' (run r s) -> matches r s s'.
Proof.
  induction r as [| p | a IHa b IHb | a IHa b IHb | a IHa | n a IHa | | m |];
    intros s s' Hin; simpl in *.
  - destruct Hin as [<- | []]. reflexivity.
  - destruct (todo s) as [| c t] eqn:E; [destruct Hin |].
    destruct (p c) eqn:Ep; [| destruct Hin].
    destruct Hin as [<- | []]. eauto.
  - apply in_flat_map in Hin. destruct Hin as [m [H1 H2]]. eauto.
  - apply in_app_or in Hin. destruct Hin; [left | right]; auto.
  - eapply star_loop_sound; eauto.
  - apply in_map_iff in Hin. destruct Hin as [m [<- H]]. eauto.
  - destruct (seen s) eqn:E; [| destruct Hin]. destruct Hin as [<- | []]. auto.
  - destruct (at_end m s) eqn:E; [| destruct Hin]. destruct Hin as [<- | []]. auto.
  - destruct (at_word_boundary s) eqn:E; [| destruct Hin].
    destruct Hin as [<- | []]. auto.
Qed.

Theorem run_complete (r : re) : forall s s', matches r s s' -> In s' (run r s).
Proof.
  induction r as [| p | a IHa b IHb | a IHa b IHb | a IHa | n a IHa | | m |];
    intros s s' H; simpl in *.
  - subst. now left.
  - destruct H as [c [t [E [Ep ->]]]]. rewrite E, Ep. now left.
  - destruct H as [m [H1 H2]]. apply in_flat_map. eauto.
  - apply in_or_app. destruct H; [left | right]; auto.
  - eapply star_loop_complete; eauto.
  - destruct H as [m [H ->]]. apply in_map. auto.
  - destruct H as [E ->]. rewrite E. now left.
  - destruct H as [E ->]. rewrite E. now left.
  - destruct H as [E ->]. rewrite E. now left.
Qed.

Lemma run_nil (r : re) (s : st) :
  (forall s', ~ matches r s s') -> run r s = [].
Proof.
  intros H. destruct (run r s) as [| x l] eqn:E; [reflexivity |].
  exfalso. apply (H x). apply run_sound. rewrite E. now left.
Qed.

(** *** Searching *)

Lemma exec_from_none (r : re) (after before : jsstring) :
  exec_from r before after = None <->
  forall pre post, after = pre ++ post ->
                   run r (mk_st (rev pre ++ before) post []) = [].
Proof.
  revert before. induction after as [| c t IH]; intros before; simpl.
  - destruct (run r (mk_st before [] [])) eqn:E; split; intros H;
      try discriminate; try reflexivity.
    + intros pre post Hp. symmetry in Hp. apply app_eq_nil in Hp.
      destruct Hp as [-> ->]. exact E.
    + specialize (H [] [] eq_refl). simpl in H. congruence.
  - destruct (run r (mk_st before (c :: t) [])) eqn:E; split; intros H;
      try discriminate.
    + intros [| x pre] post Hp; simpl in *.
      * subst. exact E.
      * injection Hp as -> ->. rewrite <- app_assoc. simpl.
        apply (proj1 (IH (x :: before)) H). reflexivity.
    + apply IH. intros pre post Hp.
      specialize (H (c :: pre) post). simpl in H. rewrite <- app_assoc in H.
      apply H. now subst.
    + specialize (H [] (c :: t) eq_refl). simpl in H. congruence.
Qed.

Lemma exec_from_some (r : re) (after before : jsstring) (m : mtch) :
  exec_from r before after = Some m ->
  exists pre post tl,
    after = pre ++ post /\
    m_start m = mk_st (rev pre ++ before) post [] /\
    run r (m_start m) = m_end m :: tl /\
    (forall pre' post', after = pre' ++ post' -> length pre' < length pre ->
                        run r (mk_st (rev pre' ++ before) post' []) = []).
Proof.
  revert before. induction after as [| c t IH]; intros before; simpl.
  - destruct (run r (mk_st before [] [])) as [| x l] eqn:E; [discriminate |].
    intros [= <-]. exists [], [], l. simpl. repeat split; auto.
    intros pre' post' _ Hl. lia.
  - destruct (run r (mk_st before (c :: t) [])) as [| x l] eqn:E.
    + intros H. destruct (IH _ H) as [pre [post [tl [Ha [Hs [Hr Hfirst]]]]]].
      exists (c :: pre), post, tl. simpl. rewrite <- app_assoc. simpl.
      repeat split; auto; [now subst |].
      intros [| x pre'] post' Hp Hl; simpl in *.
      * subst. exact E.
      * injection Hp as -> ->. rewrite <- app_assoc. simpl.
        apply Hfirst; [reflexivity | lia].
    + intros [= <-]. exists [], (c :: t), l. simpl. repeat split; auto.
      intros pre' post' _ Hl. lia.
Qed.

(** A search succeeds when the pattern matches somewhere. *)
Lemma test_true_iff (r : re) (s : jsstring) :
  test r s = true <->
  exists pre post s', s = pre ++ post /\ matches r (at_pos pre post) s'.
Proof.
  unfold test, exec. split.
  - destruct (exec_from r [] s) as [m |] eqn:E; [| discriminate]. intros _.
    destruct (exec_from_some _ _ _ _ E) as [pre [post [tl [Ha [Hs [Hr _]]]]]].
    exists pre, post, (m_end m). split; [assumption |].
    apply run_sound. rewrite app_nil_r in Hs. unfold at_pos. rewrite <- Hs, Hr.
    now left.
  - intros [pre [post [s' [Hs Hm]]]].
    destruct (exec_from r [] s) as [m |] eqn:E; [reflexivity |].
    exfalso. pose proof (proj1 (exec_from_none r s []) E pre post Hs) as Hn.
    rewrite app_nil_r in Hn. apply run_complete in Hm. unfold at_pos in Hm.
    rewrite Hn in Hm. destruct Hm.
Qed.

Lemma test_false_iff (r : re) (s : jsstring) :
  test r s = false <->
  forall pre post s', s = pre ++ post -> ~ matches r (at_pos pre post) s'.
Proof.
  split.
  - intros H pre post s' Hs Hm.
    assert (test r s = true) by (apply test_true_iff; eauto). congruence.
  - intros H. destruct (test r s) eqn:E; [| reflexivity].
    apply test_true_iff in E. destruct E as [pre [post [s' [Hs Hm]]]].
    exfalso. eapply H; eauto.
Qed.

(** *** Moves that set no capture *)

Lemma st_eta (s : st) : s = mk_st (seen s) (todo s) (caps s).
Proof. now destruct s. Qed.

Lemma st_ext (a b : st) :
  seen a = seen b -> todo a = todo b -> caps a = caps b -> a = b.
Proof. destruct a, b; simpl; congruence. Qed.

Lemma moved_refl (s : st) : moved s [] s.
Proof. now repeat split. Qed.

Lemma moved_nil (s s' : st) : moved s [] s' -> s' = s.
Proof. intros [H1 [H2 H3]]. apply st_ext; simpl in *; congruence. Qed.

Lemma moved_trans (s m s' : st) (w1 w2 : jsstring) :
  moved s w1 m -> moved m w2 s' -> moved s (w1 ++ w2) s'.
Proof.
  intros [A1 [A2 A3]] [B1 [B2 B3]]. repeat split.
  - rewrite A1, B1. now rewrite app_assoc.
  - rewrite B2, A2, rev_app_distr. now rewrite app_assoc.
  - congruence.
Qed.

Lemma moved_to (sn t : jsstring) (cp : list (nat * jsstring)) (w : jsstring) :
  moved (mk_st sn (w ++ t) cp) w (mk_st (rev w ++ sn) t cp).
Proof. now repeat split. Qed.

Lemma moved_inv (s s' : st) (w : jsstring) :
  moved s w s' -> s' = mk_st (rev w ++ seen s) (todo s') (caps s).
Proof. intros [H1 [H2 H3]]. apply st_ext; simpl; congruence. Qed.

Lemma moved_captured (s s' : st) (w : jsstring) :
  moved s w s' -> captured s s' = w.
Proof.
  intros [_ [H _]]. unfold captured. rewrite H, length_app, length_rev.
  replace (length w + length (seen s) - length (seen s)) with (length (rev w))
    by (rewrite length_rev; lia).
  rewrite firstn_app, Nat.sub_diag, firstn_all. simpl.
  rewrite app_nil_r. apply rev_involutive.
Qed.

Lemma matches_chr_iff (p : char -> bool) (s s' : st) :
  matches (Chr p) s s' <-> exists c, p c = true /\ moved s [c] s'.
Proof.
  simpl. split.
  - intros [c [t [E [Hp ->]]]]. exists c. split; [assumption |].
    now repeat split.
  - intros [c [Hp [H1 [H2 H3]]]]. exists c, (todo s'). repeat split; auto.
    apply st_ext; simpl; auto.
Qed.

Lemma matches_lit_iff (l : jsstring) (s s' : st) :
  matches (lit_of l) s s' <-> moved s l s'.
Proof.
  revert s. induction l as [| c l IH]; intros s.
  - simpl. split; [intros ->; apply moved_refl | apply moved_nil].
  - destruct l as [| d l].
    + change (lit_of [c]) with (Chr (char_eqb c)). rewrite matches_chr_iff.
      split.
      * intros [x [Hx H]]. apply N.eqb_eq in Hx. now subst.
      * intros H. exists c. split; [apply N.eqb_refl | assumption].
    + change (lit_of (c :: d :: l)) with (Seq (Chr (char_eqb c)) (lit_of (d :: l))).
      cbn [matches]. split.
      * intros [m [H1 H2]]. apply matches_chr_iff in H1.
        destruct H1 as [x [Hx H1]]. apply N.eqb_eq in Hx. subst x.
        apply IH in H2. apply (moved_trans _ _ _ [c] _ H1 H2).
      * intros [H1 [H2 H3]].
        exists (mk_st (c :: seen s) (d :: l ++ todo s') (caps s)). split.
        -- apply matches_chr_iff. exists c. split; [apply N.eqb_refl |].
           now repeat split.
        -- apply IH. repeat split; simpl; auto.
           rewrite H2. simpl. now rewrite <- !app_assoc.
Qed.

Lemma star_chr_iff (p : char -> bool) (s s' : st) :
  star (matches (Chr p)) s s' <->
  exists w, Forall (fun c => p c = true) w /\ moved s w s'.
Proof.
  split.
  - induction 1 as [s | s m s' H1 _ _ IH].
    + exists []. split; [constructor | apply moved_refl].
    + apply matches_chr_iff in H1. destruct H1 as [c [Hp H1]].
      destruct IH as [w [Hw H2]]. exists (c :: w). split; [now constructor |].
      apply (moved_trans _ _ _ [c] _ H1 H2).
  - intros [w [Hw H]]. revert s H.
    induction Hw as [| c w Hp Hw IH]; intros s H.
    + apply moved_nil in H. subst. constructor.
    + destruct H as [H1 [H2 H3]].
      apply star_more with (m := mk_st (c :: seen s) (w ++ todo s') (caps s)).
      * apply matches_chr_iff. exists c. split; [assumption |].
        now repeat split.
      * simpl. rewrite H1. simpl. lia.
      * apply IH. repeat split; simpl; auto.
        rewrite H2. simpl. now rewrite <- app_assoc.
Qed.

(** *** The preferred match *)

Lemma leads_matches (r : re) (s s' : st) : leads r s s' -> matches r s s'.
Proof. intros [tl H]. apply run_sound. rewrite H. now left. Qed.

Lemma leads_eps (s : st) : leads Eps s s.
Proof. now exists []. Qed.

Lemma leads_chr (p : char -> bool) (c : char) (t sn : jsstring)
  (cp : list (nat * jsstring)) :
  p c = true -> leads (Chr p) (mk_st sn (c :: t) cp) (mk_st (c :: sn) t cp).
Proof. intros H. exists []. simpl. now rewrite H. Qed.

Lemma leads_seq (a b : re) (s m s' : st) :
  leads a s m -> leads b m s' -> leads (Seq a b) s s'.
Proof.
  intros [t1 H1] [t2 H2]. unfold leads. cbn [run]. rewrite H1.
  cbn [flat_map]. rewrite H2. eexists. reflexivity.
Qed.

Lemma leads_alt_left (a b : re) (s s' : st) :
  leads a s s' -> leads (Alt a b) s s'.
Proof. intros [t H]. unfold leads. cbn [run]. rewrite H. eexists. reflexivity. Qed.

Lemma leads_alt_right (a b : re) (s s' : st) :
  run a s = [] -> leads b s s' -> leads (Alt a b) s s'.
Proof.
  intros Ha [t H]. unfold leads. cbn [run]. rewrite Ha, H. eexists. reflexivity.
Qed.

Lemma leads_grp (n : nat) (a : re) (s s' : st) :
  leads a s s' -> leads (Grp n a) s (set_cap n s s').
Proof. intros [t H]. unfold leads. cbn [run]. rewrite H. eexists. reflexivity. Qed.

Lemma leads_lit (l sn t : jsstring) (cp : list (nat * jsstring)) :
  leads (lit_of l) (mk_st sn (l ++ t) cp) (mk_st (rev l ++ sn) t cp).
Proof.
  revert sn. induction l as [| c l IH]; intros sn.
  - apply leads_eps.
  - destruct l as [| d l].
    + apply (leads_chr (char_eqb c)). apply N.eqb_refl.
    + change (lit_of (c :: d :: l)) with (Seq (Chr (char_eqb c)) (lit_of (d :: l))).
      eapply leads_seq.
      * apply (leads_chr (char_eqb c)). apply N.eqb_refl.
      * specialize (IH (c :: sn)). simpl in *. rewrite <- !app_assoc in *.
        exact IH.
Qed.

Lemma run_chr_stops (p : char -> bool) (sn t : jsstring)
  (cp : list (nat * jsstring)) :
  stops p t -> run (Chr p) (mk_st sn t cp) = [].
Proof. destruct t as [| c t]; simpl; [reflexivity | now intros ->]. Qed.

Lemma run_chr_cons (p : char -> bool) (c : char) (sn t : jsstring)
  (cp : list (nat * jsstring)) :
  p c = true -> run (Chr p) (mk_st sn (c :: t) cp) = [mk_st (c :: sn) t cp].
Proof. intros H. simpl. now rewrite H. Qed.

Lemma star_loop_greedy (p : char -> bool) (w : jsstring) :
  Forall (fun c => p c = true) w ->
  forall (t sn : jsstring) (cp : list (nat * jsstring)) (fuel : nat),
    stops p t -> length w <= fuel ->
    exists tl, star_loop (run (Chr p)) fuel (mk_st sn (w ++ t) cp)
               = mk_st (rev w ++ sn) t cp :: tl.
Proof.
  induction 1 as [| c w Hp Hw IH]; intros t sn cp fuel Ht Hf.
  - destruct fuel; cbn [star_loop app rev]; [eexists; reflexivity |].
    rewrite run_chr_stops by assumption. simpl. eexists; reflexivity.
  - destruct fuel as [| f]; [simpl in Hf; lia |].
    cbn [star_loop]. rewrite <- app_comm_cons.
    rewrite run_chr_cons by assumption.
    cbn [flat_map todo].
    destruct (Nat.ltb_spec (length (w ++ t)) (length (c :: w ++ t)));
      [| simpl in *; lia].
    destruct (IH t (c :: sn) cp f Ht ltac:(simpl in Hf; lia)) as [tl E].
    rewrite E. cbn [rev].
    replace ((rev w ++ [c]) ++ sn) with (rev w ++ c :: sn)
      by (now rewrite <- app_assoc).
    eexists; reflexivity.
Qed.

(** A greedy star of a class takes the longest run of the class. *)
Lemma leads_star (p : char -> bool) (w t sn : jsstring)
  (cp : list (nat * jsstring)) :
  Forall (fun c => p c = true) w -> stops p t ->
  leads (Star (Chr p)) (mk_st sn (w ++ t) cp) (mk_st (rev w ++ sn) t cp).
Proof.
  intros Hw Ht. unfold leads. cbn [run todo].
  apply star_loop_greedy; auto. rewrite length_app. lia.
Qed.

Lemma leads_plus (p : char -> bool) (c : char) (w t sn : jsstring)
  (cp : list (nat * jsstring)) :
  p c = true -> Forall (fun c => p c = true) w -> stops p t ->
  leads (plus (Chr p)) (mk_st sn (c :: w ++ t) cp)
        (mk_st (rev (c :: w) ++ sn) t cp).
Proof.
  intros Hc Hw Ht. unfold plus. eapply leads_seq.
  - now apply leads_chr.
  - simpl. rewrite <- app_assoc. simpl. now apply leads_star.
Qed.


(** A search goes over a prefix where the pattern cannot start. *)
Lemma exec_from_skip (r : re) (post : jsstring) (pre before : jsstring) :
  (forall p1 x p2, pre = p1 ++ x :: p2 ->
     run r (mk_st (rev p1 ++ before) (x :: p2 ++ post) []) = []) ->
  exec_from r before (pre ++ post) = exec_from r (rev pre ++ before) post.
Proof.
  revert before. induction pre as [| c pre IH]; intros before H; [reflexivity |].
  pose proof (H [] c pre eq_refl) as H0. cbn [rev app] in H0.
  cbn [app exec_from]. rewrite H0. cbn [rev].
  rewrite <- app_assoc. cbn [app]. apply IH.
  intros p1 x p2 E. specialize (H (c :: p1) x p2). cbn [rev app] in H.
  rewrite <- app_assoc in H. apply H. now rewrite E.
Qed.

Lemma exec_from_leads (r : re) (before after : jsstring) (s' : st) :
  leads r (mk_st before after []) s' ->
  exec_from r before after = Some (mk_mtch (mk_st before after []) s').
Proof. intros [tl H]. destruct after; simpl; now rewrite H. Qed.

(** A pattern that begins with a code unit of a class cannot start where the
    text goes on with another code unit. *)
Lemma run_seq_chr_stops (p : char -> bool) (k : re) (sn t : jsstring)
  (cp : list (nat * jsstring)) :
  stops p t -> run (Seq (Chr p) k) (mk_st sn t cp) = [].
Proof.
  intros H. cbn [run todo]. destruct t as [| c t]; [reflexivity |].
  cbn [stops] in H. now rewrite H.
Qed.

Lemma exec_none_test (r : re) (s : jsstring) : exec r s = None <-> test r s = false.
Proof. unfold test. destruct (exec r s); split; congruence. Qed.

(** *** Literals under the flag i, and repetitions of a class *)

Lemma matches_lit_ci_iff (l : jsstring) (s s' : st) :
  matches (lit_ci_of l) s s' <->
  exists x, map canon x = map canon l /\ moved s x s'.
Proof.
  revert s. induction l as [| c l IH]; intros s.
  - cbn [lit_ci_of matches]. split.
    + intros ->. exists []. split; [reflexivity | apply moved_refl].
    + intros [x [Hx H]]. destruct x; [| discriminate]. now apply moved_nil.
  - assert (Hone : forall a b : st,
      matches (Chr (fun x => char_eqb (canon x) (canon c))) a b <->
      exists y, canon y = canon c /\ moved a [y] b).
    { intros a b. rewrite matches_chr_iff. split; intros [y [Hy H]]; exists y;
        (split; [| assumption]); now apply N.eqb_eq. }
    destruct l as [| d l].
    + change (lit_ci_of [c]) with (Chr (fun x => char_eqb (canon x) (canon c))).
      rewrite Hone. split.
      * intros [y [Hy H]]. exists [y]. split; [cbn; now rewrite Hy | assumption].
      * intros [x [Hx H]]. destruct x as [| y [| z x]]; try discriminate.
        exists y. split; [now injection Hx | assumption].
    + change (lit_ci_of (c :: d :: l))
        with (Seq (Chr (fun x => char_eqb (canon x) (canon c)))
                  (lit_ci_of (d :: l))).
      cbn [matches]. split.
      * intros [m [H1 H2]]. apply Hone in H1. destruct H1 as [y [Hy H1]].
        apply IH in H2. destruct H2 as [x [Hx H2]].
        exists (y :: x). split.
        -- cbn [map]. now rewrite Hy, Hx.
        -- apply (moved_trans _ _ _ [y] _ H1 H2).
      * intros [x [Hx H]]. destruct x as [| y x]; [discriminate |].
        cbn [map] in Hx. injection Hx as Hy Hx.
        destruct H as [H1 [H2 H3]].
        exists (mk_st (y :: seen s) (x ++ todo s') (caps s)). split.
        -- apply Hone. exists y. split; [assumption |]. now repeat split.
        -- apply IH. exists x. split; [assumption |].
           repeat split; cbn [seen todo caps]; auto.
           rewrite H2. cbn [rev]. now rewrite <- app_assoc.
Qed.


(** *** Texts cut in two ways *)



Lemma leads_grp_plus (n : nat) (p : char -> bool) (c : char)
  (w t sn : jsstring) (cp : list (nat * jsstring)) :
  p c = true -> Forall (fun x => p x = true) w -> stops p t ->
  leads (Grp n (plus (Chr p))) (mk_st sn (c :: w ++ t) cp)
        (mk_st (rev (c :: w) ++ sn) t ((n, c :: w) :: cp)).
Proof.
  intros Hc Hw Ht.
  pose proof (leads_grp n _ _ _ (leads_plus p c w t sn cp Hc Hw Ht)) as H.
  assert (E : captured (mk_st sn (c :: w ++ t) cp)
                       (mk_st (rev (c :: w) ++ sn) t cp) = c :: w)
    by (apply moved_captured; apply (moved_to sn t cp (c :: w))).
  unfold set_cap in H. rewrite E in H. exact H.
Qed.

(** A pattern that begins with a text cannot start where the subject does
    not go on with the text. *)
Lemma run_lit_mismatch (l : jsstring) (k : re) (s : st) :
  startsWith (todo s) l = false -> run (Seq (lit_of l) k) s = [].
Proof.
  intros H. apply run_nil. intros s' Hm. cbn [matches] in Hm.
  destruct Hm as [m [Hm _]]. apply matches_lit_iff in Hm.
  destruct Hm as [E _].
  assert (startsWith (todo s) l = true).
  { clear H. rewrite E. generalize (todo m). clear.
    induction l as [| c l IH]; intros t; [now destruct t |].
    cbn [app startsWith]. now rewrite N.eqb_refl, IH. }
  congruence.
Qed.

(** One match, and no other after it. *)
Lemma all_from_one (r : re) (before after : jsstring) (m : mtch) (fuel : nat) :
  exec_from r before after = Some m ->
  length (todo (m_end m)) < length (todo (m_start m)) ->
  exec_from r (seen (m_end m)) (todo (m_end m)) = None ->
  all_from r (S (S fuel)) before after = [m].
Proof.
  intros E Hlt En. cbn [all_from]. rewrite E.
  destruct (Nat.ltb_spec (length (todo (m_end m))) (length (todo (m_start m))));
    [| lia].
  now rewrite En.
Qed.

(** *** A match inside a match *)

(** A match leaves the subject as it is. *)
Lemma matches_subject (r : re) :
  forall s s', matches r s s' ->
               rev (seen s') ++ todo s' = rev (seen s) ++ todo s.
Proof.
  induction r as [| p | a IHa b IHb | a IHa b IHb | a IHa | n a IHa | | m |];
    intros s s' H; cbn [matches] in H.
  - now subst.
  - destruct H as [c [t [E [_ ->]]]]. cbn [advance seen todo rev].
    rewrite E, <- app_assoc. reflexivity.
  - destruct H as [m [H1 H2]]. rewrite (IHb _ _ H2). now apply IHa.
  - destruct H as [H | H]; auto.
  - induction H as [s | s m s' H1 _ _ IH]; [reflexivity |].
    rewrite IH. now apply IHa.
  - destruct H as [m [H ->]]. cbn [set_cap seen todo]. now apply IHa.
  - destruct H as [_ ->]. reflexivity.
  - destruct H as [_ ->]. reflexivity.
  - destruct H as [_ ->]. reflexivity.
Qed.

(** A match does not depend on the captures made before it. *)
Lemma matches_recap (r : re) :
  forall s s' cp, matches r s s' ->
    exists cp', matches r (mk_st (seen s) (todo s) cp)
                  (mk_st (seen s') (todo s') cp').
Proof.
  induction r as [| p | a IHa b IHb | a IHa b IHb | a IHa | n a IHa | | m |];
    intros s s' cp H; cbn [matches] in H.
  - subst. exists cp. reflexivity.
  - destruct H as [c [t [E [Hp ->]]]]. exists cp. exists c, t.
    now repeat split.
  - destruct H as [m [H1 H2]].
    destruct (IHa _ _ cp H1) as [cp1 G1].
    destruct (IHb _ _ cp1 H2) as [cp2 G2].
    exists cp2. exists (mk_st (seen m) (todo m) cp1). now split.
  - destruct H as [H | H].
    + destruct (IHa _ _ cp H) as [cp' G]. exists cp'. now left.
    + destruct (IHb _ _ cp H) as [cp' G]. exists cp'. now right.
  - revert cp. induction H as [s | s m s' H1 Hlt _ IH]; intros cp.
    + exists cp. constructor.
    + destruct (IHa _ _ cp H1) as [cp1 G1].
      destruct (IH cp1) as [cp2 G2]. exists cp2.
      now apply star_more with (m := mk_st (seen m) (todo m) cp1).
  - destruct H as [m [H ->]]. destruct (IHa _ _ cp H) as [cp1 G].
    eexists. exists (mk_st (seen m) (todo m) cp1). split; [exact G |].
    reflexivity.
  - destruct H as [Hb ->]. exists cp. now split.
  - destruct H as [Hb ->]. exists cp. now split.
  - destruct H as [Hb ->]. exists cp. now split.
Qed.

(** A pattern that matches from a state of a search matches in the
    subject. *)
Lemma test_part (r : re) (s s' : st) :
  matches r s s' -> test r (rev (seen s) ++ todo s) = true.
Proof.
  intros H. destruct (matches_recap r s s' [] H) as [cp' G].
  apply test_true_iff. exists (rev (seen s)), (todo s). eexists.
  split; [reflexivity |]. unfold at_pos. rewrite rev_involutive. exact G.
Qed.

Lemma matches_seqs_cons (x : re) (l : list re) (s s' : st) :
  matches (seqs (x :: l)) s s' <->
  exists m, matches x s m /\ matches (seqs l) m s'.
Proof.
  destruct l as [| y l]; [| reflexivity].
  cbn [seqs matches]. split.
  - intros H. exists s'. now split.
  - intros [m [H ->]]. exact H.
Qed.

Lemma matches_seqs_app (a b : list re) (s s' : st) :
  matches (seqs (a ++ b)) s s' <->
  exists m, matches (seqs a) s m /\ matches (seqs b) m s'.
Proof.
  revert s. induction a as [| x a IH]; intros s.
  - cbn [app seqs matches]. split.
    + intros H. exists s. now split.
    + intros [m [-> H]]. exact H.
  - cbn [app]. rewrite !matches_seqs_cons. split.
    + intros [m [Hx H]]. apply IH in H. destruct H as [k [Ha Hb]].
      exists k. split; [| assumption]. apply matches_seqs_cons. eauto.
    + intros [k [Ha Hb]]. apply matches_seqs_cons in Ha.
      destruct Ha as [m [Hx Ha]]. exists m. split; [assumption |].
      apply IH. eauto.
Qed.

(** Where a sequence of patterns matches, so does a part of it. *)
Lemma test_seqs_part (a b c : list re) (l : jsstring) :
  test (seqs (a ++ b ++ c)) l = true -> test (seqs b) l = true.
Proof.
  intros H. apply test_true_iff in H. destruct H as [pre [post [s' [E H]]]].
  apply matches_seqs_app in H. destruct H as [m1 [Ha H]].
  apply matches_seqs_app in H. destruct H as [m2 [Hb _]].
  pose proof (test_part _ _ _ Hb) as T.
  rewrite (matches_subject _ _ _ Ha) in T. unfold at_pos in T.
  cbn [seen todo] in T. rewrite rev_involutive, <- E in T. exact T.
Qed.

Lemma test_grp (n : nat) (r : re) (l : jsstring) :
  test (Grp n r) l = true -> test r l = true.
Proof.
  intros H. apply test_true_iff in H. destruct H as [pre [post [s' [E H]]]].
  destruct H as [m [H _]]. apply test_part in H. unfold at_pos in H.
  cbn [seen todo] in H. now rewrite rev_involutive, <- E in H.
Qed.

(** The match that a search returns. *)
Lemma exec_matches (r : re) (s : jsstring) (mt : mtch) :
  exec r s = Some mt ->
  exists pre post,
    s = pre ++ post /\ m_start mt = at_pos pre post
    /\ matches r (at_pos pre post) (m_end mt).
Proof.
  unfold exec. intros E.
  destruct (exec_from_some _ _ _ _ E) as [pre [post [tl [Hs [Hst [Hr _]]]]]].
  rewrite app_nil_r in Hst. exists pre, post. split; [assumption |].
  split; [assumption |]. unfold at_pos. rewrite <- Hst.
  apply run_sound. rewrite Hr. now left.
Qed.

End ReFacts.

Unset Implicit Arguments.

(** ** Computations with a log *)

Lemma logged_bind {L A B} (m : Eff L A) (f : A -> Eff L B) :
  logged (bind m f) =
  logged m ++ match result m with Ok a => logged (f a) | Throw _ => [] end.
Proof.
  destruct m as [l [a | e]]; simpl.
  - destruct (f a); reflexivity.
  - now rewrite app_nil_r.
Qed.

Lemma result_bind {L A B} (m : Eff L A) (f : A -> Eff L B) :
  result (bind m f) =
  match result m with Ok a => result (f a) | Throw e => Throw e end.
Proof.
  destruct m as [l [a | e]]; simpl; [destruct (f a) |]; reflexivity.
Qed.

Lemma logged_ret {L A} (a : A) : logged (ret a : Eff L A) = [].
Proof. reflexivity. Qed.

Lemma result_ret {L A} (a : A) : result (ret a : Eff L A) = Ok a.
Proof. reflexivity. Qed.

Lemma logged_when {L} (c : bool) (m : Eff L unit) :
  logged (when c m) = if c then logged m else [].
Proof. now destruct c. Qed.

Lemma result_when {L} (c : bool) (m : Eff L unit) :
  result (when c m) = if c then result m else Ok tt.
Proof. now destruct c. Qed.

(** ** Arrays *)

Lemma get_in_range (lines : list jsstring) (j : Z) :
  (0 <= j < len lines)%Z -> exists l, get lines j = Some l.
Proof.
  intros H. unfold get, len in *.
  destruct (Z.ltb_spec j 0); [lia |].
  destruct (nth_error lines (Z.to_nat j)) eqn:E; [eauto |].
  apply nth_error_None in E. lia.
Qed.

Lemma get_out_of_range (lines : list jsstring) (j : Z) :
  (len lines <= j)%Z -> get lines j = None.
Proof.
  intros H. unfold get, len in *.
  destruct (Z.ltb_spec j 0); [reflexivity |].
  apply nth_error_None. lia.
Qed.

Lemma slice_bound_range (n k : Z) :
  (0 <= n)%Z -> (0 <= slice_bound n k <= n)%Z.
Proof. unfold slice_bound. destruct (Z.ltb_spec k 0); lia. Qed.

Lemma slice_reads_nonneg (lines : list jsstring) (a b : Z) :
  Forall (fun i => 0 <= i)%Z (slice_reads lines a b).
Proof.
  unfold slice_reads. apply Forall_map, Forall_forall. intros k _.
  pose proof (slice_bound_range (len lines) a). unfold len in *. lia.
Qed.

(** ** getJsDocInfo: termination, reads and boundaries *)

Module StdFacts.
Import Re ReSpec ReFacts Std StdSpec.

Lemma nonneg_app (a b : list Z) : nonneg a -> nonneg b -> nonneg (a ++ b).
Proof. intros; now apply Forall_app. Qed.

Lemma nonneg_nil : nonneg [].
Proof. constructor. Qed.

Lemma nonneg_one (j : Z) : (0 <= j)%Z -> nonneg [j].
Proof. intros; now repeat constructor. Qed.

Lemma nonneg_slice (lines : list jsstring) (a b : Z) :
  nonneg (slice_reads lines a b).
Proof. apply slice_reads_nonneg. Qed.

Create HintDb reads.
#[local] Hint Resolve nonneg_app nonneg_nil nonneg_one nonneg_slice : reads.

(** Enough fuel: a loop that counts down from [j] needs [rounds_down j]
    rounds and more fuel changes nothing. *)
Lemma skipBlank_fuel (lines : list jsstring) (f1 f2 : nat) (j : Z) :
  rounds_down j <= f1 -> rounds_down j <= f2 ->
  skipBlank f1 lines j = skipBlank f2 lines j.
Proof.
  revert f2 j. induction f1 as [| f1 IH]; intros f2 j H1 H2.
  - assert (j < 0)%Z by (unfold rounds_down in H1; lia).
    destruct f2; simpl; [reflexivity |].
    destruct (Z.leb_spec 0 j); [lia | reflexivity].
  - destruct f2 as [| f2].
    + assert (j < 0)%Z by (unfold rounds_down in H2; lia).
      simpl. destruct (Z.leb_spec 0 j); [lia | reflexivity].
    + simpl. destruct (Z.leb_spec 0 j); [| reflexivity].
      rewrite (IH f2 (j - 1)%Z) by (unfold rounds_down in *; lia).
      reflexivity.
Qed.

Lemma skipDecorators_fuel (lines : list jsstring) (f1 f2 : nat) (j : Z) :
  rounds_down j <= f1 -> rounds_down j <= f2 ->
  skipDecorators f1 lines j = skipDecorators f2 lines j.
Proof.
  revert f2 j. induction f1 as [| f1 IH]; intros f2 j H1 H2.
  - assert (j < 0)%Z by (unfold rounds_down in H1; lia).
    destruct f2; simpl; [reflexivity |].
    destruct (Z.leb_spec 0 j); [lia | reflexivity].
  - destruct f2 as [| f2].
    + assert (j < 0)%Z by (unfold rounds_down in H2; lia).
      simpl. destruct (Z.leb_spec 0 j); [lia | reflexivity].
    + simpl. destruct (Z.leb_spec 0 j); [| reflexivity].
      rewrite (IH f2 (j - 1)%Z) by (unfold rounds_down in *; lia).
      reflexivity.
Qed.

Lemma walkBack_fuel (lines : list jsstring) (f1 f2 : nat) (e j : Z) :
  rounds_down j <= f1 -> rounds_down j <= f2 ->
  walkBack f1 lines e j = walkBack f2 lines e j.
Proof.
  revert f2 j. induction f1 as [| f1 IH]; intros f2 j H1 H2.
  - assert (j < 0)%Z by (unfold rounds_down in H1; lia).
    destruct f2; simpl; [reflexivity |].
    destruct (Z.leb_spec 0 j); [lia | reflexivity].
  - destruct f2 as [| f2].
    + assert (j < 0)%Z by (unfold rounds_down in H2; lia).
      simpl. destruct (Z.leb_spec 0 j); [lia | reflexivity].
    + simpl. destruct (Z.leb_spec 0 j); [| reflexivity].
      rewrite (IH f2 (j - 1)%Z) by (unfold rounds_down in *; lia).
      reflexivity.
Qed.

Lemma scanForward_fuel (lines : list jsstring) (f1 f2 : nat) (e : Z) :
  Z.to_nat (len lines - e) <= f1 -> Z.to_nat (len lines - e) <= f2 ->
  scanForward f1 lines e = scanForward f2 lines e.
Proof.
  revert f2 e. induction f1 as [| f1 IH]; intros f2 e H1 H2.
  - assert (len lines <= e)%Z by lia.
    destruct f2; simpl; [reflexivity |].
    destruct (Z.ltb_spec e (len lines)); [lia | reflexivity].
  - destruct f2 as [| f2].
    + assert (len lines <= e)%Z by lia.
      simpl. destruct (Z.ltb_spec e (len lines)); [lia | reflexivity].
    + simpl. destruct (Z.ltb_spec e (len lines)); [| reflexivity].
      rewrite (IH f2 (e + 1)%Z) by lia.
      reflexivity.
Qed.

(** The loops read at indices that are not negative. *)
Lemma skipBlank_reads (fuel : nat) (lines : list jsstring) (j : Z) :
  nonneg (logged (skipBlank fuel lines j)).
Proof.
  revert j. induction fuel as [| f IH]; intros j; simpl; auto with reads.
  destruct (Z.leb_spec 0 j); auto with reads.
  unfold read. destruct (get lines j) as [l |]; simpl.
  - specialize (IH (j - 1)%Z).
    destruct (isEmpty (trim l)); simpl.
    + destruct (skipBlank f lines (j - 1)); simpl in *.
      constructor; assumption.
    + auto with reads.
  - auto with reads.
Qed.

Lemma skipDecorators_reads (fuel : nat) (lines : list jsstring) (j : Z) :
  nonneg (logged (skipDecorators fuel lines j)).
Proof.
  revert j. induction fuel as [| f IH]; intros j; simpl; auto with reads.
  destruct (Z.leb_spec 0 j); auto with reads.
  unfold read. simpl. specialize (IH (j - 1)%Z).
  destruct (test_of decoratorRe (get lines j)); simpl.
  - destruct (skipDecorators f lines (j - 1)); simpl in *.
    constructor; assumption.
  - auto with reads.
Qed.

Lemma walkBack_reads (fuel : nat) (lines : list jsstring) (e j : Z) :
  nonneg (logged (walkBack fuel lines e j)).
Proof.
  revert j. induction fuel as [| f IH]; intros j; simpl; auto with reads.
  destruct (Z.leb_spec 0 j); auto with reads.
  unfold read, sliceJoin. simpl. specialize (IH (j - 1)%Z).
  destruct (test_of jsDocStartRe (get lines j)); simpl.
  - constructor; [assumption |]. rewrite app_nil_r. apply slice_reads_nonneg.
  - destruct (test_of commentStartRe (get lines j)); simpl.
    + repeat (constructor; [assumption |]). auto with reads.
    + destruct (walkBack f lines e (j - 1)); simpl in *.
      repeat (constructor; [assumption |]). auto with reads.
Qed.

Lemma scanForward_reads (fuel : nat) (lines : list jsstring) (e : Z) :
  (0 <= e)%Z -> nonneg (logged (scanForward fuel lines e)).
Proof.
  revert e. induction fuel as [| f IH]; intros e He; simpl; auto with reads.
  destruct (Z.ltb_spec e (len lines)); auto with reads.
  unfold read. simpl. specialize (IH (e + 1)%Z ltac:(lia)).
  destruct (test_of closesRe (get lines e)); simpl; auto with reads.
  destruct (scanForward f lines (e + 1)); simpl in *.
  constructor; assumption.
Qed.

(** What the loops return. *)
Lemma skipBlank_returns (fuel : nat) (lines : list jsstring) (j : Z) :
  (j < len lines)%Z ->
  exists j', result (skipBlank fuel lines j) = Ok j' /\ (j' <= j)%Z.
Proof.
  revert j. induction fuel as [| f IH]; intros j Hj; simpl.
  - exists j. split; [reflexivity | lia].
  - destruct (Z.leb_spec 0 j); [| exists j; split; [reflexivity | lia]].
    destruct (get_in_range lines j ltac:(lia)) as [l Hl].
    unfold read. rewrite Hl. simpl.
    destruct (isEmpty (trim l)); simpl.
    + destruct (IH (j - 1)%Z ltac:(lia)) as [j' [E Hle]].
      destruct (skipBlank f lines (j - 1)); simpl in *. subst.
      exists j'. split; [reflexivity | lia].
    + exists j. split; [reflexivity | lia].
Qed.

Lemma skipBlank_throws (lines : list jsstring) (j : Z) :
  (len lines <= j)%Z ->
  result (skipBlank (rounds_down j) lines j) = Throw TypeError.
Proof.
  intros Hj. assert (0 <= j)%Z by (unfold len in Hj; lia).
  unfold rounds_down. replace (Z.to_nat (j + 1)) with (S (Z.to_nat j)) by lia.
  simpl. destruct (Z.leb_spec 0 j); [| lia].
  unfold read. rewrite (get_out_of_range lines j Hj). reflexivity.
Qed.

Lemma skipDecorators_returns (fuel : nat) (lines : list jsstring) (j : Z) :
  exists j', result (skipDecorators fuel lines j) = Ok j' /\ (j' <= j)%Z.
Proof.
  revert j. induction fuel as [| f IH]; intros j; simpl.
  - exists j. split; [reflexivity | lia].
  - destruct (Z.leb_spec 0 j); [| exists j; split; [reflexivity | lia]].
    unfold read. simpl.
    destruct (test_of decoratorRe (get lines j)); simpl.
    + destruct (IH (j - 1)%Z) as [j' [E Hle]].
      destruct (skipDecorators f lines (j - 1)); simpl in *. subst.
      exists j'. split; [reflexivity | lia].
    + exists j. split; [reflexivity | lia].
Qed.

Lemma walkBack_returns (fuel : nat) (lines : list jsstring) (e j : Z) :
  (j <= e)%Z ->
  exists info, result (walkBack fuel lines e j) = Ok info /\
    (exists_ info = true -> (0 <= startIdx info <= endIdx info)%Z
                            /\ endIdx info = e).
Proof.
  revert j. induction fuel as [| f IH]; intros j Hj; simpl.
  - exists notFound. split; [reflexivity | discriminate].
  - destruct (Z.leb_spec 0 j);
      [| exists notFound; split; [reflexivity | discriminate]].
    unfold read, sliceJoin. simpl.
    destruct (test_of jsDocStartRe (get lines j)); simpl.
    + eexists. split; [reflexivity |]. simpl. intros _. lia.
    + destruct (IH (j - 1)%Z ltac:(lia)) as [info [E Hinfo]].
      destruct (test_of commentStartRe (get lines j)); simpl.
      * exists notFound. split; [reflexivity | discriminate].
      * destruct (walkBack f lines e (j - 1)); simpl in *. subst.
        exists info. split; [reflexivity | assumption].
Qed.

Lemma scanForward_returns (fuel : nat) (lines : list jsstring) (e : Z) :
  exists e', result (scanForward fuel lines e) = Ok e' /\
             (e <= e')%Z /\ (e' <= Z.max e (len lines))%Z.
Proof.
  revert e. induction fuel as [| f IH]; intros e; simpl.
  - exists e. split; [reflexivity | lia].
  - destruct (Z.ltb_spec e (len lines)); [| exists e; split; [reflexivity | lia]].
    unfold read. simpl.
    destruct (test_of closesRe (get lines e)); simpl.
    + exists e. split; [reflexivity | lia].
    + destruct (IH (e + 1)%Z) as [e' [E Hle]].
      destruct (scanForward f lines (e + 1)); simpl in *. subst.
      exists e'. split; [reflexivity | lia].
Qed.

(** The results of the loops, without the log. *)
Lemma skipBlank_step (f : nat) (lines : list jsstring) (j : Z) :
  result (skipBlank (S f) lines j) =
  if (0 <=? j)%Z then
    match get lines j with
    | None => Throw TypeError
    | Some l => if isEmpty (trim l) then result (skipBlank f lines (j - 1))
                else Ok j
    end
  else Ok j.
Proof.
  cbn [skipBlank]. destruct (0 <=? j)%Z; [| reflexivity].
  unfold read. rewrite result_bind. cbn [result snd].
  destruct (get lines j) as [l |]; [| reflexivity].
  rewrite result_bind. cbn [trim_of ret result snd].
  destruct (isEmpty (trim l)); reflexivity.
Qed.

Lemma skipDecorators_step (f : nat) (lines : list jsstring) (j : Z) :
  result (skipDecorators (S f) lines j) =
  if (0 <=? j)%Z then
    if test_of decoratorRe (get lines j)
    then result (skipDecorators f lines (j - 1)) else Ok j
  else Ok j.
Proof.
  cbn [skipDecorators]. destruct (0 <=? j)%Z; [| reflexivity].
  unfold read. rewrite result_bind. cbn [result snd].
  destruct (test_of decoratorRe (get lines j)); reflexivity.
Qed.

Lemma walkBack_step (f : nat) (lines : list jsstring) (e j : Z) :
  result (walkBack (S f) lines e j) =
  if (0 <=? j)%Z then
    if test_of jsDocStartRe (get lines j)
    then Ok (mkInfo true false j e (join nl (slice lines j (e + 1))))
    else if test_of commentStartRe (get lines j) then Ok notFound
    else result (walkBack f lines e (j - 1))
  else Ok notFound.
Proof.
  cbn [walkBack]. destruct (0 <=? j)%Z; [| reflexivity].
  unfold read. rewrite result_bind. cbn [result snd].
  destruct (test_of jsDocStartRe (get lines j)) eqn:E1; [reflexivity |].
  rewrite result_bind. cbn [result snd].
  destruct (test_of commentStartRe (get lines j)); [| reflexivity].
  rewrite result_bind. cbn [result snd]. rewrite E1. reflexivity.
Qed.

Lemma scanForward_step (f : nat) (lines : list jsstring) (e : Z) :
  result (scanForward (S f) lines e) =
  if (e <? len lines)%Z then
    if test_of closesRe (get lines e) then Ok e
    else result (scanForward f lines (e + 1))
  else Ok e.
Proof.
  cbn [scanForward]. destruct (e <? len lines)%Z; [| reflexivity].
  unfold read. rewrite result_bind. cbn [result snd].
  destruct (test_of closesRe (get lines e)); reflexivity.
Qed.

Lemma getJsDocInfo_classify (lines : list jsstring) (index j1 j2 j3 : Z) :
  result (skipBlank (rounds_down (index - 1)) lines (index - 1)) = Ok j1 ->
  result (skipDecorators (rounds_down j1) lines j1) = Ok j2 ->
  result (skipBlank (rounds_down j2) lines j2) = Ok j3 ->
  result (getJsDocInfo lines index) = classify lines j3.
Proof.
  intros E1 E2 E3. unfold getJsDocInfo, classify.
  rewrite result_bind, E1, result_bind, E2, result_bind, E3.
  destruct (j3 <? 0)%Z; [reflexivity |].
  unfold read. rewrite result_bind. cbn [result snd].
  destruct (test_of singleLineRe (get lines j3)); [reflexivity |].
  destruct (test_of blockEndRe (get lines j3)
            || test_of blockMiddleRe (get lines j3));
    [reflexivity |].
  destruct (test_of jsDocStartRe (get lines j3)); [| reflexivity].
  rewrite result_bind.
  destruct (result (scanForward (Z.to_nat (len lines - j3)) lines j3));
    reflexivity.
Qed.

(** C9.  For every array of lines and every integer index, getJsDocInfo
    terminates: it returns when the index is at most the number of lines and
    throws a TypeError (the line above the index is undefined) when it is
    larger.  It never reads a line at a negative index, and when it reports
    that a block exists, the boundaries satisfy 0 <= startIdx <= endIdx and
    endIdx is at most the number of lines. *)
Theorem getJsDocInfo_terminates_safely (lines : list jsstring) (index : Z) :
  nonneg (logged (getJsDocInfo lines index)) /\
  ((index <= len lines)%Z ->
   exists info, result (getJsDocInfo lines index) = Ok info) /\
  ((len lines < index)%Z ->
   result (getJsDocInfo lines index) = Throw TypeError) /\
  (forall info,
     result (getJsDocInfo lines index) = Ok info -> exists_ info = true ->
     (0 <= startIdx info <= endIdx info)%Z /\ (endIdx info <= len lines)%Z).
Proof.
  unfold getJsDocInfo.
  destruct (Z.lt_ge_cases (len lines) index) as [Hbig | Hsmall].
  - (* the first read throws *)
    pose proof (skipBlank_reads (rounds_down (index - 1)) lines (index - 1)) as Hr.
    pose proof (skipBlank_throws lines (index - 1) ltac:(lia)) as Ht.
    rewrite logged_bind, !result_bind, Ht.
    rewrite ?app_nil_r.
    refine (conj Hr (conj _ (conj _ _))); [lia | reflexivity | discriminate].
  - destruct (skipBlank_returns (rounds_down (index - 1)) lines (index - 1)
                ltac:(lia)) as [j1 [E1 H1]].
    pose proof (skipBlank_reads (rounds_down (index - 1)) lines (index - 1)) as R1.
    destruct (skipDecorators_returns (rounds_down j1) lines j1) as [j2 [E2 H2]].
    pose proof (skipDecorators_reads (rounds_down j1) lines j1) as R2.
    destruct (skipBlank_returns (rounds_down j2) lines j2 ltac:(lia))
      as [j3 [E3 H3]].
    pose proof (skipBlank_reads (rounds_down j2) lines j2) as R3.
    rewrite !logged_bind, !result_bind, E1.
    rewrite !logged_bind, !result_bind, E2.
    rewrite !logged_bind, !result_bind, E3.
    destruct (Z.ltb_spec j3 0) as [Hneg | Hpos].
    + simpl. rewrite ?app_nil_r.
      refine (conj _ (conj _ (conj _ _))); auto with reads.
      * intros _; eexists; reflexivity.
      * lia.
      * intros info E; inversion E; subst; discriminate.
    + rewrite !logged_bind, !result_bind. cbn [read logged result fst snd].
      assert (Rj : nonneg [j3]) by auto with reads.
      destruct (test_of singleLineRe (get lines j3)).
      { simpl. rewrite ?app_nil_r.
        refine (conj _ (conj _ (conj _ _))); auto 10 with reads.
        - intros _; eexists; reflexivity.
        - lia.
        - intros info E _; inversion E; subst; simpl; lia. }
      destruct (test_of blockEndRe (get lines j3)
                || test_of blockMiddleRe (get lines j3)).
      { pose proof (walkBack_reads (rounds_down j3) lines j3 j3) as Rw.
        destruct (walkBack_returns (rounds_down j3) lines j3 j3 ltac:(lia))
          as [info [Ew Hw]].
        rewrite Ew.
        refine (conj _ (conj _ (conj _ _))); auto 10 with reads.
        - intros _; eexists; reflexivity.
        - lia.
        - intros info' E Hex; inversion E; subst.
          destruct (Hw Hex) as [Hs He]. rewrite He. lia. }
      destruct (test_of jsDocStartRe (get lines j3)).
      { pose proof (scanForward_reads (Z.to_nat (len lines - j3)) lines j3
                      Hpos) as Rs.
        destruct (scanForward_returns (Z.to_nat (len lines - j3)) lines j3)
          as [e [Es He]].
        rewrite !logged_bind, !result_bind, Es.
        unfold sliceJoin. cbn [bind ret logged result fst snd].
        rewrite ?app_nil_r.
        refine (conj _ (conj _ (conj _ _))); auto 10 with reads.
        - intros _; eexists; reflexivity.
        - lia.
        - intros info E _; inversion E; subst; simpl; lia. }
      simpl. rewrite ?app_nil_r.
      refine (conj _ (conj _ (conj _ _))); auto 10 with reads.
      * intros _; eexists; reflexivity.
      * lia.
      * intros info E; inversion E; subst; discriminate.
Qed.

(** An opener that is never closed: the forward scan stops at the end of the
    array and endIdx is the number of lines. *)
Example getJsDocInfo_unclosed_block :
  result (getJsDocInfo [js "/** never closed"; js " * text"] 2)
  = Ok (mkInfo true false 0 1 (js "/** never closed" ++ nl ++ js " * text"))
  /\ result (getJsDocInfo [js "/** never closed"] 1)
     = Ok (mkInfo true false 0 1 (js "/** never closed")).
Proof. split; vm_compute; reflexivity. Qed.

(** ** checkAccessModifierTag *)

Lemma matches_visibility (s s' : st) :
  matches visibilityRe s s' -> exists m, In m visibilities /\ moved s m s'.
Proof.
  unfold visibilityRe, lit. cbn [alts matches]. unfold visibilities.
  intros [H | [H | H]]; apply matches_lit_iff in H; eexists; split; eauto;
    simpl; auto.
Qed.

(** The modifier read off a line is one of the three keywords. *)
Lemma getAccessModifier_values (line m : jsstring) :
  getAccessModifier line = Some m -> In m visibilities.
Proof.
  unfold getAccessModifier, exec.
  destruct (exec_from accessRe [] line) as [mt |] eqn:E; [| discriminate].
  destruct (exec_from_some _ _ _ _ E) as [pre [post [tl [_ [_ [Hr _]]]]]].
  assert (Hm : matches accessRe (m_start mt) (m_end mt))
    by (apply run_sound; rewrite Hr; now left).
  unfold accessRe in Hm. cbn [seqs matches] in Hm.
  destruct Hm as [m1 [_ [m2 [_ [m3 [[m' [Hv ->]] Hsp]]]]]].
  apply matches_chr_iff in Hsp. destruct Hsp as [c [_ [_ [_ Hc]]]].
  unfold m_group. rewrite Hc. cbn [set_cap caps cap_lookup Nat.eqb].
  destruct (matches_visibility _ _ Hv) as [k [Hk Hmv]].
  rewrite (moved_captured _ _ _ Hmv). now intros [= <-].
Qed.

(** C5.  A line with no visibility keyword: the check is skipped and reports
    valid whatever the tags of the block.  A line with the keyword [m]: no
    visibility tag in the block gives the one error that the tag is missing;
    two or more give the one error of multiple tags; exactly one, which is
    not that of [m], gives the one error of a mismatch; exactly one, that of
    [m], is valid. *)
Theorem visibility_tag_rule (content line : jsstring) :
  (getAccessModifier line = None ->
   checkAccessModifierTag content (getAccessModifier line) = mkCheck true [])
  /\
  (forall m, getAccessModifier line = Some m ->
     let r := checkAccessModifierTag content (getAccessModifier line) in
     In m visibilities /\
     (tagCount content = 0 ->
      r = mkCheck false (js "Missing @" ++ m ++ js " tag in JSDoc")) /\
     (2 <= tagCount content ->
      r = mkCheck false (js "Multiple access modifier tags in JSDoc")) /\
     (tagCount content = 1 -> carries content m = false ->
      r = mkCheck false (mismatchMsg m)) /\
     (tagCount content = 1 -> carries content m = true ->
      r = mkCheck true [])).
Proof.
  split.
  - intros ->. reflexivity.
  - intros m Hm. pose proof (getAccessModifier_values _ _ Hm) as Hin.
    rewrite Hm. cbv zeta. split; [assumption |].
    unfold checkAccessModifierTag, tagCount, visibilities, carries, tagRe, lit.
    cbn [map ToString].
    set (pub := test (seqs [ch "@"; lit_of (js "public"); WordB]) content).
    set (pri := test (seqs [ch "@"; lit_of (js "private"); WordB]) content).
    set (pro := test (seqs [ch "@"; lit_of (js "protected"); WordB]) content).
    destruct Hin as [<- | [<- | [<- | []]]];
      fold pub; fold pri; fold pro;
      destruct pub, pri, pro; cbn;
      repeat split; intros; try reflexivity; try discriminate; try lia.
Qed.

(** ** checkSingleLineJsDoc *)

Lemma dropWhile_nil_iff (p : char -> bool) (s : jsstring) :
  dropWhile p s = [] <-> Forall (fun c => p c = true) s.
Proof.
  induction s as [| c s IH]; simpl.
  - split; auto.
  - destruct (p c) eqn:E.
    + rewrite IH. split; [now constructor | now inversion 1].
    + split; [discriminate | inversion 1; congruence].
Qed.

Lemma dropWhile_head (p : char -> bool) (s : jsstring) (c : char) (t : jsstring) :
  dropWhile p s = c :: t -> p c = false.
Proof.
  induction s as [| x s IH]; simpl; [discriminate |].
  destruct (p x) eqn:E; [assumption | now intros [= <- _]].
Qed.

(** A string trims to the empty string when it is made of white space. *)
Lemma trim_empty_iff (s : jsstring) :
  trim s = [] <-> Forall (fun c => is_space c = true) s.
Proof.
  unfold trim, trimEnd, trimStart. split.
  - intros H. apply dropWhile_nil_iff.
    destruct (dropWhile is_space s) as [| c t] eqn:E; [reflexivity |].
    exfalso. pose proof (dropWhile_head _ _ _ _ E) as Hc.
    assert (H' : dropWhile is_space (rev (c :: t)) = []).
    { destruct (dropWhile is_space (rev (c :: t))); [reflexivity |].
      simpl in H. apply app_eq_nil in H. destruct H; discriminate. }
    apply dropWhile_nil_iff in H'. apply Forall_rev in H'.
    change (Forall (fun x => is_space x = true) (rev (rev (c :: t)))) in H'.
    rewrite (rev_involutive (c :: t)) in H'. inversion H'; congruence.
  - intros H. apply dropWhile_nil_iff in H. now rewrite H.
Qed.

Lemma messages_differ (propertyType : jsstring) :
  notSingleLineMsg propertyType <> emptyDocMsg propertyType.
Proof.
  unfold notSingleLineMsg, emptyDocMsg. intros H.
  apply app_inv_head in H. discriminate.
Qed.

(** C6.  The check of the single-line format returns exactly one error, that
    of the format, for a block that is not on one line, whatever its
    content; the error of an empty description is returned only for a block
    on one line whose text without the delimiters is empty or white space;
    the two errors never come together. *)
Theorem single_line_format_rule (info : JsDocInfo) (propertyType : jsstring) :
  let errs := checkSingleLineJsDoc info propertyType in
  (isSingleLine info = false -> errs = [notSingleLineMsg propertyType]) /\
  (In (emptyDocMsg propertyType) errs <->
   isSingleLine info = true /\
   Forall (fun c => is_space c = true) (stripDelimiters (content info))) /\
  ~ (In (notSingleLineMsg propertyType) errs /\
     In (emptyDocMsg propertyType) errs).
Proof.
  cbv zeta. unfold checkSingleLineJsDoc. fold (stripDelimiters (content info)).
  pose proof (messages_differ propertyType) as Hd.
  pose proof (trim_empty_iff (stripDelimiters (content info))) as Ht.
  destruct (isSingleLine info); cbn [negb app].
  - destruct (trim (stripDelimiters (content info))) as [| c t] eqn:E;
      cbn [isEmpty].
    + split; [discriminate |]. split; [split |].
      * intros _. split; [reflexivity | now apply Ht].
      * intros _. now left.
      * intros [[H | []] _]. congruence.
    + split; [discriminate |]. split; [split |].
      * intros [].
      * intros [_ H]. apply Ht in H. discriminate.
      * intros [[] _].
  - split; [reflexivity |]. split; [split |].
    + intros [H | []]. congruence.
    + intros [H _]; discriminate.
    + intros [_ [H | []]]. congruence.
Qed.

(** The check on two blocks of a signal: one on three lines, one empty. *)
Example single_line_format_examples :
  checkSingleLineJsDoc
    (mkInfo true false 3 5 (js "/**" ++ nl ++ js " * The total." ++ nl ++ js " */"))
    (js "Signal")
  = [js "Signal should have single-line JSDoc (/** ... */), not multi-line"]
  /\ checkSingleLineJsDoc (mkInfo true true 3 3 (js "  /**   */")) (js "Signal")
     = [js "Signal JSDoc is empty - add a description"]
  /\ checkSingleLineJsDoc (mkInfo true true 3 3 (js "  /** The total. */"))
       (js "Signal") = [].
Proof. repeat split; vm_compute; reflexivity. Qed.

(** ** extractParams *)

Lemma segmentsFrom_nonempty (s : jsstring) (d : Z) : segmentsFrom d s <> [].
Proof.
  destruct s as [| c t]; cbn [segmentsFrom]; [discriminate |].
  destruct (char_eqb c comma && (d =? 0)%Z); [discriminate |].
  destruct (segmentsFrom (depthAfter d c) t); discriminate.
Qed.

(** The segments are consecutive pieces of the list, in its order. *)
Lemma join_segments (s : jsstring) (d : Z) : join [comma] (segmentsFrom d s) = s.
Proof.
  revert d. induction s as [| c t IH]; intros d; [reflexivity |].
  cbn [segmentsFrom].
  destruct (char_eqb c comma && (d =? 0)%Z) eqn:E.
  - apply andb_prop in E. destruct E as [E _]. apply N.eqb_eq in E. subst c.
    specialize (IH d). pose proof (segmentsFrom_nonempty t d) as Hne.
    destruct (segmentsFrom d t) as [| h r]; [congruence |].
    change (join [comma] ([] :: h :: r))
      with ([] ++ [comma] ++ join [comma] (h :: r)).
    now rewrite IH.
  - specialize (IH (depthAfter d c)).
    pose proof (segmentsFrom_nonempty t (depthAfter d c)) as Hne.
    destruct (segmentsFrom (depthAfter d c) t) as [| h r]; [congruence |].
    destruct r; simpl in *; now rewrite IH.
Qed.

Lemma pushCurrent_filter (cur : jsstring) (ps : list jsstring) :
  pushCurrent cur ps = ps ++ filter (fun x => negb (isEmpty x)) [trim cur].
Proof.
  unfold pushCurrent. cbn [filter].
  destruct (isEmpty (trim cur)); cbn [negb]; [now rewrite app_nil_r | reflexivity].
Qed.

Lemma split_loop_segments (s : jsstring) :
  forall (d : Z) (cur : jsstring) (ps : list jsstring),
    let final := fold_left splitStep s (mkSplit d cur ps) in
    pushCurrent (current final) (params final)
    = ps ++ filter (fun x => negb (isEmpty x))
                   (map trim (attach cur (segmentsFrom d s))).
Proof.
  induction s as [| c t IH]; intros d cur ps; cbv zeta.
  - cbn [fold_left segmentsFrom attach map current params].
    rewrite app_nil_r. apply pushCurrent_filter.
  - cbn [fold_left segmentsFrom]. cbv zeta in IH.
    remember (splitStep (mkSplit d cur ps) c) as s1 eqn:E1.
    unfold splitStep in E1. cbn [depth current params] in E1.
    destruct (opens c) eqn:Eo; [subst s1 | destruct (closes c) eqn:Ecl; [subst s1 |]].
    + assert (Ec : char_eqb c comma = false).
      { destruct (char_eqb c comma) eqn:Ec; [| reflexivity].
        apply N.eqb_eq in Ec. subst c. discriminate. }
      rewrite Ec. cbn [andb]. rewrite IH. unfold depthAfter. rewrite Eo.
      pose proof (segmentsFrom_nonempty t (d + 1)) as Hne.
      destruct (segmentsFrom (d + 1) t) as [| h r]; [congruence |].
      cbn [attach]. now rewrite <- app_assoc.
    + assert (Ec : char_eqb c comma = false).
      { destruct (char_eqb c comma) eqn:Ec; [| reflexivity].
        apply N.eqb_eq in Ec. subst c. discriminate. }
      rewrite Ec. cbn [andb]. rewrite IH. unfold depthAfter. rewrite Eo, Ecl.
      pose proof (segmentsFrom_nonempty t (d - 1)) as Hne.
      destruct (segmentsFrom (d - 1) t) as [| h r]; [congruence |].
      cbn [attach]. now rewrite <- app_assoc.
    + destruct (char_eqb c comma && (d =? 0)%Z) eqn:E; subst s1.
      * rewrite IH. rewrite pushCurrent_filter, <- app_assoc.
        f_equal. cbn [attach map app]. rewrite app_nil_r.
        pose proof (segmentsFrom_nonempty t d) as Hne.
        destruct (segmentsFrom d t) as [| h r]; [congruence |].
        cbn [attach map app filter].
        destruct (negb (isEmpty (trim cur))); reflexivity.
      * rewrite IH. unfold depthAfter. rewrite Eo, Ecl.
        pose proof (segmentsFrom_nonempty t d) as Hne.
        destruct (segmentsFrom d t) as [| h r]; [congruence |].
        cbn [attach]. now rewrite <- app_assoc.
Qed.

(** The loop of extractParams splits the list at the commas of depth zero,
    trims the segments and drops the blank ones. *)
Lemma splitParams_segments (s : jsstring) :
  splitParams s = filter (fun x => negb (isEmpty x)) (map trim (segments s)).
Proof.
  unfold splitParams. rewrite (split_loop_segments s 0 [] []).
  cbn [app attach]. unfold segments.
  pose proof (segmentsFrom_nonempty s 0) as Hne.
  destruct (segmentsFrom 0 s) as [| h r]; [congruence |].
  cbn [attach app].
  reflexivity.
Qed.

(** Where the pattern of the parameter list matches: at the first opening
    parenthesis, up to the first closing one after it. *)
Lemma matches_parens (s s' : st) :
  matches parensRe s s' ->
  exists inner, todo s = lparen :: inner ++ rparen :: todo s'.
Proof.
  unfold parensRe. cbn [seqs matches].
  intros [m1 [H1 [m2 [[m' [Hs ->]] H2]]]].
  apply matches_chr_iff in H1. destruct H1 as [c [Hc [H1 _]]].
  apply star_chr_iff in Hs. destruct Hs as [w [_ [Hs _]]].
  apply matches_chr_iff in H2. destruct H2 as [c' [Hc' [H2 _]]].
  cbn [set_cap todo] in H2.
  apply N.eqb_eq in Hc, Hc'. subst c c'.
  exists w. rewrite H1. cbn [app]. rewrite Hs, H2. reflexivity.
Qed.

Lemma exec_parens_none (line : jsstring) :
  (forall pre inner post, line <> pre ++ lparen :: inner ++ rparen :: post) ->
  exec parensRe line = None.
Proof.
  intros H. apply exec_none_test, test_false_iff.
  intros pre post s' E Hm. apply matches_parens in Hm.
  destruct Hm as [inner Hm]. cbn [at_pos todo] in Hm.
  apply (H pre inner (todo s')). now rewrite E, Hm.
Qed.

Lemma not_in_all (c : char) (l : jsstring) (p : char -> bool) :
  (forall x, p x = false -> x = c) -> ~ In c l ->
  Forall (fun x => p x = true) l.
Proof.
  intros Hp Hn. apply Forall_forall. intros x Hx.
  destruct (p x) eqn:E; [reflexivity |].
  apply Hp in E. subst. contradiction.
Qed.

Lemma none_of_rparen (x : char) : none_of ")" x = false -> x = rparen.
Proof.
  unfold none_of. cbn. rewrite orb_false_r. intros H.
  apply negb_false_iff, N.eqb_eq in H. exact H.
Qed.

Lemma exec_parens (pre inner post : jsstring) :
  ~ In lparen pre -> ~ In rparen inner ->
  exists m, exec parensRe (pre ++ lparen :: inner ++ rparen :: post) = Some m
            /\ m_group 1 m = Some inner.
Proof.
  intros Hpre Hin. unfold exec.
  rewrite exec_from_skip.
  - eexists. split.
    + apply exec_from_leads. unfold parensRe. cbn [seqs].
      eapply leads_seq; [apply (leads_chr (char_eqb lparen)); reflexivity |].
      eapply leads_seq.
      * apply leads_grp. apply leads_star.
        -- apply (not_in_all rparen); [apply none_of_rparen | exact Hin].
        -- reflexivity.
      * apply (leads_chr (char_eqb rparen)). reflexivity.
    + unfold m_group. cbn [m_end caps set_cap cap_lookup Nat.eqb].
      f_equal. apply moved_captured. apply moved_to.
  - intros p1 x p2 E. apply run_seq_chr_stops. cbn [stops].
    apply N.eqb_neq. intros <-. apply Hpre. rewrite E.
    apply in_or_app. right. now left.
Qed.

(** C10.  Every parameter returned has a name that is not empty.  A line with
    no parenthesized group gives no parameter, and so does a line whose first
    group is empty or white space.  The parameters returned are, in the order
    of the list between the parentheses, those of its segments between the
    commas of depth zero that are not blank and give a name. *)
Theorem extractParams_shape (line : jsstring) :
  Forall (fun p => name p <> []) (extractParams line) /\
  ((forall pre inner post, line <> pre ++ lparen :: inner ++ rparen :: post) ->
   extractParams line = []) /\
  (forall pre inner post,
     line = pre ++ lparen :: inner ++ rparen :: post ->
     ~ In lparen pre -> ~ In rparen inner ->
     (Forall (fun c => is_space c = true) inner -> extractParams line = []) /\
     extractParams line
     = filter named
         (map toParam
            (filter (fun x => negb (isEmpty x))
                    (map trim (segments (trim inner)))))).
Proof.
  split; [| split].
  - unfold extractParams. destruct (exec parensRe line); [| constructor].
    destruct (isEmpty _); [constructor |].
    apply Forall_forall. intros p Hp. apply filter_In in Hp.
    destruct Hp as [_ Hp]. destruct (name p); [discriminate | discriminate].
  - intros H. unfold extractParams. now rewrite exec_parens_none.
  - intros pre inner post -> Hpre Hin.
    destruct (exec_parens pre inner post Hpre Hin) as [m [Em Hg]].
    unfold extractParams. rewrite Em, Hg. cbn [ToString]. split.
    + intros Hsp. apply trim_empty_iff in Hsp. now rewrite Hsp.
    + destruct (trim inner) as [| c t] eqn:Et; [reflexivity |].
      cbn [isEmpty]. now rewrite splitParams_segments.
Qed.

(** A declaration with a generic type, a default value, a destructured
    parameter and a parameter with no type. *)
Example extractParams_example :
  extractParams
    (js "merge(a: number, b?: Map<string, number> = x, { c, d }: Point, e) {")
  = [mkParam (js "a") (js "number");
     mkParam (js "b") (js "Map<string, number>");
     mkParam (js "destructured") (js "Point");
     mkParam (js "e") (js "unknown")]
  /\ segments (js "a: number, b?: Map<string, number> = x, { c, d }: Point, e")
     = [js "a: number"; js " b?: Map<string, number> = x";
        js " { c, d }: Point"; js " e"].
Proof. split; vm_compute; reflexivity. Qed.

(** ** getJsDocInfo: the lines it takes for a documentation block *)

Lemma startsWith_iff (s p : jsstring) :
  startsWith s p = true <-> exists t, s = p ++ t.
Proof.
  revert s. induction p as [| x p IH]; intros s; destruct s as [| y s]; simpl.
  - split; [intros _; now exists [] | reflexivity].
  - split; [intros _; now exists (y :: s) | reflexivity].
  - split; [discriminate | intros [t H]; discriminate].
  - rewrite andb_true_iff, IH. split.
    + intros [E [t ->]]. apply N.eqb_eq in E. subst. eauto.
    + intros [t [= -> ->]]. split; [apply N.eqb_refl | eauto].
Qed.

(** A line is its leading white space and the rest, which does not begin
    with white space. *)
Lemma trimStart_split (l : jsstring) :
  exists w, Forall (fun c => is_space c = true) w /\ l = w ++ trimStart l.
Proof.
  unfold trimStart. induction l as [| c l [w [Hw E]]]; simpl.
  - exists []. split; [constructor | reflexivity].
  - destruct (is_space c) eqn:Ec.
    + exists (c :: w). split; [now constructor | simpl; now rewrite <- E].
    + exists []. split; [constructor | reflexivity].
Qed.

Lemma trimStart_app (w t : jsstring) :
  Forall (fun c => is_space c = true) w -> stops is_space t ->
  trimStart (w ++ t) = t.
Proof.
  unfold trimStart. induction 1 as [| c w Hc Hw IH]; intros Ht; simpl.
  - destruct t as [| x t]; [reflexivity |]. simpl in *. now rewrite Ht.
  - rewrite Hc. auto.
Qed.

Lemma matches_anchored (p : jsstring) (k : re) (pre post : jsstring) (s' : st) :
  matches (anchored p k) (at_pos pre post) s' ->
  pre = [] /\ exists w t, Forall (fun c => is_space c = true) w
                          /\ post = w ++ p ++ t.
Proof.
  unfold anchored. cbn [matches].
  intros [m1 [[Hb ->] [m2 [Hs [m3 [Hl _]]]]]].
  cbn [at_pos seen] in Hb. split.
  - destruct pre as [| x pre]; [reflexivity |].
    apply (f_equal (@length char)) in Hb. simpl in Hb.
    rewrite length_app in Hb. simpl in Hb. lia.
  - apply star_chr_iff in Hs. destruct Hs as [w [Hw [Hs _]]].
    apply matches_lit_iff in Hl. destruct Hl as [Hl _].
    exists w, (todo m3). split; [assumption |].
    cbn [at_pos todo] in Hs. now rewrite Hs, Hl.
Qed.

(** Such a pattern matches only a line that begins, after white space, with
    the text. *)
Lemma test_anchored (p : jsstring) (k : re) (c : char) (p' l : jsstring) :
  p = c :: p' -> is_space c = false ->
  test (anchored p k) l = true -> startsWith (trimStart l) p = true.
Proof.
  intros -> Hc H. apply test_true_iff in H.
  destruct H as [pre [post [s' [E H]]]].
  apply matches_anchored in H. destruct H as [-> [w [t [Hw ->]]]].
  subst l. cbn [app]. rewrite trimStart_app; auto.
  apply startsWith_iff. now exists t.
Qed.

(** When what follows the text always matches, it matches every such line. *)
Lemma test_anchored_iff (p : jsstring) (k : re) (c : char) (p' l : jsstring) :
  p = c :: p' -> is_space c = false ->
  (forall s, exists s', matches k s s') ->
  test (anchored p k) l = startsWith (trimStart l) p.
Proof.
  intros Hp Hc Hk.
  destruct (startsWith (trimStart l) p) eqn:E.
  - apply startsWith_iff in E. destruct E as [t E].
    destruct (trimStart_split l) as [w [Hw El]]. rewrite E in El.
    apply test_true_iff. exists [], l.
    destruct (Hk (mk_st (rev (w ++ p)) t [])) as [s' Hs'].
    exists s'. split; [reflexivity |].
    unfold anchored. cbn [matches]. exists (at_pos [] l).
    split; [now split |].
    exists (mk_st (rev w) (p ++ t) []). split.
    + apply star_chr_iff. exists w. split; [assumption |].
      unfold at_pos. rewrite El. pose proof (moved_to [] (p ++ t) [] w) as M.
      now rewrite app_nil_r in M.
    + exists (mk_st (rev (w ++ p)) t []). split; [| assumption].
      apply matches_lit_iff. rewrite rev_app_distr. apply moved_to.
  - destruct (test (anchored p k) l) eqn:T; [| reflexivity].
    apply (test_anchored p k c p' l Hp Hc) in T. congruence.
Qed.

Lemma test_ext (r1 r2 : re) (l : jsstring) :
  (forall s s', matches r1 s s' <-> matches r2 s s') -> test r1 l = test r2 l.
Proof.
  intros H. destruct (test r2 l) eqn:E.
  - apply test_true_iff in E. apply test_true_iff.
    destruct E as [pre [post [s' [El Hm]]]]. exists pre, post, s'.
    split; [assumption | now apply H].
  - destruct (test r1 l) eqn:E1; [| reflexivity].
    apply test_true_iff in E1. destruct E1 as [pre [post [s' [El Hm]]]].
    assert (test r2 l = true) by (apply test_true_iff; exists pre, post, s';
      split; [assumption | now apply H]).
    congruence.
Qed.

Lemma jsDocStart_iff (l : jsstring) : test jsDocStartRe l = beginsWith "/**" l.
Proof.
  unfold beginsWith.
  rewrite <- (test_anchored_iff (js "/**") Eps 47%N (js "**") l eq_refl eq_refl).
  - apply test_ext. intros s s'. unfold jsDocStartRe, anchored, lit.
    cbn [seqs matches]. split.
    + intros [m1 [H1 [m2 [H2 H3]]]]. exists m1. split; [assumption |].
      exists m2. split; [assumption |]. exists s'. now split.
    + intros [m1 [H1 [m2 [H2 [m3 [H3 ->]]]]]]. exists m1. split; [assumption |].
      exists m2. now split.
  - intros s. exists s. reflexivity.
Qed.

Lemma commentStart_iff (l : jsstring) : test commentStartRe l = beginsWith "/*" l.
Proof.
  unfold beginsWith.
  rewrite <- (test_anchored_iff (js "/*") Eps 47%N (js "*") l eq_refl eq_refl).
  - apply test_ext. intros s s'. unfold commentStartRe, anchored, lit.
    cbn [seqs matches]. split.
    + intros [m1 [H1 [m2 [H2 H3]]]]. exists m1. split; [assumption |].
      exists m2. split; [assumption |]. exists s'. now split.
    + intros [m1 [H1 [m2 [H2 [m3 [H3 ->]]]]]]. exists m1. split; [assumption |].
      exists m2. now split.
  - intros s. exists s. reflexivity.
Qed.

Lemma blockMiddle_iff (l : jsstring) : test blockMiddleRe l = beginsWith "*" l.
Proof.
  unfold beginsWith.
  apply (test_anchored_iff (js "*") (Star space) 42%N [] l eq_refl eq_refl).
  intros s. exists s. constructor.
Qed.

Lemma singleLine_begins (l : jsstring) :
  test singleLineRe l = true -> beginsWith "/**" l = true.
Proof.
  apply (test_anchored (js "/**")
           (seqs [Star dot; lit "*/"; Star space; Eol false]) 47%N (js "**") l
           eq_refl eq_refl).
Qed.

Lemma blockEnd_begins (l : jsstring) :
  test blockEndRe l = true -> beginsWith "*" l = true.
Proof.
  intros H.
  apply (test_anchored (js "*/") (seqs [Star space; Eol false]) 42%N (js "/") l
           eq_refl eq_refl) in H.
  apply startsWith_iff in H. destruct H as [t H].
  unfold beginsWith. rewrite H. reflexivity.
Qed.

(** A decorator line begins, after white space, with the at-sign. *)
Lemma decorator_begins (l : jsstring) :
  test decoratorRe l = true -> beginsWith "@" l = true.
Proof.
  apply (test_anchored (js "@")
           (seqs [Chr is_upper; plus word; Star space; Chr (one_of "({")])
           64%N [] l eq_refl eq_refl).
Qed.

Lemma begins_at_excludes (l : jsstring) :
  beginsWith "@" l = true ->
  beginsWith "*" l = false /\ beginsWith "/**" l = false.
Proof.
  unfold beginsWith. intros H. apply startsWith_iff in H.
  destruct H as [t ->]. split; reflexivity.
Qed.

Lemma begins_star_excludes (l : jsstring) :
  beginsWith "*" l = true ->
  beginsWith "/**" l = false /\ beginsWith "/*" l = false.
Proof.
  unfold beginsWith. intros H. apply startsWith_iff in H.
  destruct H as [t ->]. split; reflexivity.
Qed.

Lemma decorator_not_blank (l : jsstring) :
  isDecorator l = true -> isBlank l = false.
Proof.
  intros H. apply decorator_begins in H. unfold beginsWith in H.
  apply startsWith_iff in H. destruct H as [t H].
  unfold isBlank. destruct (trim l) eqn:E; [| reflexivity].
  apply trim_empty_iff in E. apply dropWhile_nil_iff in E.
  unfold trimStart in H. rewrite E in H. discriminate.
Qed.

(** Where the loops stop. *)
Lemma skipBlank_stop (lines : list jsstring) (fuel : nat) :
  forall j, rounds_down j <= fuel -> (j < len lines)%Z ->
  exists j',
    result (skipBlank fuel lines j) = Ok j' /\ (j' <= j)%Z /\
    (forall i l, (j' < i <= j)%Z -> get lines i = Some l -> isBlank l = true) /\
    ((0 <= j')%Z -> exists l, get lines j' = Some l /\ isBlank l = false).
Proof.
  induction fuel as [| f IH]; intros j Hf Hj.
  - exists j. cbn. unfold rounds_down in Hf.
    repeat split; intros; lia.
  - rewrite skipBlank_step. destruct (Z.leb_spec 0 j) as [H0 | H0].
    + destruct (get_in_range lines j ltac:(lia)) as [l Hl]. rewrite Hl.
      change (isEmpty (trim l)) with (isBlank l).
      destruct (isBlank l) eqn:El.
      * destruct (IH (j - 1)%Z ltac:(unfold rounds_down in *; lia) ltac:(lia))
          as [j' [E [Hle [Hbl Hst]]]].
        exists j'. split; [assumption |]. split; [lia |]. split; [| assumption].
        intros i x Hi Hx. destruct (Z.eq_dec i j) as [-> | Hne].
        -- rewrite Hl in Hx. injection Hx as <-. exact El.
        -- apply (Hbl i x); [lia | assumption].
      * exists j. split; [reflexivity |]. split; [lia |].
        split; [intros; lia |]. intros _. exists l. now split.
    + exists j. repeat split; intros; lia.
Qed.

Lemma skipDecorators_stop (lines : list jsstring) (fuel : nat) :
  forall j, rounds_down j <= fuel -> (j < len lines)%Z ->
  exists j',
    result (skipDecorators fuel lines j) = Ok j' /\ (j' <= j)%Z /\
    (forall i l, (j' < i <= j)%Z -> get lines i = Some l -> isDecorator l = true) /\
    ((0 <= j')%Z -> exists l, get lines j' = Some l /\ isDecorator l = false).
Proof.
  induction fuel as [| f IH]; intros j Hf Hj.
  - exists j. cbn. unfold rounds_down in Hf.
    repeat split; intros; lia.
  - rewrite skipDecorators_step. destruct (Z.leb_spec 0 j) as [H0 | H0].
    + destruct (get_in_range lines j ltac:(lia)) as [l Hl]. rewrite Hl.
      change (test_of decoratorRe (Some l)) with (isDecorator l).
      destruct (isDecorator l) eqn:El.
      * destruct (IH (j - 1)%Z ltac:(unfold rounds_down in *; lia) ltac:(lia))
          as [j' [E [Hle [Hbl Hst]]]].
        exists j'. split; [assumption |]. split; [lia |]. split; [| assumption].
        intros i x Hi Hx. destruct (Z.eq_dec i j) as [-> | Hne].
        -- rewrite Hl in Hx. injection Hx as <-. exact El.
        -- apply (Hbl i x); [lia | assumption].
      * exists j. split; [reflexivity |]. split; [lia |].
        split; [intros; lia |]. intros _. exists l. now split.
    + exists j. repeat split; intros; lia.
Qed.

(** The walk back gives up at an opener that is not that of a documentation
    block, and when it finds no opener. *)
Lemma walkBack_rejects (lines : list jsstring) (e k : Z) (c : jsstring)
  (fuel : nat) :
  forall j,
    (0 <= k <= j)%Z -> (j < len lines)%Z ->
    get lines k = Some c ->
    beginsWith "/*" c = true -> beginsWith "/**" c = false ->
    (forall i l, (k < i <= j)%Z -> get lines i = Some l ->
                 beginsWith "/**" l = false) ->
    result (walkBack fuel lines e j) = Ok notFound.
Proof.
  induction fuel as [| f IH]; intros j Hk Hj Hc Hc1 Hc2 Hmid; [reflexivity |].
  rewrite walkBack_step. destruct (Z.leb_spec 0 j); [| reflexivity].
  destruct (get_in_range lines j ltac:(lia)) as [l Hl]. rewrite Hl.
  unfold test_of. cbn [ToString]. rewrite jsDocStart_iff, commentStart_iff.
  destruct (Z.eq_dec j k) as [-> | Hne].
  - rewrite Hc in Hl. injection Hl as <-. now rewrite Hc2, Hc1.
  - rewrite (Hmid j l ltac:(lia) Hl).
    destruct (beginsWith "/*" l); [reflexivity |].
    apply IH; auto; try lia. intros i x Hi. apply Hmid. lia.
Qed.

Lemma walkBack_finds_none (lines : list jsstring) (e : Z) (fuel : nat) :
  forall j,
    (j < len lines)%Z ->
    (forall i l, (0 <= i <= j)%Z -> get lines i = Some l ->
                 beginsWith "/**" l = false) ->
    result (walkBack fuel lines e j) = Ok notFound.
Proof.
  induction fuel as [| f IH]; intros j Hj Hall; [reflexivity |].
  rewrite walkBack_step. destruct (Z.leb_spec 0 j); [| reflexivity].
  destruct (get_in_range lines j ltac:(lia)) as [l Hl]. rewrite Hl.
  unfold test_of. cbn [ToString].
  rewrite jsDocStart_iff, commentStart_iff, (Hall j l ltac:(lia) Hl).
  destruct (beginsWith "/*" l); [reflexivity |].
  apply IH; [lia |]. intros i x Hi. apply Hall. lia.
Qed.

Lemma get_nth (lines : list jsstring) (n : nat) :
  get lines (Z.of_nat n) = nth_error lines n.
Proof.
  unfold get. destruct (Z.ltb_spec (Z.of_nat n) 0); [lia |].
  now rewrite Nat2Z.id.
Qed.

Lemma get_middle (top : list jsstring) (L : jsstring) (tl : list jsstring) :
  get (top ++ L :: tl) (len top) = Some L.
Proof.
  unfold len. rewrite get_nth, nth_error_app2 by lia.
  now rewrite Nat.sub_diag.
Qed.

Lemma get_between (top : list jsstring) (L : jsstring)
  (between rest : list jsstring) (i : Z) (l : jsstring) :
  (len top < i <= len top + len between)%Z ->
  get (top ++ L :: between ++ rest) i = Some l -> In l between.
Proof.
  unfold len. intros Hi. replace i with (Z.of_nat (Z.to_nat i)) by lia.
  rewrite get_nth, nth_error_app2 by lia.
  destruct (Z.to_nat i - length top) as [| k] eqn:Ek; [lia |].
  cbn [nth_error]. rewrite nth_error_app1 by lia. apply nth_error_In.
Qed.

Lemma get_top (top tl : list jsstring) (i : Z) (l : jsstring) :
  (0 <= i < len top)%Z -> get (top ++ tl) i = Some l -> get top i = Some l.
Proof.
  unfold len. intros Hi. replace i with (Z.of_nat (Z.to_nat i)) by lia.
  rewrite !get_nth, nth_error_app1 by lia. auto.
Qed.

(** The line the three loops stop at, when the lines between it and the
    target are blank lines and decorators: the first line above them, or a
    decorator among them. *)
Lemma loops_stop (top between rest : list jsstring) (L : jsstring) :
  Forall (fun l => isBlank l || isDecorator l = true) between ->
  isBlank L = false -> isDecorator L = false ->
  let lines := top ++ L :: between ++ rest in
  exists j X,
    result (getJsDocInfo lines (len (top ++ L :: between))) = classify lines j /\
    get lines j = Some X /\ (len top <= j < len lines)%Z /\
    (j = len top \/ isDecorator X = true).
Proof.
  intros Hbetween HL1 HL2 lines.
  assert (Hlen : len lines = (len top + 1 + len between + len rest)%Z).
  { unfold lines, len. rewrite !length_app. cbn [length].
    rewrite length_app. lia. }
  assert (Hidx : (len (top ++ L :: between) - 1 = len top + len between)%Z).
  { unfold len. rewrite length_app. cbn [length]. lia. }
  assert (HgL : get lines (len top) = Some L) by apply get_middle.
  assert (Hbt : forall i l, (len top < i <= len top + len between)%Z ->
                            get lines i = Some l ->
                            isBlank l || isDecorator l = true).
  { intros i l Hi Hg. apply get_between in Hg; [| assumption].
    rewrite Forall_forall in Hbetween. auto. }
  assert (Hnn : (0 <= len top)%Z /\ (0 <= len between)%Z /\ (0 <= len rest)%Z)
    by (unfold len; lia).
  set (j0 := (len top + len between)%Z) in *.
  destruct (skipBlank_stop lines (rounds_down j0) j0 (le_n _) ltac:(lia))
    as [j1 [E1 [Hle1 [Hsk1 Hst1]]]].
  assert (H1 : (len top <= j1)%Z).
  { destruct (Z.le_gt_cases (len top) j1); [assumption |].
    pose proof (Hsk1 (len top) L ltac:(lia) HgL). congruence. }
  destruct (skipDecorators_stop lines (rounds_down j1) j1 (le_n _) ltac:(lia))
    as [j2 [E2 [Hle2 [Hsk2 Hst2]]]].
  assert (H2 : (len top <= j2)%Z).
  { destruct (Z.le_gt_cases (len top) j2); [assumption |].
    pose proof (Hsk2 (len top) L ltac:(lia) HgL). congruence. }
  destruct (skipBlank_stop lines (rounds_down j2) j2 (le_n _) ltac:(lia))
    as [j3 [E3 [Hle3 [Hsk3 Hst3]]]].
  assert (H3 : (len top <= j3)%Z).
  { destruct (Z.le_gt_cases (len top) j3); [assumption |].
    pose proof (Hsk3 (len top) L ltac:(lia) HgL). congruence. }
  destruct (Hst3 ltac:(lia)) as [X [HgX HbX]].
  exists j3, X. split; [| split; [assumption | split; [lia |]]].
  - apply (getJsDocInfo_classify lines _ j1 j2 j3); [| assumption | assumption].
    rewrite Hidx. exact E1.
  - destruct (Z.eq_dec j3 (len top)) as [-> | Hne]; [now left | right].
    pose proof (Hbt j3 X ltac:(lia) HgX) as Hor. rewrite HbX in Hor.
    exact Hor.
Qed.

Lemma classify_plain (lines : list jsstring) (j : Z) (X : jsstring) :
  (0 <= j)%Z -> get lines j = Some X ->
  beginsWith "*" X = false -> beginsWith "/**" X = false ->
  classify lines j = Ok notFound.
Proof.
  intros Hj Hg Hs Hd. unfold classify.
  destruct (Z.ltb_spec j 0); [lia |]. rewrite Hg. unfold test_of. cbn [ToString].
  destruct (test singleLineRe X) eqn:E1.
  { apply singleLine_begins in E1. congruence. }
  destruct (test blockEndRe X) eqn:E2.
  { apply blockEnd_begins in E2. congruence. }
  now rewrite blockMiddle_iff, Hs, jsDocStart_iff, Hd.
Qed.

Lemma classify_star (lines : list jsstring) (j : Z) (X : jsstring) :
  (0 <= j)%Z -> get lines j = Some X -> beginsWith "*" X = true ->
  classify lines j = result (walkBack (rounds_down j) lines j j).
Proof.
  intros Hj Hg Hs. unfold classify.
  destruct (Z.ltb_spec j 0); [lia |]. rewrite Hg. unfold test_of. cbn [ToString].
  destruct (test singleLineRe X) eqn:E1.
  { apply singleLine_begins in E1.
    destruct (begins_star_excludes X Hs). congruence. }
  now rewrite blockMiddle_iff, Hs, orb_true_r.
Qed.

Lemma classify_decorator (lines : list jsstring) (j : Z) (X : jsstring) :
  (0 <= j)%Z -> get lines j = Some X -> isDecorator X = true ->
  classify lines j = Ok notFound.
Proof.
  intros Hj Hg Hd. apply decorator_begins in Hd.
  destruct (begins_at_excludes X Hd). now apply (classify_plain lines j X).
Qed.

(** C3, as the code has it.  Let [L] be the first line above the target that
    is neither blank nor a decorator, the lines between being blank lines and
    decorators.  When [L] does not begin, after white space, with a star or
    with the opener of a documentation block, no block is found.  When [L]
    begins with a star, no block is found if no line above begins with the
    opener of a documentation block, or if, going up from [L], a line that
    begins with the opener of a plain comment comes before any such line. *)
Theorem unassociated_block_rejected (top between rest : list jsstring)
  (L : jsstring) :
  Forall (fun l => isBlank l || isDecorator l = true) between ->
  isBlank L = false -> isDecorator L = false ->
  let lines := top ++ L :: between ++ rest in
  let found := result (getJsDocInfo lines (len (top ++ L :: between))) in
  (beginsWith "*" L = false -> beginsWith "/**" L = false ->
   found = Ok notFound) /\
  (beginsWith "*" L = true ->
   (Forall (fun l => beginsWith "/**" l = false) top -> found = Ok notFound) /\
   (forall above c mid,
      top = above ++ c :: mid ->
      beginsWith "/*" c = true -> beginsWith "/**" c = false ->
      Forall (fun l => beginsWith "/**" l = false) mid ->
      found = Ok notFound)).
Proof.
  intros Hb HL1 HL2 lines found.
  destruct (loops_stop top between rest L Hb HL1 HL2) as [j [X [E [Hg [Hj Hor]]]]].
  fold lines in E, Hg, Hj. unfold found. rewrite E. clear E found.
  assert (H0 : (0 <= len top)%Z) by (unfold len; lia).
  assert (HgL : get lines (len top) = Some L) by apply get_middle.
  split.
  - intros Hs Hd. destruct Hor as [-> | HX].
    + apply (classify_plain lines _ L); auto.
    + apply (classify_decorator lines j X); auto; lia.
  - intros Hs. destruct (begins_star_excludes L Hs) as [HLd HLc].
    split.
    + intros Htop. destruct Hor as [-> | HX];
        [| apply (classify_decorator lines j X); auto; lia].
      rewrite (classify_star lines _ L) by auto.
      apply walkBack_finds_none; [lia |].
      intros i l Hi Hl. destruct (Z.eq_dec i (len top)) as [-> | Hne].
      * rewrite HgL in Hl. now injection Hl as <-.
      * apply get_top in Hl; [| lia].
        rewrite Forall_forall in Htop. apply Htop.
        unfold get in Hl. destruct (i <? 0)%Z; [discriminate |].
        eapply nth_error_In; eauto.
    + intros above c mid -> Hc1 Hc2 Hmid. destruct Hor as [-> | HX];
        [| apply (classify_decorator lines j X); auto; lia].
      rewrite (classify_star lines _ L) by auto.
      apply (walkBack_rejects lines _ (len above) c); auto.
      * unfold len. rewrite length_app. cbn [length]. lia.
      * lia.
      * unfold lines. rewrite <- app_assoc. apply get_middle.
      * intros i l Hi Hl.
        destruct (Z.eq_dec i (len (above ++ c :: mid))) as [-> | Hne].
        -- rewrite HgL in Hl. now injection Hl as <-.
        -- unfold lines in Hl. rewrite <- app_assoc in Hl. cbn [app] in Hl.
           assert (Hlm : len (above ++ c :: mid) = (len above + 1 + len mid)%Z).
           { unfold len. rewrite length_app. cbn [length]. lia. }
           apply (get_between above c mid (L :: between ++ rest)) in Hl;
             [| lia].
           rewrite Forall_forall in Hmid. auto.
Qed.

(** C3 fails as stated: the first line above the declaration that is neither
    blank nor a decorator is a line of code, outside any comment (the block
    of the first line is closed on that line), and a block is found. *)
Lemma stray_star_found :
  isBlank (js "    * height;") = false /\
  isDecorator (js "    * height;") = false /\
  test singleLineRe (js "/** Width of the box. */") = true /\
  result (getJsDocInfo strayStarFile 3)
  = Ok (mkInfo true false 0 2
          (js "/** Width of the box. */" ++ nl ++ js "const area = width" ++ nl
           ++ js "    * height;")).
Proof. repeat split; vm_compute; reflexivity. Qed.

Lemma unassociated_block_witness :
  result (getJsDocInfo
            (plainCommentTop ++ js "   */" :: plainCommentBetween
             ++ [js "  onClick(): void {"])
            (len (plainCommentTop ++ js "   */" :: plainCommentBetween)))
  = Ok notFound.
Proof.
  refine (proj2 (proj2 (unassociated_block_rejected plainCommentTop
            plainCommentBetween [js "  onClick(): void {"] (js "   */") _ _ _) _)
            [] (js "  /* a plain comment") [js "   * on two lines"] _ _ _ _).
  - repeat constructor; vm_compute; reflexivity.
  - vm_compute; reflexivity.
  - vm_compute; reflexivity.
  - vm_compute; reflexivity.
  - reflexivity.
  - vm_compute; reflexivity.
  - vm_compute; reflexivity.
  - repeat constructor; vm_compute; reflexivity.
Defined.

(** ** checkParamTags *)

(** *** Classes of code units *)

Lemma is_word_range (c : char) :
  is_word c = true <->
  (97 <= c <= 122 \/ 65 <= c <= 90 \/ 48 <= c <= 57 \/ c = 95)%N.
Proof.
  unfold is_word, is_alnum_, is_lower, is_upper, is_digit, in_range, char_eqb.
  rewrite !orb_true_iff, !andb_true_iff, !N.leb_le, N.eqb_eq. tauto.
Qed.

Lemma is_space_range (c : char) :
  is_space c = true -> (c <= 32 \/ 160 <= c)%N.
Proof.
  unfold is_space, in_range, char_eqb.
  rewrite !orb_true_iff, !andb_true_iff, !N.leb_le, !N.eqb_eq. lia.
Qed.

Lemma word_not_space (c : char) : is_word c = true -> is_space c = false.
Proof.
  intros H. apply is_word_range in H.
  destruct (is_space c) eqn:E; [| reflexivity].
  apply is_space_range in E. lia.
Qed.



(** *** Where a text occurs, letter case apart *)

Lemma positions_ci_in (p : jsstring) (pre post : jsstring) (i : nat) :
  startsWith_ci post p = true ->
  In (i + length pre) (positions_ci p (pre ++ post) i).
Proof.
  intros H. revert i. induction pre as [| c pre IH]; intros i.
  - cbn [app length]. rewrite Nat.add_0_r.
    destruct post; cbn [positions_ci]; rewrite H; now left.
  - cbn [app length positions_ci]. apply in_or_app. right.
    replace (i + S (length pre)) with (S i + length pre) by lia. apply IH.
Qed.

Lemma startsWith_ci_of (s p : jsstring) :
  startsWith s p = true -> startsWith_ci s p = true.
Proof.
  intros H. apply startsWith_iff in H. destruct H as [t ->].
  unfold startsWith_ci. rewrite map_app. apply startsWith_iff. eauto.
Qed.

Lemma split_same_length {A} (a b c d : list A) :
  a ++ b = c ++ d -> length a = length c -> a = c /\ b = d.
Proof.
  revert c. induction a as [| x a IH]; intros [| y c] E L;
    try discriminate; cbn in *.
  - now split.
  - injection E as -> E. injection L as L.
    destruct (IH c E L) as [-> ->]. now split.
Qed.


(** *** A tag left behind by a renaming *)

Lemma jsstring_eqb_eq (a b : jsstring) : jsstring_eqb a b = true <-> a = b.
Proof.
  revert b. induction a as [| x a IH]; intros [| y b]; cbn [jsstring_eqb];
    try (split; [discriminate | discriminate]); [now split |].
  rewrite andb_true_iff, IH. unfold char_eqb. rewrite N.eqb_eq.
  split; [intros [-> ->]; reflexivity | intros [= -> ->]; now split].
Qed.

Lemma jsstring_eqb_neq (a b : jsstring) : a <> b -> jsstring_eqb a b = false.
Proof.
  intros H. destruct (jsstring_eqb a b) eqn:E; [| reflexivity].
  apply jsstring_eqb_eq in E. contradiction.
Qed.

Lemma Forall_forallb (p : char -> bool) (l : jsstring) :
  Forall (fun c => p c = true) l -> forallb p l = true.
Proof. intros H. apply forallb_forall. now apply Forall_forall. Qed.

Lemma identifier_shape (s : jsstring) :
  identifier s ->
  exists c w, s = c :: w /\ is_word c = true
              /\ Forall (fun x => is_word x = true) w.
Proof.
  intros [Hne Hw]. destruct s as [| c w]; [congruence |].
  inversion Hw; subst. eauto.
Qed.

Lemma leads_seq_then (a b : re) (s k : st) (P : st -> Prop) :
  leads a s k -> (exists s', leads b k s' /\ P s') ->
  exists s', leads (Seq a b) s s' /\ P s'.
Proof.
  intros Ha [s' [Hb HP]]. exists s'. split; [| assumption].
  now apply leads_seq with k.
Qed.

(** An optional code unit takes at most that code unit and captures nothing. *)
Lemma leads_opt_chr (p : char -> bool) (sn t : jsstring)
  (cp : list (nat * jsstring)) :
  exists s', leads (opt (Chr p)) (mk_st sn t cp) s'
             /\ caps s' = cp /\ exists k, t = k ++ todo s'.
Proof.
  destruct t as [| c t].
  - exists (mk_st sn [] cp). split; [| split; [reflexivity | now exists []]].
    apply leads_alt_right; [reflexivity | apply leads_eps].
  - destruct (p c) eqn:Hc.
    + exists (mk_st (c :: sn) t cp).
      split; [| split; [reflexivity | now exists [c]]].
      apply leads_alt_left. now apply leads_chr.
    + exists (mk_st sn (c :: t) cp).
      split; [| split; [reflexivity | now exists []]].
      apply leads_alt_right; [now apply run_chr_stops | apply leads_eps].
Qed.

Section StaleTag.

Variable compileName : jsstring -> option re.
Hypothesis Hcompile : reads_word_names compileName.

Variables before ws1 ty ws2 m after n : jsstring.

Let content : jsstring := before ++ paramTag ws1 ty ws2 m ++ after.

Hypothesis Hws1 : Forall (fun c => is_space c = true) ws1.
Hypothesis Hws2 : Forall (fun c => is_space c = true) ws2.
Hypothesis Hty : ~ In 125%N ty.
Hypothesis Hm : identifier m.
Hypothesis Hn : identifier n.
Hypothesis Hafter : stops is_word after.
Hypothesis Honly : positions_ci (js "@param") content 0 = [length before].
Hypothesis Hdiff : map canon n <> map canon m.

(** The text occurs at the tag and nowhere else. *)
Lemma only_at_tag (pre post : jsstring) :
  content = pre ++ post -> startsWith_ci post (js "@param") = true ->
  pre = before /\ post = paramTag ws1 ty ws2 m ++ after.
Proof using Honly.
  intros E H. pose proof (positions_ci_in (js "@param") pre post 0 H) as Hin.
  rewrite <- E, Honly in Hin. cbn [In plus] in Hin.
  destruct Hin as [Hl | []].
  symmetry in E. unfold content in E.
  apply split_same_length in E; [| lia]. exact E.
Qed.

Lemma not_at_tag (pre post : jsstring) :
  content = pre ++ post -> pre <> before ->
  startsWith post (js "@param") = false.
Proof using Honly.
  intros E Hne. destruct (startsWith post (js "@param")) eqn:H; [| reflexivity].
  apply startsWith_ci_of in H. destruct (only_at_tag pre post E H). contradiction.
Qed.

Lemma afterType_stops (t : jsstring) : afterType m after t -> stops is_space t.
Proof using Hm.
  intros [-> | [r ->]]; [| reflexivity].
  destruct (identifier_shape m Hm) as [c [w [Em [Hc _]]]].
  rewrite Em. cbn [app stops]. now apply word_not_space.
Qed.




Lemma separator_not_word (c : char) : separator c = true -> is_word c = false.
Proof.
  unfold separator, char_eqb. rewrite orb_true_iff, N.eqb_eq. intros H.
  destruct (is_word c) eqn:E; [| reflexivity].
  pose proof (word_not_space c E). apply is_word_range in E.
  destruct H as [H | ->]; [congruence | lia].
Qed.




Lemma tag_text :
  paramTag ws1 ty ws2 m ++ after
  = js "@param" ++ ws1 ++ 123%N :: ty ++ 125%N :: ws2 ++ m ++ after.
Proof using Type.
  unfold paramTag. rewrite <- !app_assoc. cbn [app]. do 2 f_equal.
  rewrite <- !app_assoc. cbn [app]. do 2 f_equal. now rewrite <- app_assoc.
Qed.


(** The search for tags finds the one tag, and reads the name [m] in it. *)
Lemma tag_read (sn : jsstring) :
  exists s',
    leads docParamRe (mk_st sn (paramTag ws1 ty ws2 m ++ after) []) s'
    /\ caps s' = [(1, m)] /\ exists k, after = k ++ todo s'.
Proof using Hws1 Hws2 Hty Hm Hafter.
  rewrite tag_text. unfold docParamRe, lit. cbn [seqs].
  destruct (identifier_shape m Hm) as [m0 [m' [Em [Hm0 Hm']]]].
  eapply leads_seq_then; [apply leads_lit |].
  eapply leads_seq_then;
    [apply (leads_star is_space ws1); [exact Hws1 | reflexivity] |].
  eapply leads_seq_then.
  { apply leads_alt_left. unfold bracedRe. cbn [seqs].
    eapply leads_seq; [now apply leads_chr |].
    eapply leads_seq; [apply (leads_star (none_of "}") ty) | now apply leads_chr].
    - apply Forall_forall. intros c Hc. unfold none_of.
      change (js "}") with [125%N]. cbn [existsb]. rewrite orb_false_r.
      unfold char_eqb. destruct (N.eqb_spec c 125%N); [subst c; contradiction |].
      reflexivity.
    - reflexivity. }
  eapply leads_seq_then.
  { apply (leads_star is_space ws2); [exact Hws2 |].
    apply afterType_stops. now left. }
  eapply leads_seq_then.
  { apply leads_alt_right; [| apply leads_eps].
    change (ch "[") with (Chr (char_eqb 91%N)). apply run_chr_stops.
    rewrite Em. cbn [app stops]. unfold char_eqb.
    destruct (N.eqb_spec 91%N m0) as [F | F]; [| reflexivity].
    rewrite <- F in Hm0. discriminate Hm0. }
  replace (m ++ after) with (m0 :: m' ++ after) by now rewrite Em.
  eapply leads_seq_then;
    [apply (leads_grp_plus 1 is_word m0 m'); assumption |].
  rewrite <- Em. change (ch "]") with (Chr (char_eqb 93%N)).
  apply leads_opt_chr.
Qed.

(** The tags of the block: the one tag. *)
Lemma doc_names : jsDocParamNames content = [m].
Proof using Hws1 Hws2 Hty Hm Hafter Honly.
  unfold jsDocParamNames, matchAll.
  destruct (tag_read (rev before ++ [])) as [s' [HL [Hc [k Hk]]]].
  assert (E1 : exec_from docParamRe [] content
               = Some (mk_mtch (mk_st (rev before ++ [])
                                  (paramTag ws1 ty ws2 m ++ after) []) s')).
  { unfold content. rewrite exec_from_skip.
    - now apply exec_from_leads.
    - intros p1 x p2 Ep. unfold docParamRe, lit. cbn [seqs].
      apply run_lit_mismatch. cbn [todo].
      apply (not_at_tag p1).
      + unfold content. rewrite Ep, <- app_assoc. reflexivity.
      + intros F. rewrite F in Ep at 1. apply (f_equal (@length _)) in Ep.
        rewrite length_app in Ep. cbn [length] in Ep. lia. }
  assert (Hlen : length (todo s') < length (paramTag ws1 ty ws2 m ++ after)).
  { rewrite (length_app _ after), Hk, length_app. unfold paramTag.
    rewrite length_app. change (length (js "@param")) with 6. lia. }
  assert (En : exec_from docParamRe (seen s') (todo s') = None).
  { apply exec_from_none. intros pre post Ep.
    unfold docParamRe, lit. cbn [seqs]. apply run_lit_mismatch. cbn [todo].
    apply (not_at_tag (before ++ paramTag ws1 ty ws2 m ++ k ++ pre)).
    - unfold content. rewrite Hk, Ep, <- !app_assoc. reflexivity.
    - intros F. apply (f_equal (@length _)) in F. rewrite !length_app in F.
      unfold paramTag in F. rewrite length_app in F.
      change (length (js "@param")) with 6 in F. lia. }
  assert (Hpos : S (length content) = S (S (pred (length content)))).
  { unfold content, paramTag. rewrite !length_app.
    change (length (js "@param")) with 6. lia. }
  rewrite Hpos, (all_from_one _ _ _ _ _ E1 Hlen En).
  cbn [map]. unfold m_group. cbn [m_end]. rewrite Hc. reflexivity.
Qed.

End StaleTag.

Lemma wordNamesOnly_reads : reads_word_names wordNamesOnly.
Proof. intros nm H. unfold wordNamesOnly. now rewrite H. Qed.




(** ** getJsDocInfo: the block it finds *)

Lemma firstn_succ (lines : list jsstring) (k : nat) (x : jsstring) :
  nth_error lines k = Some x -> firstn (S k) lines = firstn k lines ++ [x].
Proof.
  revert k. induction lines as [| l lines IH]; intros [| k] H;
    try discriminate; cbn in *.
  - now injection H as ->.
  - now rewrite (IH k H).
Qed.

Lemma nth_error_below (lines : list jsstring) (k : nat) :
  k < length lines -> exists x, nth_error lines k = Some x.
Proof.
  intros H. destruct (nth_error lines k) as [x |] eqn:E; [eauto |].
  apply nth_error_None in E. lia.
Qed.

Lemma skipBlank_above (lines : list jsstring) (n : nat) :
  forall fuel,
    n <= length lines -> rounds_down (Z.of_nat n - 1) <= fuel ->
    result (skipBlank fuel lines (Z.of_nat n - 1))
    = Ok (len (skipWhile isBlank (rev (firstn n lines))) - 1)%Z.
Proof.
  induction n as [| k IH]; intros fuel Hn Hf.
  - cbn [firstn rev skipWhile len length]. destruct fuel; [reflexivity |].
    rewrite skipBlank_step. reflexivity.
  - destruct (nth_error_below lines k Hn) as [x Hx].
    rewrite (firstn_succ lines k x Hx), rev_app_distr. cbn [rev app skipWhile].
    destruct fuel as [| f]; [unfold rounds_down in Hf; lia |].
    rewrite skipBlank_step.
    replace (Z.of_nat (S k) - 1)%Z with (Z.of_nat k) by lia.
    destruct (Z.leb_spec 0 (Z.of_nat k)); [| lia].
    rewrite get_nth, Hx. fold (isBlank x). destruct (isBlank x).
    + apply IH; [lia | unfold rounds_down in *; lia].
    + f_equal. unfold len. cbn [length]. rewrite length_rev, length_firstn. lia.
Qed.

Lemma skipDecorators_above (lines : list jsstring) (n : nat) :
  forall fuel,
    n <= length lines -> rounds_down (Z.of_nat n - 1) <= fuel ->
    result (skipDecorators fuel lines (Z.of_nat n - 1))
    = Ok (len (skipWhile isDecorator (rev (firstn n lines))) - 1)%Z.
Proof.
  induction n as [| k IH]; intros fuel Hn Hf.
  - cbn [firstn rev skipWhile len length]. destruct fuel; [reflexivity |].
    rewrite skipDecorators_step. reflexivity.
  - destruct (nth_error_below lines k Hn) as [x Hx].
    rewrite (firstn_succ lines k x Hx), rev_app_distr. cbn [rev app skipWhile].
    destruct fuel as [| f]; [unfold rounds_down in Hf; lia |].
    rewrite skipDecorators_step.
    replace (Z.of_nat (S k) - 1)%Z with (Z.of_nat k) by lia.
    destruct (Z.leb_spec 0 (Z.of_nat k)); [| lia].
    rewrite get_nth, Hx.
    change (test_of decoratorRe (Some x)) with (isDecorator x).
    destruct (isDecorator x).
    + apply IH; [lia | unfold rounds_down in *; lia].
    + f_equal. unfold len. cbn [length]. rewrite length_rev, length_firstn. lia.
Qed.

(** What a loop leaves of the lines above is the lines above a line. *)
Lemma skipWhile_above (p : jsstring -> bool) (lines : list jsstring) (n : nat) :
  n <= length lines ->
  exists k, k <= n /\ skipWhile p (rev (firstn n lines)) = rev (firstn k lines).
Proof.
  induction n as [| n IH]; intros Hn.
  - exists 0. split; [lia | reflexivity].
  - destruct (nth_error_below lines n Hn) as [x Hx].
    rewrite (firstn_succ lines n x Hx), rev_app_distr. cbn [rev app skipWhile].
    destruct (p x).
    + destruct (IH ltac:(lia)) as [k [Hk E]]. exists k. split; [lia | exact E].
    + exists (S n). split; [lia |].
      now rewrite (firstn_succ lines n x Hx), rev_app_distr.
Qed.

Lemma len_above (lines : list jsstring) (k : nat) :
  k <= length lines -> len (rev (firstn k lines)) = Z.of_nat k.
Proof. intros H. unfold len. rewrite length_rev, length_firstn. lia. Qed.

(** The line that getJsDocInfo looks at is the first that the loops leave. *)
Lemma getJsDocInfo_above (lines : list jsstring) (index : Z) :
  (0 <= index <= len lines)%Z ->
  result (getJsDocInfo lines index)
  = classify lines (len (afterLoops (above lines index)) - 1).
Proof.
  intros Hi. unfold afterLoops, above. unfold len in Hi.
  set (n := Z.to_nat index).
  assert (Hn : n <= length lines) by lia.
  destruct (skipWhile_above isBlank lines n Hn) as [k1 [H1 E1]].
  rewrite E1.
  destruct (skipWhile_above isDecorator lines k1 ltac:(lia)) as [k2 [H2 E2]].
  rewrite E2.
  apply (getJsDocInfo_classify lines index (Z.of_nat k1 - 1) (Z.of_nat k2 - 1)).
  - replace (index - 1)%Z with (Z.of_nat n - 1)%Z by lia.
    rewrite skipBlank_above by (unfold rounds_down; lia).
    now rewrite E1, len_above by lia.
  - rewrite skipDecorators_above by (unfold rounds_down; lia).
    now rewrite E2, len_above by lia.
  - rewrite skipBlank_above by (unfold rounds_down; lia). reflexivity.
Qed.

Lemma skipWhile_app (p : jsstring -> bool) (a b : list jsstring) :
  Forall (fun l => p l = true) a -> skipWhile p (a ++ b) = skipWhile p b.
Proof.
  induction 1 as [| l a Hl _ IH]; [reflexivity |].
  cbn [app skipWhile]. now rewrite Hl.
Qed.

Lemma skipWhile_stop (p : jsstring -> bool) (l : jsstring)
  (t : list jsstring) :
  p l = false -> skipWhile p (l :: t) = l :: t.
Proof. intros H. cbn [skipWhile]. now rewrite H. Qed.

Lemma blank_not_decorator (l : jsstring) :
  isBlank l = true -> isDecorator l = false.
Proof.
  intros H. destruct (isDecorator l) eqn:E; [| reflexivity].
  apply decorator_not_blank in E. congruence.
Qed.

(** The loops go over blank lines, decorators and blank lines, and stop at a
    line that is neither. *)
Lemma afterLoops_runs (b1 ds b2 T : list jsstring) (L : jsstring) :
  Forall (fun l => isBlank l = true) b1 ->
  Forall (fun l => isDecorator l = true) ds ->
  Forall (fun l => isBlank l = true) b2 ->
  isBlank L = false -> isDecorator L = false ->
  afterLoops (rev b2 ++ rev ds ++ rev b1 ++ L :: T) = L :: T.
Proof.
  intros H1 Hd H2 HL1 HL2. unfold afterLoops.
  apply Forall_rev in H1, Hd, H2.
  rewrite (skipWhile_app isBlank _ _ H2).
  destruct (rev ds) as [| d ds'].
  - cbn [app]. rewrite (skipWhile_app isBlank _ _ H1).
    now rewrite (skipWhile_stop isBlank), (skipWhile_stop isDecorator),
      (skipWhile_stop isBlank).
  - assert (Hb : isBlank d = false)
      by (apply decorator_not_blank; now inversion Hd).
    cbn [app]. rewrite (skipWhile_stop isBlank _ _ Hb).
    change (d :: ds' ++ rev b1 ++ L :: T)
      with ((d :: ds') ++ rev b1 ++ L :: T).
    rewrite (skipWhile_app isDecorator _ _ Hd).
    destruct (rev b1) as [| b bs].
    + cbn [app].
      now rewrite (skipWhile_stop isDecorator), (skipWhile_stop isBlank).
    + assert (Hn : isDecorator b = false)
        by (apply blank_not_decorator; now inversion H1).
      cbn [app]. rewrite (skipWhile_stop isDecorator _ _ Hn).
      change (b :: bs ++ L :: T) with ((b :: bs) ++ L :: T).
      rewrite (skipWhile_app isBlank _ _ H1).
      now rewrite (skipWhile_stop isBlank).
Qed.

(** With nothing else above, they leave nothing. *)
Lemma afterLoops_nothing (b1 ds b2 : list jsstring) :
  Forall (fun l => isBlank l = true) b1 ->
  Forall (fun l => isDecorator l = true) ds ->
  Forall (fun l => isBlank l = true) b2 ->
  afterLoops (rev b2 ++ rev ds ++ rev b1) = [].
Proof.
  intros H1 Hd H2. unfold afterLoops.
  apply Forall_rev in H1, Hd, H2.
  rewrite (skipWhile_app isBlank _ _ H2).
  destruct (rev ds) as [| d ds'].
  - cbn [app]. rewrite <- (app_nil_r (rev b1)).
    rewrite (skipWhile_app isBlank _ _ H1). reflexivity.
  - assert (Hb : isBlank d = false)
      by (apply decorator_not_blank; now inversion Hd).
    cbn [app]. rewrite (skipWhile_stop isBlank _ _ Hb).
    change (d :: ds' ++ rev b1) with ((d :: ds') ++ rev b1).
    rewrite (skipWhile_app isDecorator _ _ Hd).
    destruct (rev b1) as [| b bs]; [reflexivity |].
    assert (Hn : isDecorator b = false)
      by (apply blank_not_decorator; now inversion H1).
    rewrite (skipWhile_stop isDecorator _ _ Hn).
    rewrite <- (app_nil_r (b :: bs)).
    rewrite (skipWhile_app isBlank _ _ H1). reflexivity.
Qed.

Lemma above_prefix (X rest : list jsstring) :
  above (X ++ rest) (len X) = rev X.
Proof.
  unfold above, len. rewrite Nat2Z.id, firstn_app, Nat.sub_diag, firstn_all.
  cbn [firstn]. now rewrite app_nil_r.
Qed.

Lemma len_cons_rev (x : jsstring) (l : list jsstring) :
  (len (x :: rev l) - 1)%Z = len l.
Proof. unfold len. cbn [length]. rewrite length_rev. lia. Qed.

Lemma rev_runs (top b1 ds b2 : list jsstring) (L : jsstring) :
  rev (top ++ L :: b1 ++ ds ++ b2)
  = rev b2 ++ rev ds ++ rev b1 ++ L :: rev top.
Proof.
  rewrite rev_app_distr. cbn [rev]. rewrite !rev_app_distr, <- !app_assoc.
  reflexivity.
Qed.

Lemma begins_not_blank (l p : jsstring) :
  p <> [] -> startsWith (trimStart l) p = true -> isBlank l = false.
Proof.
  intros Hp H. apply startsWith_iff in H. destruct H as [t H].
  unfold isBlank. destruct (trim l) eqn:E; [| reflexivity].
  apply trim_empty_iff, dropWhile_nil_iff in E.
  unfold trimStart in H. rewrite E in H.
  destruct p; [congruence | discriminate].
Qed.

(** The lines that the pattern of a block on one line matches. *)
Lemma singleLine_shape (ws mid ws' : jsstring) :
  Forall (fun c => is_space c = true) ws ->
  Forall (fun c => is_line_terminator c = false) mid ->
  Forall (fun c => is_space c = true) ws' ->
  test singleLineRe (ws ++ js "/**" ++ mid ++ js "*/" ++ ws') = true.
Proof.
  intros Hw Hm Hw'. apply test_true_iff.
  exists [], (ws ++ js "/**" ++ mid ++ js "*/" ++ ws'). eexists.
  split; [reflexivity |].
  unfold singleLineRe, lit, dot. cbn [seqs]. unfold at_pos. cbn [rev].
  exists (mk_st [] (ws ++ js "/**" ++ mid ++ js "*/" ++ ws') []).
  split; [now split |].
  eexists. split; [apply star_chr_iff; exists ws; split;
                   [assumption | apply moved_to] |].
  eexists. split; [apply matches_lit_iff; apply moved_to |].
  eexists. split; [apply star_chr_iff; exists mid; split; [| apply moved_to] |].
  { apply Forall_forall. intros c Hc. rewrite Forall_forall in Hm.
    now rewrite (Hm c Hc). }
  eexists. split; [apply matches_lit_iff; apply moved_to |].
  eexists. split; [apply star_chr_iff; exists ws'; split; [assumption |] |].
  { rewrite <- (app_nil_r ws') at 1. apply moved_to. }
  split; reflexivity.
Qed.

(** X4.  A documentation block on one line above a declaration is found
    when the lines between them are a run of blank lines, a run of decorators
    and a run of blank lines, each possibly empty: the block is reported
    on one line, at the index of that line, with the line as its content.
    The line is white space, the opener, any text with no line terminator,
    the closer and white space. *)
Theorem single_line_block_found (top b1 ds b2 rest : list jsstring)
  (ws mid ws' : jsstring) :
  Forall (fun l => isBlank l = true) b1 ->
  Forall (fun l => isDecorator l = true) ds ->
  Forall (fun l => isBlank l = true) b2 ->
  Forall (fun c => is_space c = true) ws ->
  Forall (fun c => is_line_terminator c = false) mid ->
  Forall (fun c => is_space c = true) ws' ->
  let L := ws ++ js "/**" ++ mid ++ js "*/" ++ ws' in
  result (getJsDocInfo (top ++ L :: b1 ++ ds ++ b2 ++ rest)
            (len (top ++ L :: b1 ++ ds ++ b2)))
  = Ok (mkInfo true true (len top) (len top) L).
Proof.
  intros H1 Hd H2 Hw Hm Hw' L.
  pose proof (singleLine_shape ws mid ws' Hw Hm Hw') as HS. fold L in HS.
  pose proof (singleLine_begins L HS) as HB.
  assert (HL1 : isBlank L = false)
    by (apply (begins_not_blank L (js "/**")); [discriminate | exact HB]).
  assert (HL2 : isDecorator L = false).
  { destruct (isDecorator L) eqn:E; [| reflexivity].
    apply decorator_begins, begins_at_excludes in E. destruct E. congruence. }
  replace (top ++ L :: b1 ++ ds ++ b2 ++ rest)
    with ((top ++ L :: b1 ++ ds ++ b2) ++ rest)
    by (rewrite <- !app_assoc; cbn [app]; now rewrite <- !app_assoc).
  rewrite getJsDocInfo_above
    by (unfold len; rewrite (length_app _ rest); lia).
  rewrite above_prefix, rev_runs, afterLoops_runs by assumption.
  rewrite len_cons_rev. unfold classify. destruct (Z.ltb_spec (len top) 0); [unfold len in *; lia |].
  rewrite <- !app_assoc. cbn [app]. rewrite get_middle.
  unfold test_of. cbn [ToString]. now rewrite HS.
Qed.

(** The block of a well-formed comment above a decorated method. *)
Lemma single_line_block_witness :
  result (getJsDocInfo
            ([js "export class Cart {"]
             ++ (js "  " ++ js "/**" ++ js " Empties the cart. " ++ js "*/" ++ [])
             :: [js ""] ++ [js "  @HostListener('click')"] ++ [] ++
             [js "  public clear(): void {"; js "  }"; js "}"])
            (len ([js "export class Cart {"]
                  ++ (js "  " ++ js "/**" ++ js " Empties the cart. "
                      ++ js "*/" ++ [])
                  :: [js ""] ++ [js "  @HostListener('click')"] ++ [])))
  = Ok (mkInfo true true 1 1 (js "  /** Empties the cart. */")).
Proof.
  apply (single_line_block_found [js "export class Cart {"] [js ""]
           [js "  @HostListener('click')"] []
           [js "  public clear(): void {"; js "  }"; js "}"]
           (js "  ") (js " Empties the cart. ") []).
  - repeat constructor.
  - repeat constructor.
  - constructor.
  - repeat constructor.
  - repeat constructor.
  - constructor.
Defined.

(** X5.  A declaration with nothing above it but a run of blank lines, a
    run of decorators and a run of blank lines has no documentation block. *)
Theorem nothing_above_not_found (b1 ds b2 rest : list jsstring) :
  Forall (fun l => isBlank l = true) b1 ->
  Forall (fun l => isDecorator l = true) ds ->
  Forall (fun l => isBlank l = true) b2 ->
  result (getJsDocInfo (b1 ++ ds ++ b2 ++ rest) (len (b1 ++ ds ++ b2)))
  = Ok notFound.
Proof.
  intros H1 Hd H2.
  replace (b1 ++ ds ++ b2 ++ rest) with ((b1 ++ ds ++ b2) ++ rest)
    by now rewrite <- !app_assoc.
  rewrite getJsDocInfo_above
    by (unfold len; rewrite (length_app _ rest); lia).
  rewrite above_prefix, !rev_app_distr, <- !app_assoc.
  rewrite afterLoops_nothing by assumption. reflexivity.
Qed.

Lemma nothing_above_witness :
  result (getJsDocInfo
            ([js ""] ++ [js "@Component({"] ++ [] ++ [js "export class Cart {"])
            (len ([js ""] ++ [js "@Component({"] ++ [])))
  = Ok notFound.
Proof.
  apply (nothing_above_not_found [js ""] [js "@Component({"] []
           [js "export class Cart {"]).
  - repeat constructor.
  - repeat constructor.
  - constructor.
Defined.

(** The walk back finds the first opener of a documentation block above,
    when no line on the way begins with the opener of a comment. *)
Lemma walkBack_finds (lines : list jsstring) (e k : Z) (o : jsstring)
  (fuel : nat) :
  forall j,
    rounds_down j <= fuel ->
    (0 <= k <= j)%Z -> (j < len lines)%Z ->
    get lines k = Some o -> beginsWith "/**" o = true ->
    (forall i l, (k < i <= j)%Z -> get lines i = Some l ->
                 beginsWith "/*" l = false) ->
    result (walkBack fuel lines e j)
    = Ok (mkInfo true false k e (join nl (slice lines k (e + 1)))).
Proof.
  induction fuel as [| f IH]; intros j Hf Hk Hj Ho Hb Hmid;
    [unfold rounds_down in Hf; lia |].
  rewrite walkBack_step. destruct (Z.leb_spec 0 j); [| lia].
  destruct (get_in_range lines j ltac:(lia)) as [l Hl]. rewrite Hl.
  unfold test_of. cbn [ToString]. rewrite jsDocStart_iff, commentStart_iff.
  destruct (Z.eq_dec j k) as [-> | Hne].
  - rewrite Ho in Hl. injection Hl as <-. now rewrite Hb.
  - pose proof (Hmid j l ltac:(lia) Hl) as Hc.
    assert (Hd : beginsWith "/**" l = false).
    { destruct (beginsWith "/**" l) eqn:E; [| reflexivity].
      unfold beginsWith in *. apply startsWith_iff in E. destruct E as [t E].
      rewrite E in Hc. discriminate. }
    rewrite Hd, Hc.
    apply IH; auto; try (unfold rounds_down in *; lia).
    intros i x Hi. apply Hmid. lia.
Qed.

Lemma slice_middle (a b c : list jsstring) :
  slice (a ++ b ++ c) (len a) (len a + len b) = b.
Proof.
  unfold slice, slice_bound, len. rewrite !length_app.
  destruct (Z.ltb_spec (Z.of_nat (length a)) 0); [lia |].
  destruct (Z.ltb_spec (Z.of_nat (length a) + Z.of_nat (length b)) 0); [lia |].
  rewrite !Z.min_l by lia.
  replace (Z.to_nat (Z.of_nat (length a) + Z.of_nat (length b)
                     - Z.of_nat (length a))) with (length b) by lia.
  rewrite Nat2Z.id, skipn_app, skipn_all, Nat.sub_diag. cbn [skipn app].
  rewrite firstn_app, Nat.sub_diag, firstn_all. cbn [firstn].
  apply app_nil_r.
Qed.

(** X6.  A documentation block of several lines above a declaration is
    found when the lines between them are a run of blank lines, a run of
    decorators and a run of blank lines: the line above them begins with a
    star, the lines above that one do not begin with the opener of a
    comment, up to a line that begins with the opener of a documentation
    block.  The block is reported from the opener to the line with the
    star, and its content is these lines joined by line feeds. *)
Theorem multi_line_block_found (top mids b1 ds b2 rest : list jsstring)
  (opener closer : jsstring) :
  beginsWith "/**" opener = true ->
  Forall (fun l => beginsWith "/*" l = false) mids ->
  beginsWith "*" closer = true ->
  Forall (fun l => isBlank l = true) b1 ->
  Forall (fun l => isDecorator l = true) ds ->
  Forall (fun l => isBlank l = true) b2 ->
  result (getJsDocInfo
            (top ++ opener :: mids ++ closer :: b1 ++ ds ++ b2 ++ rest)
            (len (top ++ opener :: mids ++ closer :: b1 ++ ds ++ b2)))
  = Ok (mkInfo true false (len top) (len top + len mids + 1)
          (join nl (opener :: mids ++ [closer]))).
Proof.
  intros Ho Hmids Hc H1 Hd H2.
  destruct (begins_star_excludes closer Hc) as [Hc1 Hc2].
  assert (HL1 : isBlank closer = false)
    by (apply (begins_not_blank closer (js "*")); [discriminate | exact Hc]).
  assert (HL2 : isDecorator closer = false).
  { destruct (isDecorator closer) eqn:E; [| reflexivity].
    apply decorator_begins, begins_at_excludes in E. destruct E. congruence. }
  assert (HS : test singleLineRe closer = false).
  { destruct (test singleLineRe closer) eqn:E; [| reflexivity].
    apply singleLine_begins in E. congruence. }
  set (body := opener :: mids ++ [closer]).
  set (front := top ++ opener :: mids).
  set (lines := top ++ opener :: mids ++ closer :: b1 ++ ds ++ b2 ++ rest).
  assert (E1 : lines = (front ++ closer :: b1 ++ ds ++ b2) ++ rest).
  { unfold lines, front. rewrite <- !app_assoc. cbn [app].
    now rewrite <- !app_assoc. }
  assert (E2 : lines = top ++ body ++ b1 ++ ds ++ b2 ++ rest).
  { unfold lines, body. cbn [app]. now rewrite <- !app_assoc. }
  assert (E3 : top ++ opener :: mids ++ closer :: b1 ++ ds ++ b2
               = front ++ closer :: b1 ++ ds ++ b2).
  { unfold front. rewrite <- !app_assoc. reflexivity. }
  assert (Hlen : len front = (len top + len mids + 1)%Z).
  { unfold front, len. rewrite length_app. cbn [length]. lia. }
  rewrite E3, E1.
  rewrite getJsDocInfo_above
    by (unfold len; rewrite (length_app _ rest); lia).
  rewrite above_prefix, rev_runs, afterLoops_runs by assumption.
  rewrite len_cons_rev, <- E1. unfold classify.
  destruct (Z.ltb_spec (len front) 0); [unfold len in *; lia |].
  assert (Hg : get lines (len front) = Some closer).
  { rewrite E1, <- app_assoc. cbn [app]. apply get_middle. }
  rewrite Hg. unfold test_of. cbn [ToString].
  rewrite HS, blockMiddle_iff, Hc, orb_true_r.
  rewrite (walkBack_finds lines (len front) (len top) opener).
  - rewrite Hlen. do 2 f_equal.
    replace (len top + len mids + 1 + 1)%Z with (len top + len body)%Z
      by (unfold body, len; cbn [length]; rewrite length_app;
          cbn [length]; lia).
    rewrite E2, slice_middle. reflexivity.
  - reflexivity.
  - unfold len in *. lia.
  - rewrite E1. unfold len. rewrite !length_app. cbn [length]. lia.
  - unfold lines. apply get_middle.
  - exact Ho.
  - intros i l Hi Hl.
    assert (Hin : In l (mids ++ [closer])).
    { apply (get_between top opener (mids ++ [closer])
               (b1 ++ ds ++ b2 ++ rest) i l).
      - unfold len in *. rewrite length_app. cbn [length]. lia.
      - rewrite <- Hl. f_equal. unfold lines. now rewrite <- app_assoc. }
    apply in_app_or in Hin. destruct Hin as [Hin | [<- | []]].
    + rewrite Forall_forall in Hmids. now apply Hmids.
    + exact Hc2.
Qed.

(** A block of three lines above a method, an empty line between them. *)
Lemma multi_line_block_witness :
  result (getJsDocInfo
            ([js "export class Cart {"]
             ++ js "  /**" :: [js "   * Empties the cart."] ++ js "   */"
             :: [js ""] ++ [] ++ [] ++ [js "  public clear(): void {"])
            (len ([js "export class Cart {"]
                  ++ js "  /**" :: [js "   * Empties the cart."] ++ js "   */"
                  :: [js ""] ++ [] ++ [])))
  = Ok (mkInfo true false 1 3
          (js "  /**" ++ nl ++ js "   * Empties the cart." ++ nl ++ js "   */")).
Proof.
  apply (multi_line_block_found [js "export class Cart {"]
           [js "   * Empties the cart."] [js ""] [] []
           [js "  public clear(): void {"] (js "  /**") (js "   */")).
  - reflexivity.
  - repeat constructor.
  - reflexivity.
  - repeat constructor.
  - constructor.
  - constructor.
Defined.

(** ** getAccessModifier and hasReturnsTag: what they read *)

Lemma terminator_is_space (c : char) :
  is_line_terminator c = true -> is_space c = true.
Proof.
  unfold is_line_terminator, char_eqb. rewrite !orb_true_iff.
  intros [[[H | H] | H] | H]; apply N.eqb_eq in H; subst c; reflexivity.
Qed.

Lemma visibility_stops (k t : jsstring) :
  In k visibilities -> stops is_space (k ++ t).
Proof. intros [<- | [<- | [<- | []]]]; reflexivity. Qed.

Lemma visibility_unique (m k r r' : jsstring) (c c' : char) :
  In m visibilities -> In k visibilities ->
  is_space c = true -> is_space c' = true ->
  m ++ c :: r = k ++ c' :: r' -> m = k.
Proof.
  intros [<- | [<- | [<- | []]]] [<- | [<- | [<- | []]]] Hc Hc' E;
    try reflexivity; cbv in E; try discriminate E;
    injection E as E; subst; discriminate.
Qed.

Lemma visibility_matches (m sn t : jsstring) (cp : list (nat * jsstring)) :
  In m visibilities ->
  matches visibilityRe (mk_st sn (m ++ t) cp) (mk_st (rev m ++ sn) t cp).
Proof.
  unfold visibilityRe, lit. cbn [alts matches].
  intros [<- | [<- | [<- | []]]]; [left | right; left | right; right];
    apply matches_lit_iff; apply moved_to.
Qed.

(** What a match of the pattern of getAccessModifier reads. *)
Lemma accessRe_matches (pre post : jsstring) (s' : st) :
  matches accessRe (at_pos pre post) s' ->
  pre = [] /\
  exists k c rest,
    In k visibilities /\ is_space c = true
    /\ trimStart post = k ++ c :: rest
    /\ cap_lookup 1 (caps s') = Some k.
Proof.
  unfold accessRe. cbn [seqs matches].
  intros [m1 [[Hb ->] [m2 [Hs [m3 [[m' [Hv ->]] Hsp]]]]]].
  cbn [at_pos seen] in Hb. split.
  { destruct pre as [| x pre]; [reflexivity |].
    apply (f_equal (@length char)) in Hb. cbn [rev] in Hb.
    rewrite length_app in Hb. cbn [length] in Hb. lia. }
  apply star_chr_iff in Hs. destruct Hs as [w [Hw [Hs _]]].
  cbn [at_pos todo] in Hs.
  destruct (matches_visibility _ _ Hv) as [k [Hk Hmv]].
  apply matches_chr_iff in Hsp. destruct Hsp as [c [Hc [Ht [_ Hcaps]]]].
  cbn [set_cap todo] in Ht. destruct Hmv as [Hk1 Hk2].
  exists k, c, (todo s'). split; [assumption |]. split; [assumption |].
  split.
  - rewrite Hs, Hk1, Ht. cbn [app].
    apply trimStart_app; [assumption | now apply visibility_stops].
  - rewrite Hcaps. cbn [set_cap caps cap_lookup Nat.eqb].
    now rewrite (moved_captured _ _ _ (conj Hk1 Hk2)).
Qed.

(** X7.  getAccessModifier returns a keyword exactly when the line, after
    its leading white space, begins with that keyword, one of public,
    private and protected, followed by a white space character. *)
Theorem getAccessModifier_reads (line m : jsstring) :
  getAccessModifier line = Some m <->
  In m visibilities /\
  exists c rest, is_space c = true /\ trimStart line = m ++ c :: rest.
Proof.
  unfold getAccessModifier. split.
  - destruct (exec accessRe line) as [mt |] eqn:E; [| discriminate].
    destruct (exec_matches _ _ _ E) as [pre [post [Hs [_ Hm]]]].
    destruct (accessRe_matches _ _ _ Hm) as [-> [k [c [rest [Hk [Hc [Ht Hg]]]]]]].
    unfold m_group. rewrite Hg. intros [= <-]. cbn [app] in Hs. subst post.
    split; [assumption | eauto].
  - intros [Hm [c [rest [Hc Ht]]]].
    destruct (trimStart_split line) as [w [Hw Hl]]. rewrite Ht in Hl.
    assert (Htest : test accessRe line = true).
    { rewrite Hl. apply test_true_iff.
      exists [], (w ++ m ++ c :: rest). eexists. split; [reflexivity |].
      unfold accessRe. cbn [seqs matches]. unfold at_pos. cbn [rev].
      exists (mk_st [] (w ++ m ++ c :: rest) []). split; [now split |].
      eexists. split; [apply star_chr_iff; exists w; split;
                       [assumption | apply moved_to] |].
      eexists. split.
      - eexists. split; [| reflexivity].
        apply visibility_matches. exact Hm.
      - apply matches_chr_iff. exists c. split; [assumption |].
        unfold set_cap. cbn [seen todo caps].
        apply (moved_to _ rest _ [c]). }
    unfold test in Htest.
    destruct (exec accessRe line) as [mt |] eqn:E; [| discriminate].
    destruct (exec_matches _ _ _ E) as [pre [post [Hs [_ Hmt]]]].
    destruct (accessRe_matches _ _ _ Hmt)
      as [-> [k [c' [rest' [Hk [Hc' [Ht' Hg]]]]]]].
    cbn [app] in Hs. subst post. unfold m_group. rewrite Hg. f_equal.
    rewrite Ht in Ht'. symmetry.
    now apply (visibility_unique m k rest rest' c c').
Qed.

Lemma at_end_multiline (s : st) :
  at_end true s = true -> stops (fun c => negb (is_space c)) (todo s).
Proof.
  unfold at_end. destruct (todo s) as [| c t]; [reflexivity |].
  cbn [andb stops]. intros H. now rewrite (terminator_is_space c H).
Qed.

Lemma spaces_then_end (w t : jsstring) :
  Forall (fun c => is_space c = true) w ->
  stops (fun c => negb (is_space c)) t ->
  match w ++ t with
  | [] => true
  | d :: _ => is_space d
  end = true.
Proof.
  intros Hw Ht. destruct w as [| c w]; cbn [app].
  - destruct t as [| d t]; [reflexivity |]. cbn [stops] in Ht.
    now destruct (is_space d).
  - now inversion Hw.
Qed.

Lemma returnsRe_matches (pre post : jsstring) (s' : st) :
  matches returnsRe (at_pos pre post) s' ->
  exists rest, post = js "@return" ++ rest /\ endsReturnTag rest = true.
Proof.
  unfold returnsRe, lit, opt. change (ch "s") with (Chr (char_eqb 115%N)).
  cbn [seqs]. intros [H | H].
  - cbn [matches] in H. destruct H as [m1 [Hl [m2 [Ho Hsp]]]].
    apply matches_lit_iff in Hl. destruct Hl as [Hl _].
    cbn [at_pos todo] in Hl. exists (todo m1). split; [assumption |].
    destruct Hsp as [c [t [Et [Hc _]]]].
    destruct Ho as [[x [r [Ex [Hx ->]]]] | ->].
    + apply N.eqb_eq in Hx. subst x. rewrite Ex. cbn [advance todo] in Et.
      rewrite Et. unfold endsReturnTag. rewrite Hc. reflexivity.
    + rewrite Et. cbn [endsReturnTag]. now rewrite Hc.
  - cbn [matches] in H. destruct H as [m1 [Hl [m2 [Ho [m3 [Hs [He ->]]]]]]].
    apply matches_lit_iff in Hl. destruct Hl as [Hl _].
    cbn [at_pos todo] in Hl. exists (todo m1). split; [assumption |].
    apply star_chr_iff in Hs. destruct Hs as [w [Hw [Hs _]]].
    pose proof (spaces_then_end w (todo m3) Hw (at_end_multiline _ He)) as Hend.
    rewrite <- Hs in Hend.
    destruct Ho as [[x [r [Ex [Hx ->]]]] | ->].
    + apply N.eqb_eq in Hx. subst x. rewrite Ex. cbn [advance todo] in Hend.
      unfold endsReturnTag. rewrite Hend. reflexivity.
    + destruct (todo m1) as [| d r]; [reflexivity |].
      cbn [endsReturnTag]. now rewrite Hend.
Qed.

Lemma returnsRe_of (sn rest : jsstring) :
  endsReturnTag rest = true ->
  exists s', matches returnsRe (mk_st sn (js "@return" ++ rest) []) s'.
Proof.
  intros H. unfold returnsRe, lit, opt.
  change (ch "s") with (Chr (char_eqb 115%N)). cbn [seqs].
  pose proof (moved_to sn rest [] (js "@return")) as Hl.
  apply matches_lit_iff in Hl.
  assert (Hspace : forall c r sn',
            is_space c = true ->
            matches space (mk_st sn' (c :: r) []) (mk_st (c :: sn') r [])).
  { intros c r sn' Hc. exists c, r. now repeat split. }
  assert (Hend : forall sn',
            matches (Seq (Star space) (Eol true)) (mk_st sn' [] [])
              (mk_st sn' [] [])).
  { intros sn'. exists (mk_st sn' [] []). split; [constructor | now split]. }
  destruct rest as [| c r].
  - (* the end of the text *)
    eexists. right. eexists. split; [exact Hl |].
    eexists. split; [right; reflexivity | apply Hend].
  - cbn [endsReturnTag] in H. destruct (is_space c) eqn:Hc.
    + eexists. left. eexists. split; [exact Hl |].
      eexists. split; [right; reflexivity | now apply Hspace].
    + cbn [orb] in H. apply andb_true_iff in H. destruct H as [Hs Hr].
      apply N.eqb_eq in Hs. subst c.
      assert (Ho : matches (Chr (char_eqb 115%N))
                     (mk_st (rev (js "@return") ++ sn) (115%N :: r) [])
                     (mk_st (115%N :: rev (js "@return") ++ sn) r []))
        by (exists 115%N, r; now repeat split).
      destruct r as [| d r].
      * eexists. right. eexists. split; [exact Hl |].
        eexists. split; [left; exact Ho | apply Hend].
      * eexists. left. eexists. split; [exact Hl |].
        eexists. split; [left; exact Ho | now apply Hspace].
Qed.

(** X8.  hasReturnsTag holds exactly when the text holds "@return" or
    "@returns" followed by a white space character or by the end of the
    text. *)
Theorem hasReturnsTag_reads (content : jsstring) :
  hasReturnsTag content = true <->
  exists pre rest,
    content = pre ++ js "@return" ++ rest /\ endsReturnTag rest = true.
Proof.
  unfold hasReturnsTag. rewrite test_true_iff. split.
  - intros [pre [post [s' [E H]]]].
    destruct (returnsRe_matches _ _ _ H) as [rest [-> Hr]]. eauto.
  - intros [pre [rest [E H]]].
    destruct (returnsRe_of (rev pre) rest H) as [s' Hs'].
    exists pre, (js "@return" ++ rest), s'. now split.
Qed.

(** ** checkParamTags: a parameter with its tag *)

Lemma leads_lit_ci (l sn t : jsstring) (cp : list (nat * jsstring)) :
  leads (lit_ci_of l) (mk_st sn (l ++ t) cp) (mk_st (rev l ++ sn) t cp).
Proof.
  revert sn. induction l as [| c l IH]; intros sn.
  - apply leads_eps.
  - destruct l as [| d l].
    + apply (leads_chr (fun x => char_eqb (canon x) (canon c))).
      apply N.eqb_refl.
    + change (lit_ci_of (c :: d :: l))
        with (Seq (Chr (fun x => char_eqb (canon x) (canon c)))
                  (lit_ci_of (d :: l))).
      eapply leads_seq.
      * apply (leads_chr (fun x => char_eqb (canon x) (canon c))).
        apply N.eqb_refl.
      * specialize (IH (c :: sn)). simpl in *. rewrite <- !app_assoc in *.
        exact IH.
Qed.

(** The group of the type in braces takes the braces and what is between
    them. *)
Lemma leads_grp_braced (ty t sn : jsstring) (cp : list (nat * jsstring)) :
  ~ In 125%N ty ->
  leads (Grp 1 bracedRe) (mk_st sn (123%N :: ty ++ 125%N :: t) cp)
        (mk_st (rev (123%N :: ty ++ [125%N]) ++ sn) t
               ((1, 123%N :: ty ++ [125%N]) :: cp)).
Proof.
  intros Hty.
  assert (H : leads bracedRe (mk_st sn (123%N :: ty ++ 125%N :: t) cp)
                (mk_st (rev (123%N :: ty ++ [125%N]) ++ sn) t cp)).
  { unfold bracedRe. cbn [seqs].
    eapply leads_seq; [now apply leads_chr |].
    eapply leads_seq; [apply (leads_star (none_of "}") ty) |].
    - apply Forall_forall. intros c Hc. unfold none_of.
      change (js "}") with [125%N]. cbn [existsb]. rewrite orb_false_r.
      unfold char_eqb. destruct (N.eqb_spec c 125%N); [subst c; contradiction |].
      reflexivity.
    - reflexivity.
    - cbn [rev]. rewrite rev_app_distr. cbn [rev app].
      rewrite <- !app_assoc. cbn [app]. now apply leads_chr. }
  pose proof (leads_grp 1 _ _ _ H) as G.
  assert (E : captured (mk_st sn (123%N :: ty ++ 125%N :: t) cp)
                (mk_st (rev (123%N :: ty ++ [125%N]) ++ sn) t cp)
              = 123%N :: ty ++ [125%N]).
  { apply moved_captured.
    replace (123%N :: ty ++ 125%N :: t) with ((123%N :: ty ++ [125%N]) ++ t)
      by (cbn [app]; now rewrite <- app_assoc).
    apply moved_to. }
  unfold set_cap in G. rewrite E in G. exact G.
Qed.

Lemma run_lit_ci_mismatch (l : jsstring) (k : re) (s : st) :
  startsWith_ci (todo s) l = false -> run (Seq (lit_ci_of l) k) s = [].
Proof.
  intros H. apply run_nil. intros s' Hm. cbn [matches] in Hm.
  destruct Hm as [m [Hm _]]. apply matches_lit_ci_iff in Hm.
  destruct Hm as [x [Hx [E _]]].
  assert (startsWith_ci (todo s) l = true); [| congruence].
  unfold startsWith_ci. rewrite E, map_app, Hx. apply startsWith_iff. eauto.
Qed.

Lemma separator_cases (c : char) :
  separator c = true -> is_word c = false /\ c <> 93%N.
Proof.
  intros H. split; [now apply separator_not_word |].
  intros ->. discriminate.
Qed.

(** The pattern of the name reads the tag of the parameter, and its first
    group is the type with its braces. *)
Lemma name_read (ws1 ty ws2 n rest sn : jsstring) (c : char) :
  ws1 <> [] ->
  Forall (fun x => is_space x = true) ws1 ->
  Forall (fun x => is_space x = true) ws2 ->
  ~ In 125%N ty -> identifier n -> separator c = true ->
  exists s',
    leads (paramNameRe n) (mk_st sn (paramTag ws1 ty ws2 n ++ c :: rest) []) s'
    /\ caps s' = [(1, 123%N :: ty ++ [125%N])].
Proof.
  intros Hne Hws1 Hws2 Hty Hn Hc.
  rewrite tag_text. unfold paramNameRe, lit_ci. cbn [seqs].
  destruct (identifier_shape n Hn) as [n0 [n' [En [Hn0 Hn']]]].
  destruct (separator_cases c Hc) as [Hcw Hcb].
  destruct ws1 as [| w0 ws1']; [congruence |].
  eapply leads_seq_then; [apply leads_lit_ci |].
  eapply leads_seq_then.
  { cbn [app]. apply (leads_plus is_space w0 ws1');
      [now inversion Hws1 | now inversion Hws1 | reflexivity]. }
  eapply leads_seq_then.
  { apply leads_alt_left. now apply leads_grp_braced. }
  eapply leads_seq_then.
  { apply (leads_star is_space ws2); [exact Hws2 |].
    rewrite En. cbn [app stops]. now apply word_not_space. }
  eapply leads_seq_then.
  { apply leads_alt_right; [| apply leads_eps].
    change (ch "[") with (Chr (char_eqb 91%N)). apply run_chr_stops.
    rewrite En. cbn [app stops]. unfold char_eqb.
    destruct (N.eqb_spec 91%N n0) as [F | F]; [| reflexivity].
    rewrite <- F in Hn0. discriminate Hn0. }
  eapply leads_seq_then; [apply leads_lit_ci |].
  eapply leads_seq_then.
  { apply leads_alt_right; [| apply leads_eps].
    change (ch "]") with (Chr (char_eqb 93%N)). apply run_chr_stops.
    cbn [stops]. unfold char_eqb.
    destruct (N.eqb_spec 93%N c) as [F | F]; [congruence | reflexivity]. }
  eexists. split; [now apply (leads_chr separator) | reflexivity].
Qed.

(** X9.  For a declaration with one parameter [n], made of word characters
    and not the text destructured, and a block where the text @param occurs
    once, in any letter case, in a tag written @param, white space, a type in
    braces, white space, the name [n] and a white space character or a
    hyphen: the check is valid and reports nothing when the braces hold a
    type, and reports the one error of a missing type when they are empty. *)
Theorem documented_parameter (compileName : jsstring -> option re)
  (before ws1 ty ws2 n rest paramType : jsstring) (c : char) :
  reads_word_names compileName ->
  ws1 <> [] ->
  Forall (fun x => is_space x = true) ws1 ->
  Forall (fun x => is_space x = true) ws2 ->
  ~ In 125%N ty -> identifier n -> n <> js "destructured" ->
  separator c = true ->
  positions_ci (js "@param") (before ++ paramTag ws1 ty ws2 n ++ c :: rest) 0
  = [length before] ->
  checkParamTags compileName (before ++ paramTag ws1 ty ws2 n ++ c :: rest)
    [mkParam n paramType]
  = Ok (if isEmpty ty
        then mkParamCheck false
               [js "@param " ++ n ++ js " missing {Type} in curly braces"]
        else mkParamCheck true []).
Proof.
  intros Hcompile Hne Hws1 Hws2 Hty Hn Hnd Hc Honly.
  destruct (name_read ws1 ty ws2 n rest (rev before ++ []) c
              Hne Hws1 Hws2 Hty Hn Hc) as [s' [HL Hcaps]].
  assert (E : exec (paramNameRe n)
                (before ++ paramTag ws1 ty ws2 n ++ c :: rest)
              = Some (mk_mtch
                        (mk_st (rev before ++ [])
                           (paramTag ws1 ty ws2 n ++ c :: rest) []) s')).
  { unfold exec. rewrite exec_from_skip; [now apply exec_from_leads |].
    intros p1 x p2 Ep. unfold paramNameRe, lit_ci. cbn [seqs].
    apply run_lit_ci_mismatch. cbn [todo].
    destruct (startsWith_ci _ (js "@param")) eqn:H; [| reflexivity].
    destruct (only_at_tag before ws1 ty ws2 n (c :: rest) Honly p1
                (x :: p2 ++ paramTag ws1 ty ws2 n ++ c :: rest)) as [F _].
    - rewrite Ep, <- app_assoc. reflexivity.
    - exact H.
    - rewrite F in Ep at 1. apply (f_equal (@length _)) in Ep.
      rewrite length_app in Ep. cbn [length] in Ep. lia. }
  unfold checkParamTags. cbn [length Nat.eqb].
  unfold actualParamNames. cbn [filter forEach].
  unfold paramStep, isDestructured. cbn [name].
  rewrite (jsstring_eqb_neq _ _ Hnd). cbn [negb map name].
  rewrite (Hcompile n (Forall_forallb _ _ (proj2 Hn))), E.
  unfold m_group. cbn [m_end]. rewrite Hcaps. cbn [cap_lookup Nat.eqb].
  rewrite (doc_names before ws1 ty ws2 n (c :: rest)); try assumption;
    [| cbn [stops]; now apply separator_not_word].
  cbn [forEach]. unfold extraStep. cbn [existsb].
  rewrite (proj2 (jsstring_eqb_eq n n) eq_refl).
  destruct ty as [| t0 ty']; [reflexivity |].
  cbn [truthy ToString andb isEmpty].
  assert (Hlt : (2 <? length (123%N :: (t0 :: ty') ++ [125%N])) = true)
    by (apply Nat.ltb_lt; cbn [length app]; rewrite length_app;
        cbn [length]; lia).
  rewrite Hlt. reflexivity.
Qed.

Lemma documented_parameter_witness :
  checkParamTags wordNamesOnly
    (js "/** Adds to the total. " ++
     paramTag (js " ") (js "number") (js " ") (js "amount")
     ++ 32%N :: js "- what is added */")
    [mkParam (js "amount") (js "number")]
  = Ok (mkParamCheck true []).
Proof.
  apply (documented_parameter wordNamesOnly (js "/** Adds to the total. ")
           (js " ") (js "number") (js " ") (js "amount")
           (js "- what is added */") (js "number") 32%N).
  - exact wordNamesOnly_reads.
  - discriminate.
  - repeat constructor.
  - repeat constructor.
  - vm_compute. intuition discriminate.
  - split; [discriminate | repeat constructor].
  - vm_compute. discriminate.
  - reflexivity.
  - vm_compute. reflexivity.
Defined.

(** ** extractParams: what is read of a parameter *)











Lemma trimEnd_app (s w : jsstring) :
  Forall (fun c => is_space c = true) w -> stops is_space (rev s) ->
  trimEnd (s ++ w) = s.
Proof.
  intros Hw Hs. unfold trimEnd. rewrite rev_app_distr.
  fold (trimStart (rev w ++ rev s)).
  rewrite trimStart_app; [apply rev_involutive | | exact Hs].
  apply Forall_forall. intros x Hx. apply in_rev in Hx.
  revert x Hx. now apply Forall_forall.
Qed.



Lemma stops_of_all (p : char -> bool) (s : jsstring) :
  Forall (fun c => p c = false) s -> stops p s /\ stops p (rev s).
Proof.
  intros H. split.
  - destruct H; [exact I | assumption].
  - destruct (rev s) as [| c r] eqn:E; [exact I |]. cbn [stops].
    assert (Hc : In c s) by (apply in_rev; rewrite E; now left).
    exact (proj1 (Forall_forall _ _) H c Hc).
Qed.












End StdFacts.

(** ** The ranges of a diff *)

Module DiffFacts.
Import Re ReSpec ReFacts Diff DiffSpec.















(** C2 at a hunk that adds no line: git writes "+8,0" for two lines deleted
    after line 8.  The formula of the claim gives the range from 8 to 7, which
    holds no line; the code gives the range from 8 to 8. *)
Theorem deletion_hunk_range :
  rangesOf (js "diff --git a/src/cart.ts b/src/cart.ts" ++ nl
            ++ js "@@ -9,2 +8,0 @@ export class Cart {" ++ nl
            ++ js "-  private legacy = 0;" ++ nl
            ++ js "-  private unused = 1;")
  = [mkRange 8 8]
  /\ isLineChanged 8 [mkRange 8 (8 + 0 - 1)] = false
  /\ isLineChanged 8 [mkRange 8 8] = true.
Proof. repeat split; vm_compute; reflexivity. Qed.

(** *** The ranges hold lines *)





(** X14.  For ranges that hold a line each, a line is near a changed line
    exactly when it or one of the five lines before it is in a range. *)
Theorem near_is_within_five (lineNum : Z) (changedRanges : list Range) :
  Forall (fun r => (start r <= end_ r)%Z) changedRanges ->
  (isNearChangedLine lineNum changedRanges = true <->
   exists k, (0 <= k <= 5)%Z
             /\ isLineChanged (lineNum - k) changedRanges = true).
Proof.
  intros Hall. unfold isNearChangedLine, isLineChanged. split.
  - intros H. apply existsb_exists in H. destruct H as [r [Hin Hr]].
    rewrite Forall_forall in Hall. specialize (Hall r Hin).
    apply andb_true_iff in Hr. destruct Hr as [H1 H2].
    apply Z.leb_le in H1, H2.
    exists (Z.max 0 (lineNum - end_ r)). split; [lia |].
    apply existsb_exists. exists r. split; [assumption |].
    apply andb_true_iff. split; apply Z.leb_le; lia.
  - intros [k [Hk H]]. apply existsb_exists in H.
    destruct H as [r [Hin Hr]]. apply andb_true_iff in Hr.
    destruct Hr as [H1 H2]. apply Z.leb_le in H1, H2.
    apply existsb_exists. exists r. split; [assumption |].
    apply andb_true_iff. split; apply Z.leb_le; lia.
Qed.

Lemma near_is_within_five_witness :
  isNearChangedLine 10 [mkRange 5 7] = true <->
  exists k, (0 <= k <= 5)%Z /\ isLineChanged (10 - k) [mkRange 5 7] = true.
Proof.
  apply (near_is_within_five 10 [mkRange 5 7]).
  repeat constructor. cbn [start end_]. lia.
Defined.

End DiffFacts.

(** ** The scan of the changed lines *)

Module PrFacts.
Import Re Diff PrSpec.

Lemma scenario_well_formed :
  length (split_on 10%N (join nl scenarioLines)) = 20 /\
  rangesOf scenarioDiff = [mkRange 5 7] /\
  isLineChanged 10 [mkRange 5 7] = false /\
  isNearChangedLine 10 [mkRange 5 7] = true /\
  result (Std.getJsDocInfo scenarioLines 9) = Ok Std.notFound.
Proof. repeat split; vm_compute; reflexivity. Qed.

(** C1 on scripts/generate-pr-comments.js: the scan emits the comment on the
    debug statement of line 6 and nothing on line 10.  The callback returns
    at a line outside the changed ranges before it comes to the test of the
    wider window. *)
Theorem scenario_single_pass (compileName : jsstring -> option re) :
  Pr.checkTypeScriptFile compileName scenarioFs scenarioFile
    (rangesOf scenarioDiff)
  = [mkComment scenarioFile 6 consoleLogBody].
Proof. vm_compute. reflexivity. Qed.

(** The variant with two passes emits the two comments of the claim. *)
Theorem scenario_two_passes (compileName : jsstring -> option re) :
  PrTwoPass.checkTypeScriptFile compileName scenarioFs scenarioFile
    (rangesOf scenarioDiff)
  = [mkComment scenarioFile 6 consoleLogBody;
     mkComment scenarioFile 10 PrTwoPass.missingJsDocBody].
Proof. vm_compute. reflexivity. Qed.

(** *** What a scan logs *)

Lemma all_logged_bind {L A B} (P : L -> Prop) (m : Eff L A) (f : A -> Eff L B) :
  Forall P (logged m) -> (forall a, Forall P (logged (f a))) ->
  Forall P (logged (bind m f)).
Proof.
  intros Hm Hf. rewrite logged_bind. apply Forall_app. split; [assumption |].
  destruct (result m); [apply Hf | constructor].
Qed.

Lemma all_logged_when {L} (P : L -> Prop) (c : bool) (m : Eff L unit) :
  Forall P (logged m) -> Forall P (logged (when c m)).
Proof. intros H. destruct c; [assumption | constructor]. Qed.

Lemma all_logged_emit {L} (P : L -> Prop) (x : L) :
  P x -> Forall P (logged (emit x)).
Proof. intros H. now repeat constructor. Qed.

Lemma all_logged_forEach {L A} (P : L -> Prop) (f : A -> Eff L unit)
  (xs : list A) :
  (forall x, Forall P (logged (f x))) -> Forall P (logged (forEach f xs)).
Proof.
  intros H. induction xs as [| x xs IH]; cbn [forEach]; [constructor |].
  apply all_logged_bind; auto.
Qed.

Lemma all_logged_forEachIdx {L A} (P : L -> Prop) (f : A -> Z -> Eff L unit)
  (xs : list A) (i : Z) :
  (forall x k, Forall P (logged (f x k))) ->
  Forall P (logged (forEachIdx f xs i)).
Proof.
  intros H. revert i. induction xs as [| x xs IH]; intros i;
    cbn [forEachIdx]; [constructor |].
  apply all_logged_bind; auto.
Qed.

Ltac all_logged :=
  repeat first
    [ apply all_logged_emit
    | apply all_logged_when
    | apply all_logged_forEach; intros
    | apply all_logged_bind; [| intros]
    | match goal with
      | |- Forall _ (logged (ret _)) => constructor
      | |- Forall _ (logged (pure_of _)) => constructor
      | |- Forall _ (logged (call _)) => constructor
      | |- Forall _ (logged (if ?c then _ else _)) => destruct c
      end ].

(** In scripts/generate-pr-comments.js every comment stands on a line of a
    changed range: the window of five lines after a range adds nothing. *)
Theorem single_pass_within_changed_lines
  (compileName : jsstring -> option re) (fs : Std.FileSystem)
  (file : jsstring) (changedRanges : list Range) :
  Forall (fun c => isLineChanged (line c) changedRanges = true)
         (Pr.checkTypeScriptFile compileName fs file changedRanges).
Proof.
  unfold Pr.checkTypeScriptFile.
  destruct (Std.readFileSync fs file) as [text | e]; [| constructor].
  apply all_logged_forEachIdx. intros l index. unfold Pr.checkLine.
  destruct (isLineChanged (index + 1) changedRanges) eqn:E; cbn [negb];
    [| constructor].
  unfold detectors. cbv zeta. all_logged; exact E.
Qed.

(** *** A file that cannot be read *)

Lemma no_ranges_no_comments (compileName : jsstring -> option re)
  (fs : Std.FileSystem) (file : jsstring) :
  Pr.checkTypeScriptFile compileName fs file [] = [].
Proof.
  pose proof (single_pass_within_changed_lines compileName fs file []) as H.
  destruct (Pr.checkTypeScriptFile compileName fs file []) as [| c l];
    [reflexivity |].
  inversion H; subst. discriminate.
Qed.

(** The loop of the PR scan adds up what the files contribute, each on its
    own: a file whose diff or content cannot be read contributes nothing and
    the files after it are scanned. *)
Theorem scan_isolates_failures (compileName : jsstring -> option re)
  (fs : Std.FileSystem) (git : Git) (files : list jsstring) :
  (forall acc, Pr.scanAll compileName fs git files acc
               = acc ++ flat_map (contribution compileName fs git) files) /\
  (forall file, git file = None -> getChangedLineRanges git file = []) /\
  (forall file ranges, fs file = None ->
     Pr.checkTypeScriptFile compileName fs file ranges = []) /\
  (forall file, git file = None \/ fs file = None ->
     contribution compileName fs git file = []).
Proof.
  assert (H2 : forall file, git file = None -> getChangedLineRanges git file = []).
  { intros file H. unfold getChangedLineRanges. now rewrite H. }
  assert (H3 : forall file ranges, fs file = None ->
     Pr.checkTypeScriptFile compileName fs file ranges = []).
  { intros file ranges H. unfold Pr.checkTypeScriptFile, Std.readFileSync.
    now rewrite H. }
  split; [| split; [exact H2 | split; [exact H3 |]]].
  - induction files as [| file rest IH]; intros acc; cbn [Pr.scanAll flat_map].
    + now rewrite app_nil_r.
    + unfold contribution at 1. destruct (Pr.wanted file); cbn [negb].
      * destruct (getChangedLineRanges git file) as [| r rs] eqn:E;
          cbn [length Nat.eqb].
        -- rewrite no_ranges_no_comments. apply IH.
        -- rewrite IH. now rewrite <- app_assoc.
      * apply IH.
  - intros file [H | H]; unfold contribution; destruct (Pr.wanted file); auto.
    rewrite (H2 file H). apply no_ranges_no_comments.
Qed.

(** C7 on scripts/check-code-standards.js: checkFile reads the file outside
    any try, and the loop of the command line calls it outside any try.  With
    a first file that cannot be read the run ends with the exception, and the
    second file, which holds a violation, is never checked. *)
Theorem cli_stops_at_unreadable_file :
  Std.checkFile Std.wordNamesOnly missingFirstFs (js "src/gone.ts")
  = Throw IOError
  /\ Std.cli Std.wordNamesOnly missingFirstFs [js "src/gone.ts"; js "src/cart.ts"]
     = Throw IOError
  /\ Std.cli Std.wordNamesOnly missingFirstFs [js "src/cart.ts"] = Ok 1%Z
  /\ Pr.checkTypeScriptFile Std.wordNamesOnly missingFirstFs (js "src/gone.ts")
       [mkRange 1 1] = [].
Proof. repeat split; vm_compute; reflexivity. Qed.

(** *** Where the comments stand *)

Lemma changed_is_near (lineNum : Z) (changedRanges : list Range) :
  isLineChanged lineNum changedRanges = true ->
  isNearChangedLine lineNum changedRanges = true.
Proof.
  unfold isLineChanged, isNearChangedLine. intros H.
  apply existsb_exists in H. destruct H as [r [Hin Hr]].
  apply existsb_exists. exists r. split; [assumption |].
  apply andb_true_iff in Hr. destruct Hr as [H1 H2].
  apply Z.leb_le in H1, H2. apply andb_true_iff. split; apply Z.leb_le; lia.
Qed.

Section Near.

Variable compileName : jsstring -> option re.
Variables (file : jsstring) (changedRanges : list Range).

Let changed (c : Comment) : Prop :=
  path c = file /\ isLineChanged (line c) changedRanges = true.

Let near (c : Comment) : Prop :=
  path c = file /\ isNearChangedLine (line c) changedRanges = true.

Lemma single_pass_changed (lines : list jsstring) (l : jsstring) (index : Z) :
  Forall changed
    (logged (Pr.checkLine compileName file changedRanges lines l index)).
Proof using Type.
  unfold Pr.checkLine.
  destruct (isLineChanged (index + 1) changedRanges) eqn:E; cbn [negb];
    [| constructor].
  unfold detectors. cbv zeta. all_logged; now split.
Qed.

Lemma firstPass_near (l : jsstring) (index : Z) :
  Forall near (logged (PrTwoPass.firstPass file changedRanges l index)).
Proof using Type.
  unfold PrTwoPass.firstPass.
  destruct (isLineChanged (index + 1) changedRanges) eqn:E; cbn [negb];
    [| constructor].
  apply changed_is_near in E.
  unfold detectors. cbv zeta. all_logged; now split.
Qed.

Lemma secondPass_near (lines : list jsstring) (l : jsstring) (index : Z) :
  Forall near
    (logged (PrTwoPass.secondPass compileName file changedRanges lines l
               index)).
Proof using Type.
  unfold PrTwoPass.secondPass.
  repeat (apply all_logged_bind; [| intros _]);
    unfold PrTwoPass.checkMethod, PrTwoPass.checkProperty; cbv zeta;
    (destruct (isNearChangedLine (index + 1) changedRanges) eqn:E;
     [| rewrite andb_false_r; constructor]);
    all_logged; now split.
Qed.

End Near.

(** X15.  Every comment of the scan of a file carries the path of the file.
    In scripts/generate-pr-comments.js it stands on a line of a changed
    range; in the variant with two passes it stands on a line of a changed
    range or one of the five lines after a range. *)
Theorem comments_stay_near_changes (compileName : jsstring -> option re)
  (fs : Std.FileSystem) (file : jsstring) (changedRanges : list Range) :
  Forall (fun c => path c = file
                   /\ isLineChanged (line c) changedRanges = true)
         (Pr.checkTypeScriptFile compileName fs file changedRanges)
  /\
  Forall (fun c => path c = file
                   /\ isNearChangedLine (line c) changedRanges = true)
         (PrTwoPass.checkTypeScriptFile compileName fs file changedRanges).
Proof.
  unfold Pr.checkTypeScriptFile, PrTwoPass.checkTypeScriptFile.
  destruct (Std.readFileSync fs file) as [text | e];
    [| split; constructor].
  split.
  - apply all_logged_forEachIdx. intros l index. apply single_pass_changed.
  - apply all_logged_bind; [| intros _]; apply all_logged_forEachIdx;
      intros l index; [apply firstPass_near | apply secondPass_near].
Qed.

End PrFacts.

(** ** The violations of a file *)

Module CheckFacts.
Import Re ReSpec ReFacts Std StdSpec StdFacts PrSpec PrFacts CheckSpec.

(** The loop over the lines calls its body with each line and its index. *)
Lemma all_logged_lines {L} (P : L -> Prop)
  (f : jsstring -> Z -> Eff L unit) (xs : list jsstring) :
  forall pre,
    (forall x k, get (pre ++ xs) k = Some x -> Forall P (logged (f x k))) ->
    Forall P (logged (forEachIdx f xs (len pre))).
Proof.
  induction xs as [| x xs IH]; intros pre H; cbn [forEachIdx];
    [constructor |].
  apply all_logged_bind.
  - apply H. apply get_middle.
  - intros _.
    replace (len pre + 1)%Z with (len (pre ++ [x]))
      by (unfold len; rewrite length_app; cbn [length]; lia).
    apply IH. intros y k. rewrite <- app_assoc. apply H.
Qed.

(** A line of a method holds a return type, and a line of a reactive
    property a visibility keyword. *)
Lemma method_has_return_type (l : jsstring) :
  test methodRegex l = true -> test returnTypeRe l = true.
Proof.
  apply (test_seqs_part
           [Bol; Star blank; opt (Grp 1 visibilityRe); Star blank; plus alnum_;
            Star space; ch "("; Star (Chr (none_of ")")); ch ")"; Star space]
           [ch ":"; Star space; plus typeChar]
           [Star blank; ch "{"]).
Qed.

Lemma head_has_visibility (readonly : bool) (tl : list re) (l : jsstring) :
  test (seqs (propertyHead readonly ++ tl)) l = true ->
  test visibilityRe l = true.
Proof.
  intros H. apply (test_grp 1).
  apply (test_seqs_part [Bol; Star blank] [Grp 1 visibilityRe]
           ([plus blank]
            ++ (if readonly
                then [opt (Grp 2 (seqs [lit "readonly"; plus blank]))] else [])
            ++ [identStart; Star identChar; Star space; ch "="; Star space]
            ++ tl)).
  unfold propertyHead in H. rewrite <- !app_assoc in H. exact H.
Qed.

(** *** Where the violations stand *)

Section Placed.

Variable compileName : jsstring -> option re.
Variables (file : jsstring) (lines : list jsstring).

(** A violation of [file] on a declaration of [lines]. *)
Let placed (v : Violation) : Prop :=
  v_file v = file /\
  exists l, get lines (v_line v - 1) = Some l /\ isDeclaration l = true.

Lemma placed_at (l msg : jsstring) (k : Z) :
  get lines k = Some l -> isDeclaration l = true ->
  placed (mkViolation file (k + 1) msg).
Proof using Type.
  intros Hg Hd. split; [reflexivity |]. exists l. cbn [v_line].
  replace (k + 1 - 1)%Z with k by lia. now split.
Qed.

Lemma checkMethod_placed (l : jsstring) (k : Z) :
  get lines k = Some l ->
  Forall placed (logged (checkMethod compileName file lines l k)).
Proof using Type.
  intros Hg. unfold checkMethod.
  destruct (test methodRegex l) eqn:E; [| constructor]. cbn [when].
  assert (Hd : isDeclaration l = true) by (unfold isDeclaration; now rewrite E).
  unfold addViolation. cbv zeta. all_logged; apply (placed_at l); assumption.
Qed.

Lemma checkProperty_placed (pattern : re) (shown typeName : string)
  (l : jsstring) (k : Z) :
  (test pattern l = true -> isDeclaration l = true) ->
  get lines k = Some l ->
  Forall placed
    (logged (checkProperty pattern shown typeName file lines l k)).
Proof using Type.
  intros Hp Hg. unfold checkProperty.
  destruct (test pattern l) eqn:E; [| constructor]. cbn [when].
  specialize (Hp eq_refl).
  unfold addViolation. cbv zeta. all_logged; apply (placed_at l); assumption.
Qed.

Lemma checkLine_placed (l : jsstring) (k : Z) :
  get lines k = Some l ->
  Forall placed (logged (checkLine compileName file lines l k)).
Proof using Type.
  intros Hg. unfold checkLine.
  repeat (apply all_logged_bind; [| intros _]);
    [apply checkMethod_placed; exact Hg
    | apply checkProperty_placed; [| exact Hg] ..];
    unfold isDeclaration; intros ->; rewrite ?orb_true_r; reflexivity.
Qed.

End Placed.

(** X10.  Every violation that checkFile returns carries the name of the
    file and the number of a line of the file that is the declaration of a
    method or of a reactive property. *)
Theorem violations_on_declarations (compileName : jsstring -> option re)
  (fs : FileSystem) (file text : jsstring) (r : FileResult) :
  fs file = Some text -> checkFile compileName fs file = Ok r ->
  Forall (fun v =>
            v_file v = file /\
            exists l, get (split_on 10%N text) (v_line v - 1) = Some l
                      /\ isDeclaration l = true)
         (violations r).
Proof.
  intros Hfs. unfold checkFile, readFileSync. rewrite Hfs.
  destruct (result _); [| discriminate]. intros [= <-]. cbn [violations].
  apply (all_logged_lines _ _ (split_on 10%N text) []).
  intros x k Hg. now apply checkLine_placed.
Qed.

Lemma violations_on_declarations_witness :
  Forall (fun v =>
            v_file v = js "src/cart.ts" /\
            exists l, get (split_on 10%N oneBadMethod) (v_line v - 1) = Some l
                      /\ isDeclaration l = true)
         [mkViolation (js "src/cart.ts") 1 (js "Missing JSDoc above method");
          mkViolation (js "src/cart.ts") 1
            (js "Missing access modifier on method")].
Proof.
  apply (violations_on_declarations wordNamesOnly missingFirstFs
           (js "src/cart.ts") oneBadMethod
           (mkFileResult true
              [mkViolation (js "src/cart.ts") 1
                 (js "Missing JSDoc above method");
               mkViolation (js "src/cart.ts") 1
                 (js "Missing access modifier on method")])).
  - reflexivity.
  - vm_compute. reflexivity.
Defined.

(** *** The messages that are never reported *)

Lemma all_logged_bind_result {L A B} (P : L -> Prop) (m : Eff L A)
  (f : A -> Eff L B) :
  Forall P (logged m) ->
  (forall a, result m = Ok a -> Forall P (logged (f a))) ->
  Forall P (logged (bind m f)).
Proof.
  intros Hm Hf. rewrite logged_bind. apply Forall_app. split; [assumption |].
  destruct (result m) as [a | e]; [now apply Hf | constructor].
Qed.

Lemma all_logged_forEach_in {L A} (P : L -> Prop) (f : A -> Eff L unit)
  (xs : list A) :
  (forall x, In x xs -> Forall P (logged (f x))) ->
  Forall P (logged (forEach f xs)).
Proof.
  induction xs as [| x xs IH]; intros H; cbn [forEach]; [constructor |].
  apply all_logged_bind; [apply H; now left |].
  intros _. apply IH. intros y Hy. apply H. now right.
Qed.

Ltac reach :=
  split;
  [ vm_compute; discriminate
  | intros ? [<- | [<- | [<- | [<- | [<- | []]]]]]; vm_compute; discriminate ].

Lemma accessCheck_reachable (content : jsstring) (am : option jsstring) :
  reachable (message (checkAccessModifierTag content am)).
Proof.
  unfold checkAccessModifierTag.
  repeat match goal with
         | |- context [if ?c then _ else _] => destruct c
         end; cbn [message]; reach.
Qed.

Lemma paramErrors_reachable (compileName : jsstring -> option re)
  (content : jsstring) (ps : list Param) (pc : ParamCheck) :
  checkParamTags compileName content ps = Ok pc ->
  Forall reachable (errors pc).
Proof.
  unfold checkParamTags. destruct (Nat.eqb (length ps) 0).
  { intros [= <-]. constructor. }
  destruct (result _); [| discriminate]. intros [= <-]. cbn [errors].
  apply all_logged_bind; [| intros _].
  - apply all_logged_forEach. intros p. unfold paramStep.
    destruct (isDestructured p); [constructor |].
    destruct (compileName (name p)); [| constructor].
    destruct (exec _ content).
    + apply all_logged_when, all_logged_emit. reach.
    + apply all_logged_emit. reach.
  - apply all_logged_forEach. intros d. unfold extraStep.
    apply all_logged_when, all_logged_emit. reach.
Qed.

Section Reached.

Variable compileName : jsstring -> option re.
Variables (file : jsstring) (lines : list jsstring).

Let reached (v : Violation) : Prop := reachable (v_message v).

Lemma checkMethod_reached (l : jsstring) (k : Z) :
  Forall reached (logged (checkMethod compileName file lines l k)).
Proof using Type.
  unfold checkMethod.
  destruct (test methodRegex l) eqn:E; [| constructor]. cbn [when].
  rewrite (method_has_return_type l E). unfold addViolation. cbv zeta.
  cbn [negb when].
  apply all_logged_bind; [constructor | intros info].
  apply all_logged_bind; [| intros _; all_logged; reach].
  destruct (negb (exists_ info)); [apply all_logged_emit; reach |].
  apply all_logged_bind; [all_logged; reach | intros _].
  apply all_logged_bind;
    [apply all_logged_when, all_logged_emit, accessCheck_reachable
    | intros _].
  apply all_logged_bind_result; [constructor | intros pc Hpc].
  apply all_logged_when, all_logged_forEach_in. intros err Hin.
  apply all_logged_emit. unfold reached. cbn [v_message].
  pose proof (paramErrors_reachable _ _ _ _ Hpc) as Hall.
  rewrite Forall_forall in Hall. now apply Hall.
Qed.

Lemma checkProperty_reached (readonly : bool) (tl : list re)
  (shown typeName : string) (l : jsstring) (k : Z) :
  reachable (js "Missing JSDoc above " ++ js shown) ->
  reachable (notSingleLineMsg (js typeName)) ->
  reachable (emptyDocMsg (js typeName)) ->
  Forall reached
    (logged (checkProperty (seqs (propertyHead readonly ++ tl)) shown typeName
               file lines l k)).
Proof using Type.
  intros H1 H2 H3. unfold checkProperty.
  destruct (test _ l) eqn:E; [| constructor]. cbn [when].
  rewrite (head_has_visibility readonly tl l E). cbn [negb when].
  unfold addViolation. cbv zeta.
  apply all_logged_bind; [constructor | intros info].
  apply all_logged_bind; [| intros _; constructor].
  destruct (negb (exists_ info)); [now apply all_logged_emit |].
  apply all_logged_forEach_in. intros err Hin. apply all_logged_emit.
  unfold reached. cbn [v_message]. unfold checkSingleLineJsDoc in Hin.
  apply in_app_or in Hin. destruct Hin as [Hin | Hin].
  - destruct (negb (isSingleLine info)); [| destruct Hin].
    destruct Hin as [<- | []]. exact H2.
  - destruct (isSingleLine info); [| destruct Hin].
    cbv zeta in Hin. destruct (isEmpty _); [| destruct Hin].
    destruct Hin as [<- | []]. exact H3.
Qed.

Lemma checkLine_reached (l : jsstring) (k : Z) :
  Forall reached (logged (checkLine compileName file lines l k)).
Proof using Type.
  unfold checkLine.
  repeat (apply all_logged_bind; [| intros _]);
    [apply checkMethod_reached | ..].
  - apply (checkProperty_reached true); reach.
  - apply (checkProperty_reached true); reach.
  - apply (checkProperty_reached false); reach.
  - apply (checkProperty_reached false); reach.
  - apply (checkProperty_reached true); reach.
Qed.

End Reached.

(** X11.  checkFile never reports that a return type is missing, nor that
    an access modifier is missing on a reactive property: the pattern that
    selects the line of a method requires a return type, and the patterns of
    the reactive properties require a visibility keyword. *)
Theorem dead_checks_never_reported (compileName : jsstring -> option re)
  (fs : FileSystem) (file : jsstring) (r : FileResult) :
  checkFile compileName fs file = Ok r ->
  Forall (fun v =>
            v_message v <> js "Missing return type" /\
            forall shown, In shown reactiveNames ->
              v_message v <> js "Missing access modifier on " ++ shown)
         (violations r).
Proof.
  unfold checkFile, readFileSync. destruct (fs file) as [text |];
    [| discriminate].
  destruct (result _); [| discriminate]. intros [= <-]. cbn [violations].
  apply all_logged_forEachIdx. intros x k. apply checkLine_reached.
Qed.

Lemma dead_checks_witness :
  Forall (fun v =>
            v_message v <> js "Missing return type" /\
            forall shown, In shown reactiveNames ->
              v_message v <> js "Missing access modifier on " ++ shown)
         [mkViolation (js "src/cart.ts") 1 (js "Missing JSDoc above method");
          mkViolation (js "src/cart.ts") 1
            (js "Missing access modifier on method")].
Proof.
  apply (dead_checks_never_reported wordNamesOnly missingFirstFs
           (js "src/cart.ts")
           (mkFileResult true
              [mkViolation (js "src/cart.ts") 1
                 (js "Missing JSDoc above method");
               mkViolation (js "src/cart.ts") 1
                 (js "Missing access modifier on method")])).
  vm_compute. reflexivity.
Defined.

(** *** The exit code *)

Lemma checkAll_ok (compileName : jsstring -> option re) (fs : FileSystem)
  (files : list jsstring) :
  (forall f, In f files -> exists r, checkFile compileName fs f = Ok r) ->
  forall acc,
    checkAll compileName fs files acc
    = Ok (acc || existsb (failsCheck compileName fs) files).
Proof.
  induction files as [| f files IH]; intros H acc; cbn [checkAll existsb].
  - now rewrite orb_false_r.
  - destruct (H f (or_introl eq_refl)) as [r Hr]. unfold failsCheck at 1.
    rewrite Hr. rewrite IH by (intros g Hg; apply H; now right).
    f_equal. destruct (hasError r), acc; reflexivity.
Qed.

Lemma checkAll_throw (compileName : jsstring -> option re) (fs : FileSystem)
  (good rest : list jsstring) (bad : jsstring) (e : exn) :
  (forall f, In f good -> exists r, checkFile compileName fs f = Ok r) ->
  checkFile compileName fs bad = Throw e ->
  forall acc, checkAll compileName fs (good ++ bad :: rest) acc = Throw e.
Proof.
  induction good as [| f good IH]; intros H Hb acc; cbn [app checkAll].
  - now rewrite Hb.
  - destruct (H f (or_introl eq_refl)) as [r Hr]. rewrite Hr.
    apply IH; [| assumption]. intros g Hg. apply H. now right.
Qed.

(** X12.  The command line ends with code 1 exactly when a file has a
    violation and with code 0 otherwise, provided every file can be
    checked; when a file cannot, the run ends with the exception of the
    first such file, whatever the files before it hold. *)
Theorem cli_exit_code (compileName : jsstring -> option re) (fs : FileSystem) :
  (forall files,
     (forall f, In f files -> exists r, checkFile compileName fs f = Ok r) ->
     cli compileName fs files
     = Ok (if existsb (failsCheck compileName fs) files then 1 else 0)%Z)
  /\
  (forall good bad rest e,
     (forall f, In f good -> exists r, checkFile compileName fs f = Ok r) ->
     checkFile compileName fs bad = Throw e ->
     cli compileName fs (good ++ bad :: rest) = Throw e).
Proof.
  split.
  - intros files H. unfold cli. rewrite (checkAll_ok _ _ _ H). cbn [orb].
    now destruct (existsb _ files).
  - intros good bad rest e H Hb. unfold cli.
    now rewrite (checkAll_throw _ _ _ _ _ _ H Hb).
Qed.

End CheckFacts.

(** ** The files that collectFiles finds *)

Module CliFacts.
Import Re Cli CliSpec.

Lemma pathOf_cons (join : jsstring -> jsstring -> jsstring)
  (dir name : jsstring) (names : list jsstring) :
  pathOf join dir (name :: names) = pathOf join (join dir name) names.
Proof. reflexivity. Qed.

Lemma collectIn_found (join : jsstring -> jsstring -> jsstring) (n : Node) :
  forall dir p, In p (collectIn join dir n) <-> found join dir n p.
Proof.
  induction n as [| | entries IH] using Node_tree_ind; intros dir p.
  - split; [intros [] |]. intros [dirs [es [last [Hw _]]]]. inversion Hw.
  - split; [intros [] |]. intros [dirs [es [last [Hw _]]]]. inversion Hw.
  - cbn [collectIn]. rewrite in_flat_map. rewrite Forall_forall in IH. split.
    + intros [[name node] [Hin Hp]]. cbn [fst snd] in Hp.
      destruct node as [| sub |].
      * destruct (endsWith name (js ".ts")) eqn:E; [| destruct Hp].
        destruct Hp as [<- | []].
        exists [], entries, name. repeat split; auto; constructor.
      * destruct (skipped name) eqn:E; [destruct Hp |].
        apply (IH _ Hin) in Hp.
        destruct Hp as [dirs [es [last [Hw [Hs [Hl [He ->]]]]]]].
        exists (name :: dirs), es, last.
        split; [now apply walk_down with sub |].
        split; [now constructor |]. now repeat split.
      * destruct Hp.
    + intros [dirs [es [last [Hw [Hs [Hl [He ->]]]]]]].
      inversion Hw as [| ? name sub dirs' ? Hin Hw']; subst.
      * exists (last, File). split; [assumption |]. cbn [fst snd app].
        rewrite He. now left.
      * exists (name, Dir sub). split; [assumption |]. cbn [fst snd].
        inversion Hs as [| ? ? Hn Hs']; subst. rewrite Hn.
        apply (IH _ Hin). exists dirs', es, last. repeat split; auto.
Qed.

(** X18.  collectFiles on a directory returns exactly the paths of the
    files whose name ends with .ts and that are reached from the directory
    through directories none of which bears a name of SKIP_DIRS; the name of
    the directory itself is not looked at, and entries that are neither
    files nor directories are passed over.  A path that does not exist gives
    no file, and a path that is not a directory makes the call throw. *)
Theorem collectFiles_finds (join : jsstring -> jsstring -> jsstring)
  (dir : jsstring) :
  collectFiles join None dir = Ok []
  /\ collectFiles join (Some File) dir = Throw IOError
  /\ collectFiles join (Some Other) dir = Throw IOError
  /\ forall entries,
       exists files,
         collectFiles join (Some (Dir entries)) dir = Ok files
         /\ forall p, In p files <-> found join dir (Dir entries) p.
Proof.
  repeat split; try reflexivity.
  intros entries. eexists. split; [reflexivity |].
  intros p. apply (collectIn_found join (Dir entries)).
Qed.

(** A source tree with a vendored directory. *)
Example collectFiles_example :
  collectFiles (fun d n => d ++ js "/" ++ n)
    (Some (Dir [(js "app", Dir [(js "cart.ts", File); (js "cart.css", File);
                                (js "node_modules",
                                 Dir [(js "lib.ts", File)])]);
                (js "main.ts", File); (js "link.ts", Other)]))
    (js "src")
  = Ok [js "src/app/cart.ts"; js "src/main.ts"].
Proof. vm_compute. reflexivity. Qed.

(** ** The paths of [git status] *)

Import ReSpec ReFacts StdSpec StdFacts.

(** A split goes over a text where the separator cannot start. *)
Lemma split_from_skip (r : re) (pre post piece before : jsstring) (fuel : nat) :
  (forall p1 x p2, pre = p1 ++ x :: p2 ->
     run r (mk_st (rev p1 ++ before) (x :: p2 ++ post) []) = []) ->
  split_from r (length pre + fuel) piece before (pre ++ post)
  = split_from r fuel (rev pre ++ piece) (rev pre ++ before) post.
Proof.
  revert piece before.
  induction pre as [| c pre IH]; intros piece before H; [reflexivity |].
  pose proof (H [] c pre eq_refl) as H0. cbn [rev app] in H0.
  cbn [length Nat.add app split_from]. rewrite H0. cbn [rev].
  rewrite <- !app_assoc. cbn [app]. apply IH.
  intros p1 x p2 E. specialize (H (c :: p1) x p2). cbn [rev app] in H.
  rewrite <- app_assoc in H. apply H. now rewrite E.
Qed.

(** A separator that is not empty closes the piece. *)
Lemma split_from_match (r : re) (piece before after : jsstring) (m : st)
  (fuel : nat) :
  after <> [] -> leads r (mk_st before after []) m ->
  length (seen m) <> length before ->
  split_from r (S fuel) piece before after
  = rev piece :: split_from r fuel [] (seen m) (todo m).
Proof.
  intros Ha [tl H] Hl. destruct after as [| c t]; [congruence |].
  cbn [split_from]. rewrite H.
  apply Nat.eqb_neq in Hl. rewrite Hl, andb_false_r. reflexivity.
Qed.

Lemma split_from_end (r : re) (piece before : jsstring) (fuel : nat) :
  split_from r (S fuel) piece before [] = [rev piece].
Proof. reflexivity. Qed.

Lemma spaces_cannot_start (pre post before : jsstring) :
  Forall (fun c => is_space c = false) pre ->
  forall p1 x p2, pre = p1 ++ x :: p2 ->
    run spacesRe (mk_st (rev p1 ++ before) (x :: p2 ++ post) []) = [].
Proof.
  intros H p1 x p2 E. apply run_seq_chr_stops. cbn [stops].
  apply (proj1 (Forall_forall _ _) H). rewrite E. apply in_elt.
Qed.

(** Two words with white space between them are split into the two. *)
Lemma split_two_words (a ws b : jsstring) :
  a <> [] -> ws <> [] -> 
  Forall (fun c => is_space c = false) a ->
  Forall (fun c => is_space c = true) ws ->
  Forall (fun c => is_space c = false) b ->
  split_re spacesRe (a ++ ws ++ b) = [a; b].
Proof.
  intros Ha Hw Fa Fw Fb. unfold split_re.
  destruct (a ++ ws ++ b) as [| x0 r0] eqn:E0;
    [destruct a; [congruence | discriminate] |].
  rewrite <- E0. clear x0 r0 E0.
  replace (2 * length (a ++ ws ++ b) + 2)
    with (length a + S (length b + S (length a + 2 * length ws + length b)))
    by (rewrite !length_app; lia).
  rewrite split_from_skip by now apply spaces_cannot_start.
  rewrite !app_nil_r.
  destruct ws as [| s ws]; [congruence |]. inversion Fw as [| ? ? Hs Fw']; subst.
  rewrite (split_from_match spacesRe (rev a) (rev a) ((s :: ws) ++ b)
             (mk_st (rev (s :: ws) ++ rev a) b [])).
  - cbn [seen todo]. rewrite rev_involutive. f_equal.
    pose proof (split_from_skip spacesRe b [] [] (rev (s :: ws) ++ rev a)
                  (S (length a + 2 * length (s :: ws) + length b))
                  (spaces_cannot_start b [] _ Fb)) as K.
    rewrite (app_nil_r b) in K. rewrite K, split_from_end, app_nil_r.
    now rewrite rev_involutive.
  - discriminate.
  - cbn [app]. apply leads_plus; [exact Hs | exact Fw' |].
    destruct Fb; [exact I | assumption].
  - cbn [seen]. rewrite length_app, length_rev. cbn [length]. lia.
Qed.

Lemma trim_words (lead s : jsstring) :
  Forall (fun c => is_space c = true) lead ->
  stops is_space s -> stops is_space (rev s) ->
  trim (lead ++ s) = s.
Proof.
  intros Hl H1 H2. unfold trim. rewrite trimStart_app by assumption.
  rewrite <- (app_nil_r s) at 1. now apply trimEnd_app.
Qed.

(** Of a line that is no rename, a status code, white space and a path
    without white space, the path is taken whatever the status code is. *)
Lemma status_line_path (lead cw ws path : jsstring) (c : char) :
  Forall (fun x => is_space x = true) lead ->
  Forall (fun x => is_space x = false) (c :: cw) ->
  c <> 82%N ->
  ws <> [] -> Forall (fun x => is_space x = true) ws ->
  path <> [] -> Forall (fun x => is_space x = false) path ->
  statusPath (lead ++ (c :: cw) ++ ws ++ path) = Some path.
Proof.
  intros Hl Fc Hr Hw Fw Hp Fp. unfold statusPath.
  assert (Ht : trim (lead ++ (c :: cw) ++ ws ++ path)
               = (c :: cw) ++ ws ++ path).
  { apply trim_words; [exact Hl | |].
    - now inversion Fc.
    - rewrite !rev_app_distr.
      destruct (stops_of_all is_space path Fp) as [_ H].
      destruct (rev path) as [| y r] eqn:E; [| exact H].
      apply (f_equal (@length _)) in E. rewrite length_rev in E.
      destruct path; [congruence | discriminate]. }
  rewrite Ht.
  replace (startsWith ((c :: cw) ++ ws ++ path) (js "R")) with false.
  - cbv zeta. rewrite split_two_words by (assumption || discriminate).
    cbn [length Nat.sub nth_error]. now destruct path.
  - cbn [app].
    change (false = char_eqb 82 c && startsWith (cw ++ ws ++ path) []).
    replace (char_eqb 82 c) with false; [reflexivity |].
    symmetry. apply N.eqb_neq. congruence.
Qed.

Lemma includes_tail (pre tl p : jsstring) :
  includes (pre ++ tl) p = false -> includes tl p = false.
Proof.
  induction pre as [| c pre IH]; [trivial |].
  cbn [app includes]. intros H. apply orb_false_iff in H. now apply IH.
Qed.

(** No arrow begins in a text that holds none, whatever follows the text
    after an arrow. *)
Lemma no_arrow_inside (pre rest p1 p2 : jsstring) (x : char) :
  includes pre (js "->") = false -> pre = p1 ++ x :: p2 ->
  startsWith (x :: p2 ++ js "->" ++ rest) (js "->") = false.
Proof.
  intros H E. rewrite E in H. apply includes_tail in H.
  cbn [includes] in H. apply orb_false_iff in H. destruct H as [H _].
  destruct p2 as [| y p2].
  - cbn. now rewrite andb_false_r.
  - change (char_eqb 45 x && (char_eqb 62 y && startsWith p2 []) = false)
      in H.
    change (char_eqb 45 x
            && (char_eqb 62 y && startsWith (p2 ++ js "->" ++ rest) [])
            = false).
    destruct (char_eqb 45 x); [| reflexivity].
    destruct (char_eqb 62 y); [| reflexivity].
    cbn [andb] in H. now destruct p2.
Qed.

Lemma leads_eol (sn : jsstring) (cp : list (nat * jsstring)) :
  leads (Eol false) (mk_st sn [] cp) (mk_st sn [] cp).
Proof. now exists []. Qed.

(** Of a rename line, "R", the old path, an arrow, white space and the new
    path, the new path is taken. *)
Lemma rename_line_new_path (lead old ws new : jsstring) :
  Forall (fun x => is_space x = true) lead ->
  includes (js "R" ++ old) (js "->") = false ->
  Forall (fun x => is_space x = true) ws ->
  new <> [] ->
  Forall (fun x => is_line_terminator x = false) new ->
  stops is_space new -> stops is_space (rev new) ->
  statusPath (lead ++ js "R" ++ old ++ js "->" ++ ws ++ new) = Some new.
Proof.
  intros Hl Ho Fw Hn Fn N1 N2. unfold statusPath.
  assert (Ht : trim (lead ++ js "R" ++ old ++ js "->" ++ ws ++ new)
               = js "R" ++ old ++ js "->" ++ ws ++ new).
  { apply trim_words; [exact Hl | reflexivity |].
    rewrite !app_assoc, rev_app_distr.
    destruct (rev new) as [| y r] eqn:E; [| exact N2].
    apply (f_equal (@length _)) in E. rewrite length_rev in E.
    destruct new; [congruence | discriminate]. }
  rewrite Ht.
  replace (startsWith (js "R" ++ old ++ js "->" ++ ws ++ new) (js "R"))
    with true by (cbn; now destruct (old ++ _)).
  unfold exec. rewrite app_assoc.
  rewrite exec_from_skip.
  - destruct new as [| c w]; [congruence |]. inversion Fn as [| ? ? Hc Fw']; subst.
    rewrite (exec_from_leads renameRe _ _
               (mk_st (rev (c :: w) ++ rev ws ++ rev (js "->")
                       ++ rev (js "R" ++ old) ++ [])
                      [] [(1, c :: w)])); [reflexivity |].
    unfold renameRe. cbn [seqs].
    eapply leads_seq; [apply leads_lit |].
    eapply leads_seq; [apply leads_star; [exact Fw | exact N1] |].
    eapply leads_seq; [| apply leads_eol].
    rewrite <- (app_nil_r (c :: w)) at 1. cbn [app]. apply leads_grp_plus.
    + now rewrite Hc.
    + eapply Forall_impl; [| exact Fw']. cbn. now intros ? ->.
    + exact I.
  - intros p1 x p2 E. unfold renameRe. cbn [seqs].
    apply run_lit_mismatch. cbn [todo].
    now apply (no_arrow_inside (js "R" ++ old) (ws ++ new) p1).
Qed.

Lemma newline_cannot_start (pre post before : jsstring) :
  oneLine pre ->
  forall p1 x p2, pre = p1 ++ x :: p2 ->
    run newlineRe (mk_st (rev p1 ++ before) (x :: p2 ++ post) []) = [].
Proof.
  intros [H10 H13] p1 x p2 E.
  assert (Hx : In x pre) by (rewrite E; apply in_elt).
  assert (E10 : char_eqb 10 x = false)
    by (apply N.eqb_neq; intros F; apply H10; now rewrite F).
  assert (E13 : char_eqb 13 x = false)
    by (apply N.eqb_neq; intros F; apply H13; now rewrite F).
  unfold newlineRe, opt. cbn [seqs run todo flat_map app advance seen].
  rewrite E13. cbn [app flat_map run todo]. now rewrite E10.
Qed.

Lemma newline_found (crlf : bool) (before after : jsstring) :
  leads newlineRe
    (mk_st before ((if crlf then [13%N; 10%N] else [10%N]) ++ after) [])
    (mk_st (rev (if crlf then [13%N; 10%N] else [10%N]) ++ before) after []).
Proof.
  unfold newlineRe, opt. cbn [seqs]. destruct crlf.
  - eapply leads_seq; [apply leads_alt_left; now apply leads_chr |].
    now apply leads_chr.
  - eapply leads_seq; [apply leads_alt_right; [reflexivity | apply leads_eps] |].
    now apply leads_chr.
Qed.

Lemma split_from_lines (ls : list (jsstring * bool)) :
  Forall (fun l => oneLine (fst l)) ls ->
  forall (before : jsstring) (fuel : nat),
    length (printed ls) < fuel ->
    split_from newlineRe fuel [] before (printed ls) = map fst ls ++ [[]].
Proof.
  induction 1 as [| [l crlf] ls Hl Hls IH]; intros before fuel Hf.
  - destruct fuel; [inversion Hf | reflexivity].
  - unfold printed in *. cbn [map concat fst snd] in *.
    rewrite !length_app in Hf. rewrite <- app_assoc.
    replace fuel with (length l + S (fuel - length l - 1)) by lia.
    rewrite split_from_skip by now apply newline_cannot_start.
    rewrite app_nil_r.
    set (rest := concat _) in *.
    assert (Hne : (if crlf then [13%N; 10%N] else [10%N]) ++ rest <> [])
      by now destruct crlf.
    rewrite (split_from_match newlineRe _ _ _ _ _ Hne
               (newline_found crlf _ _)).
    + cbn [seen todo app]. rewrite rev_involutive. f_equal.
      apply IH. destruct crlf; cbn [length] in Hf; lia.
    + cbn [seen]. rewrite length_app, length_rev. destruct crlf; cbn; lia.
Qed.

Lemma split_lines (ls : list (jsstring * bool)) :
  Forall (fun l => oneLine (fst l)) ls ->
  split_re newlineRe (printed ls) = map fst ls ++ [[]].
Proof.
  intros H. unfold split_re.
  destruct (printed ls) as [| c s] eqn:E.
  - destruct ls as [| [l [|]] ls]; [reflexivity | |];
      unfold printed in E; cbn in E; destruct l; discriminate.
  - rewrite <- E. apply split_from_lines; [exact H | lia].
Qed.

Lemma nonEmpty_lines (ls : list jsstring) :
  nonEmpty (ls ++ [[]]) = nonEmpty ls.
Proof.
  unfold nonEmpty. rewrite filter_app. cbn. apply app_nil_r.
Qed.

Lemma reports_read (l p : jsstring) :
  reports l p -> l <> [] /\ p <> [] /\ statusPath l = Some p.
Proof.
  intros H. destruct H as [lead cw ws path c Hl Fc Hc Hw Fw Hp Fp
                          | lead old ws new Hl Ho Fw Hn Fn N1 N2].
  - repeat split; [| exact Hp | now apply status_line_path].
    intros F. apply app_eq_nil in F. destruct F as [_ F]. discriminate.
  - repeat split; [| exact Hn | now apply rename_line_new_path].
    intros F. apply app_eq_nil in F. destruct F as [_ F]. discriminate.
Qed.

Lemma reported_paths (lines paths : list jsstring) :
  Forall2 reports lines paths ->
  present (map statusPath (nonEmpty lines)) = paths.
Proof.
  induction 1 as [| l p lines paths H _ IH]; [reflexivity |].
  destruct (reports_read l p H) as (Hl & Hp & E).
  unfold nonEmpty in *. cbn [filter].
  destruct l as [| c l]; [congruence |]. cbn [isEmpty negb map].
  unfold present in *. cbn [flat_map]. rewrite E, IH.
  destruct p; [congruence | reflexivity].
Qed.

(** X22.  Where [git status --porcelain] prints one line for each path,
    getChangedFiles without [staged] and [ref] returns the paths that end in
    ".ts", in the order of the lines and whatever the status is: the new path
    of a rename, and a deleted file like a changed one. *)
Theorem changed_files_of_status (execSync : jsstring -> outcome jsstring)
  (ls : list (jsstring * bool)) (paths : list jsstring)
  (ref : option jsstring) (inside : jsstring) :
  execSync (js "git rev-parse --is-inside-work-tree") = Ok inside ->
  truthy ref = false ->
  execSync (js "git status --porcelain") = Ok (printed ls) ->
  Forall (fun l => oneLine (fst l)) ls ->
  Forall2 reports (map fst ls) paths ->
  getChangedFiles execSync false ref = onlyTs paths.
Proof.
  intros Hin Href Hout Hls Hrep. unfold getChangedFiles, isGitRepo.
  rewrite Hin, Href, Hout. cbn [negb]. cbv zeta.
  rewrite (split_lines ls Hls), nonEmpty_lines.
  now rewrite (reported_paths _ _ Hrep).
Qed.

Lemma changed_files_of_status_witness :
  getChangedFiles statusOfTree false None
  = [js "src/old.service.ts"; js "src/b.ts"].
Proof.
  apply (changed_files_of_status statusOfTree
           [(js " D src/old.service.ts", false);
            (js "R  src/a.ts -> src/b.ts", false);
            (js "?? README.md", false)]
           [js "src/old.service.ts"; js "src/b.ts"; js "README.md"]
           None []).
  - reflexivity.
  - reflexivity.
  - reflexivity.
  - repeat constructor; cbn; intros H;
      repeat (destruct H as [H | H]; [discriminate |]); exact H.
  - constructor; [| constructor; [| constructor; [| constructor]]].
    + apply (@reports_status (js " ") [] (js " ") (js "src/old.service.ts")
               68%N); try discriminate; repeat constructor.
    + apply (@reports_rename [] (js "  src/a.ts ") (js " ") (js "src/b.ts"));
        try discriminate; try reflexivity; repeat constructor.
    + apply (@reports_status [] (js "?") (js " ") (js "README.md") 63%N);
        try discriminate; repeat constructor.
Defined.

(** X23.  With [staged], or else with a [ref], getChangedFiles returns the
    lines that [git diff --name-only] prints and that end in ".ts", in their
    order; with [staged] the [ref] is not looked at. *)
Theorem changed_files_of_diff (execSync : jsstring -> outcome jsstring)
  (ls : list (jsstring * bool)) (staged : bool) (ref : option jsstring)
  (inside : jsstring) :
  execSync (js "git rev-parse --is-inside-work-tree") = Ok inside ->
  staged || truthy ref = true ->
  execSync
    (if staged
     then js "git diff --name-only --cached --diff-filter=ACMRTUXB"
     else js "git diff --name-only --diff-filter=ACMRTUXB "
          ++ ToString ref ++ js "...HEAD")
  = Ok (printed ls) ->
  Forall (fun l => oneLine (fst l)) ls ->
  getChangedFiles execSync staged ref = onlyTs (nonEmpty (map fst ls)).
Proof.
  intros Hin Hsel Hout Hls. unfold getChangedFiles, isGitRepo.
  rewrite Hin. cbn [negb]. cbv zeta.
  destruct staged.
  - now rewrite Hout, (split_lines ls Hls), nonEmpty_lines.
  - cbn [orb] in Hsel.
    now rewrite Hsel, Hout, (split_lines ls Hls), nonEmpty_lines.
Qed.

Lemma changed_files_of_diff_witness :
  getChangedFiles diffOfBranch false (Some (js "main"))
  = [js "src/app.component.ts"].
Proof.
  apply (changed_files_of_diff diffOfBranch
           [(js "src/app.component.ts", true); (js "package.json", true)]
           false (Some (js "main")) []).
  - reflexivity.
  - reflexivity.
  - reflexivity.
  - repeat constructor; cbn; intros H;
      repeat (destruct H as [H | H]; [discriminate |]); exact H.
Defined.

End CliFacts.

(** ** Posting the review *)

Module PostFacts.
Import Diff Post PostSpec.

Lemma firstThirty_bound (l : list ReviewComment) :
  length (firstThirty l) <= 30 /\ length (firstThirty l) <= length l.
Proof.
  unfold firstThirty. rewrite length_firstn. lia.
Qed.

(** C8.  With no violation, and when the file of violations cannot be read,
    nothing is sent.  With violations, one review is requested; its inline
    comments are the first thirty of the violations mapped one to one, each
    with the path, line and body of its violation; when the request fails, one
    summary comment is created next, and the run ends as that call does. *)
Theorem postReview_behaviour (github : GitHub) (context : Context) :
  postReview github context (Ok []) = ([], Ok tt) /\
  (forall e, postReview github context (Throw e) = ([], Ok tt)) /\
  (forall c cs,
     let comments := c :: cs in
     let inline := map toReviewComment comments in
     let review :=
       mkReviewRequest (owner context) (repo context) (number context)
         (reviewBody (length comments)) (js "REQUEST_CHANGES")
         (firstn 30 inline) in
     let summary :=
       mkIssueComment (owner context) (repo context) (number context)
         (summaryBody (length comments)) in
     length inline = length comments /\
     (forall i v, nth_error comments i = Some v ->
        nth_error inline i
        = Some (mkReviewComment (path v) (line v) (js "RIGHT") (body v))) /\
     length (rr_comments review) = Nat.min 30 (length comments) /\
     (createReview github review = Ok tt ->
      postReview github context (Ok comments) = ([CreateReview review], Ok tt)) /\
     (forall e, createReview github review = Throw e ->
        postReview github context (Ok comments)
        = ([CreateReview review; CreateComment summary],
           createComment github summary))).
Proof.
  split; [reflexivity |]. split; [reflexivity |].
  intros c cs comments inline review summary.
  split; [apply length_map |].
  split.
  { intros i v H. unfold inline. rewrite nth_error_map, H. reflexivity. }
  split.
  { cbn [rr_comments review]. unfold inline.
    now rewrite length_firstn, length_map. }
  unfold postReview. cbn [length Nat.ltb Nat.leb].
  fold comments. fold inline. unfold firstThirty. fold review. fold summary.
  split.
  - intros E. rewrite E. reflexivity.
  - intros e E. rewrite E. cbn [bind emit].
    destruct (createComment github summary); reflexivity.
Qed.

Example postReview_fallback :
  match postReview refusing here (Ok forty) with
  | ([CreateReview r; CreateComment s], Ok tt) =>
      length (rr_comments r) = 30 /\
      map rc_line (rr_comments r) = map Z.of_nat (seq 1 30) /\
      ic_body s = js "## " ++ magnifier ++ js " Code Standards Violations"
                  ++ nl ++ nl
                  ++ js "Found 40 violations. Check logs for details."
  | _ => False
  end.
Proof. vm_compute. repeat split; reflexivity. Qed.

(** *** The text that is parsed *)

Import Re ReSpec ReFacts PostRead.

(** A star of a class before a pattern: the pattern is tried after the
    longest run first, and last where the star began. *)
Lemma run_star_then (p : char -> bool) (k : re) (x : char)
  (sn t : jsstring) (cp : list (nat * jsstring)) :
  p x = true ->
  run (Seq (Star (Chr p)) k) (mk_st sn (x :: t) cp)
  = run (Seq (Star (Chr p)) k) (mk_st (x :: sn) t cp)
    ++ run k (mk_st sn (x :: t) cp).
Proof.
  intros Hp. cbn [run todo length star_loop]. rewrite Hp.
  cbn [flat_map advance todo seen caps length].
  destruct (Nat.ltb_spec (length t) (S (length t))); [| lia].
  rewrite app_nil_r, flat_map_app. cbn [flat_map]. now rewrite app_nil_r.
Qed.

Lemma run_star_then_nil (p : char -> bool) (k : re) (sn : jsstring)
  (cp : list (nat * jsstring)) :
  run (Seq (Star (Chr p)) k) (mk_st sn [] cp) = run k (mk_st sn [] cp).
Proof. cbn [run todo length star_loop flat_map]. now rewrite app_nil_r. Qed.

Lemma anyChar_all (x : char) : is_space x || negb (is_space x) = true.
Proof. now destruct (is_space x). Qed.

Lemma no_closing_bracket (c sn : jsstring) (cp : list (nat * jsstring)) :
  ~ In 93%N c ->
  run (Seq (Star anyChar) (ch "]")) (mk_st sn c cp) = [].
Proof.
  revert sn. induction c as [| x c IH]; intros sn Hc; unfold anyChar.
  - rewrite run_star_then_nil. reflexivity.
  - rewrite run_star_then by apply anyChar_all.
    fold anyChar. rewrite IH by (intros F; apply Hc; now right).
    change (ch "]") with (Chr (char_eqb 93%N)). cbn [app].
    apply run_chr_stops. cbn [stops]. unfold char_eqb.
    destruct (N.eqb_spec 93%N x) as [F | F]; [| reflexivity].
    exfalso. apply Hc. now left.
Qed.

(** The star goes back to the last closing bracket. *)
Lemma last_closing_bracket (b c sn : jsstring) (cp : list (nat * jsstring)) :
  ~ In 93%N c ->
  leads (Seq (Star anyChar) (ch "]")) (mk_st sn (b ++ 93%N :: c) cp)
        (mk_st (93%N :: rev b ++ sn) c cp).
Proof.
  intros Hc. revert sn. induction b as [| x b IH]; intros sn; unfold anyChar.
  - cbn [app rev]. unfold leads. rewrite run_star_then by apply anyChar_all.
    fold anyChar. rewrite no_closing_bracket by assumption. cbn [app].
    change (ch "]") with (Chr (char_eqb 93%N)).
    rewrite run_chr_cons by reflexivity. eauto.
  - cbn [app rev]. unfold leads. rewrite run_star_then by apply anyChar_all.
    fold anyChar. destruct (IH (x :: sn)) as [tl E]. rewrite E.
    rewrite <- app_assoc. cbn [app]. eauto.
Qed.

Lemma arrayRe_found (a b c : jsstring) :
  ~ In 91%N a -> ~ In 93%N c ->
  exists mt,
    exec arrayRe (a ++ 91%N :: b ++ 93%N :: c) = Some mt
    /\ m_text mt = 91%N :: b ++ [93%N].
Proof.
  intros Ha Hc. unfold exec, arrayRe. cbn [seqs].
  change (ch "[") with (Chr (char_eqb 91%N)).
  rewrite exec_from_skip.
  - eexists. split.
    + apply exec_from_leads. eapply leads_seq; [now apply leads_chr |].
      now apply last_closing_bracket.
    + unfold m_text. cbn [m_start m_end]. apply moved_captured.
      repeat split; cbn [todo seen caps].
      * cbn [app]. now rewrite <- app_assoc.
      * cbn [rev]. rewrite rev_app_distr. cbn [rev app].
        now rewrite <- !app_assoc.
  - intros p1 x p2 E. apply run_seq_chr_stops. cbn [stops]. unfold char_eqb.
    destruct (N.eqb_spec 91%N x) as [F | F]; [| reflexivity].
    exfalso. apply Ha. rewrite E. apply in_or_app. right. now left.
Qed.

Lemma arrayRe_matches (pre post : jsstring) (s' : st) :
  matches arrayRe (at_pos pre post) s' ->
  exists b, post = 91%N :: b ++ 93%N :: todo s'.
Proof.
  unfold arrayRe. cbn [seqs]. change (ch "[") with (Chr (char_eqb 91%N)).
  change (ch "]") with (Chr (char_eqb 93%N)). unfold anyChar.
  intros [m1 [H1 [m2 [H2 H3]]]].
  apply matches_chr_iff in H1, H3. apply star_chr_iff in H2.
  destruct H1 as [x [Hx [E1 _]]]. destruct H2 as [w [_ [E2 _]]].
  destruct H3 as [y [Hy [E3 _]]]. apply N.eqb_eq in Hx, Hy. subst x y.
  exists w. cbn [at_pos todo] in E1. rewrite E1, E2, E3. reflexivity.
Qed.

(** X16.  The text that postReview hands to JSON.parse goes from the first
    opening bracket of violations.json to its last closing bracket, when
    the one comes before the other. *)
Theorem parsed_text_is_outermost_brackets (fs : Std.FileSystem)
  (parse : jsstring -> outcome (list Comment)) (a b c : jsstring) :
  fs (js "violations.json") = Some (a ++ 91%N :: b ++ 93%N :: c) ->
  ~ In 91%N a -> ~ In 93%N c ->
  readViolations fs parse = parse (91%N :: b ++ [93%N]).
Proof.
  intros Hfs Ha Hc. unfold readViolations, Std.readFileSync. rewrite Hfs.
  destruct (arrayRe_found a b c Ha Hc) as [mt [E Ht]]. now rewrite E, Ht.
Qed.

(** A log line before the array of the violations. *)
Lemma parsed_text_witness :
  readViolations
    (fun _ => Some (js "Found 1 violations" ++ 91%N
                    :: js "{}" ++ 93%N :: js " done"))
    (fun text => if jsstring_eqb text (js "[{}]")
                 then Ok [mkComment (js "a.ts") 1 (js "x")] else Throw SyntaxError)
  = Ok [mkComment (js "a.ts") 1 (js "x")].
Proof.
  apply (parsed_text_is_outermost_brackets
           (fun _ => Some (js "Found 1 violations" ++ 91%N
                           :: js "{}" ++ 93%N :: js " done"))
           (fun text => if jsstring_eqb text (js "[{}]")
                        then Ok [mkComment (js "a.ts") 1 (js "x")]
                        else Throw SyntaxError)
           (js "Found 1 violations") (js "{}") (js " done")).
  - reflexivity.
  - vm_compute. intuition discriminate.
  - vm_compute. intuition discriminate.
Defined.

(** X17.  When violations.json holds no opening bracket with a closing
    bracket after it, nothing is parsed and postReview sends nothing. *)
Theorem no_array_nothing_posted (github : GitHub) (context : Context)
  (fs : Std.FileSystem) (parse : jsstring -> outcome (list Comment))
  (output : jsstring) :
  fs (js "violations.json") = Some output ->
  (forall a b c, output <> a ++ 91%N :: b ++ 93%N :: c) ->
  readViolations fs parse = Ok []
  /\ postReviewFrom github context fs parse = ([], Ok tt).
Proof.
  intros Hfs Hno.
  assert (E : readViolations fs parse = Ok []).
  { unfold readViolations, Std.readFileSync. rewrite Hfs.
    assert (En : exec arrayRe output = None).
    { apply exec_none_test, test_false_iff. intros pre post s' Eo H.
      destruct (arrayRe_matches _ _ _ H) as [b Eb].
      apply (Hno pre b (todo s')). now rewrite Eo, Eb. }
    now rewrite En. }
  split; [exact E |]. unfold postReviewFrom. now rewrite E.
Qed.

Lemma no_array_witness :
  readViolations (fun _ => Some (js "no violations")) (fun _ => Throw SyntaxError)
  = Ok []
  /\ postReviewFrom refusing here (fun _ => Some (js "no violations"))
       (fun _ => Throw SyntaxError) = ([], Ok tt).
Proof.
  apply (no_array_nothing_posted refusing here
           (fun _ => Some (js "no violations")) (fun _ => Throw SyntaxError)
           (js "no violations")).
  - reflexivity.
  - intros a b c E.
    assert (H : In 91%N (js "no violations"))
      by (rewrite E; apply in_or_app; right; now left).
    vm_compute in H. intuition discriminate.
Defined.

End PostFacts.
